(** * Snapshot Gatekeeper: ingestion and grading pipeline

    A shallow embedding of the capture-time extractor
    ([getDateTaken], services/imageProcessing), of the burst grouper, the
    batch orchestrator and the single-flight scheduler ([processQueue],
    App.tsx) and of the directory ingestion ([processDirectory], App.tsx),
    followed by the properties of the pipeline.

    Conventions.  JavaScript numbers that hold byte offsets and epoch
    milliseconds are integers in the source and are modelled by [Z].  A
    [DataView] read outside the buffer raises a [RangeError]; reads return
    [option] and the surrounding try/catch is written out.  Promises are
    modelled by the way they settle. *)

From Stdlib Require Import ZArith Lia Bool Ascii String List Permutation.
From Stdlib Require Import Strings.Byte.
From stdpp Require Import base option list sorting gmap sets strings.

Local Open Scope Z_scope.

(** ** Host environment

    Built-ins of the JavaScript host whose results are fixed by the engine,
    its Unicode tables and its locale, not by the program: the properties
    hold for every host. *)

Class Host := {
  (** [new Date(s).getTime()]; [None] is [NaN] (an invalid date). *)
  Date_getTime : string -> option Z;
  (** [a.localeCompare(b)]: negative, zero or positive. *)
  localeCompare : string -> string -> Z;
  (** [s.toLowerCase()]. *)
  toLowerCase : string -> string;
  (** [message] of the [TypeError] raised by reading a property of
      [undefined]. *)
  typeErrorMessage : string
}.

(** ** DataView over the bytes read from the file *)

Definition DataView := list byte.

Definition byteLength (view : DataView) : Z := Z.of_nat (length view).

Definition byteValue (b : byte) : Z := Z.of_N (Byte.to_N b).

(** [view.getUint8(off)]; [None] is the [RangeError] of an access outside
    the buffer. *)
Definition getUint8 (view : DataView) (off : Z) : option Z :=
  if (off <? 0) || (byteLength view <=? off) then None
  else byteValue <$> view !! Z.to_nat off.

(** [view.getUint16(off, littleEndian)]. *)
Definition getUint16 (view : DataView) (off : Z) (littleEndian : bool) : option Z :=
  b0 ← getUint8 view off;
  b1 ← getUint8 view (off + 1);
  Some (if littleEndian then Z.lor (Z.shiftl b1 8) b0
        else Z.lor (Z.shiftl b0 8) b1).

(** [view.getUint32(off, littleEndian)]. *)
Definition getUint32 (view : DataView) (off : Z) (littleEndian : bool) : option Z :=
  b0 ← getUint8 view off;
  b1 ← getUint8 view (off + 1);
  b2 ← getUint8 view (off + 2);
  b3 ← getUint8 view (off + 3);
  Some (if littleEndian
        then Z.lor (Z.shiftl b3 24) (Z.lor (Z.shiftl b2 16) (Z.lor (Z.shiftl b1 8) b0))
        else Z.lor (Z.shiftl b0 24) (Z.lor (Z.shiftl b1 16) (Z.lor (Z.shiftl b2 8) b3))).

(** The loop [for (j = 0; j < n; j++) s += String.fromCharCode(view.getUint8(off + j))]. *)
Fixpoint readChars (view : DataView) (off : Z) (n : nat) : option string :=
  match n with
  | O => Some EmptyString
  | S n' =>
      c ← getUint8 view off;
      s ← readChars view (off + 1) n';
      Some (String (ascii_of_N (Z.to_N c)) s)
  end.

Arguments readChars : simpl never.

(** ** Date string *)

(** [\d] of a JavaScript regular expression: the ten ASCII digits. *)
Definition isDigit (c : ascii) : bool :=
  let n := N_of_ascii c in (48 <=? n)%N && (n <=? 57)%N.

Definition isColon (c : ascii) : bool := (N_of_ascii c =? 58)%N.

(** [s.replace(/^(\d{4}):(\d{2}):(\d{2})/, '$1/$2/$3')]: a string that does
    not start with the pattern is returned unchanged. *)
Definition formatDate (s : string) : string :=
  match s with
  | String y1 (String y2 (String y3 (String y4 (String c1
      (String m1 (String m2 (String c2 (String d1 (String d2 rest))))))))) =>
      if isDigit y1 && isDigit y2 && isDigit y3 && isDigit y4 && isColon c1
         && isDigit m1 && isDigit m2 && isColon c2 && isDigit d1 && isDigit d2
      then String y1 (String y2 (String y3 (String y4 (String "/"
             (String m1 (String m2 (String "/" (String d1 (String d2 rest)))))))))
      else s
  | _ => s
  end.

(** ** Control flow inside the [onload] handler

    The statements of the handler either complete normally, resolve the
    promise and return, or raise an exception that the enclosing
    try/catch turns into the fallback. *)

Inductive Ctl (A : Type) : Type :=
  | Next (a : A)              (* normal completion *)
  | ResolveWith (t : Z)       (* resolve(timestamp); return *)
  | ResolveFallback           (* resolve(file.lastModified); return, or loop exit *)
  | Raise.                    (* exception raised inside the try block *)

Arguments Next {A} a.
Arguments ResolveWith {A} t.
Arguments ResolveFallback {A}.
Arguments Raise {A}.

#[global] Instance Ctl_ret : MRet Ctl := fun A a => Next a.
#[global] Instance Ctl_bind : MBind Ctl := fun A B k m =>
  match m with
  | Next a => k a
  | ResolveWith t => ResolveWith t
  | ResolveFallback => ResolveFallback
  | Raise => Raise
  end.

(** A [DataView] read inside the try block. *)
Definition read {A : Type} (r : option A) : Ctl A :=
  match r with
  | Some a => Next a
  | None => Raise
  end.

Section Extractor.
Context `{host : Host}.

(** Body of [if (tag === 0x9003) { ... }]. *)
Definition dateTimeOriginal (view : DataView) (tiffStart entryOffset : Z)
    (littleEndian : bool) : Ctl unit :=
  valueOffset ← read (getUint32 view (entryOffset + 8) littleEndian);
  let stringOffset := tiffStart + valueOffset in
  dateString ← read (readChars view stringOffset 19);
  let formattedDate := formatDate dateString in
  match Date_getTime formattedDate with
  | Some timestamp => ResolveWith timestamp
  | None => Next tt
  end.

(** [for (let i = 0; i < entries; i++) { ... }], with [n] iterations left
    and [i] the current index. *)
Fixpoint walkIFD (view : DataView) (tiffStart dirStart : Z) (littleEndian : bool)
    (n : nat) (i : Z) : Ctl unit :=
  match n with
  | O => Next tt
  | S n' =>
      let entryOffset := dirStart + 2 + i * 12 in
      tag ← read (getUint16 view entryOffset littleEndian);
      (if tag =? 0x9003
       then dateTimeOriginal view tiffStart entryOffset littleEndian
       else Next tt);;
      walkIFD view tiffStart dirStart littleEndian n' (i + 1)
  end.

(** Body of [if (view.getUint32(offset + 2, false) === 0x45786966) { ... }]. *)
Definition exifSegment (view : DataView) (offset : Z) : Ctl unit :=
  let tiffStart := offset + 8 in
  byteOrder ← read (getUint16 view tiffStart false);
  let littleEndian := byteOrder =? 0x4949 in
  magic ← read (getUint16 view (tiffStart + 2) littleEndian);
  if negb (magic =? 0x002A) then ResolveFallback else
  firstIFDOffset ← read (getUint32 view (tiffStart + 4) littleEndian);
  if firstIFDOffset <? 8 then ResolveFallback else
  let dirStart := tiffStart + firstIFDOffset in
  entries ← read (getUint16 view dirStart littleEndian);
  walkIFD view tiffStart dirStart littleEndian (Z.to_nat entries) 0.

(** [while (offset < length) { ... }] followed by
    [resolve(file.lastModified)].  [None] means that [fuel] iterations
    were not enough. *)
Fixpoint scanMarkers (fuel : nat) (view : DataView) (offset : Z) : option (Ctl unit) :=
  match fuel with
  | O => None
  | S fuel' =>
      if negb (offset <? byteLength view) then Some ResolveFallback else
      match getUint16 view offset false with
      | None => Some Raise
      | Some marker =>
          let offset := offset + 2 in
          if marker =? 0xFFE1 then
            match getUint16 view offset false with
            | None => Some Raise
            | Some app1Length =>
                match getUint32 view (offset + 2) false with
                | None => Some Raise
                | Some signature =>
                    match (if signature =? 0x45786966
                           then exifSegment view offset else Next tt) with
                    | Next _ => scanMarkers fuel' view (offset + app1Length)
                    | r => Some r
                    end
                end
            end
          else if negb (Z.land marker 0xFF00 =? 0xFF00) then
            Some ResolveFallback
          else
            match getUint16 view offset false with
            | None => Some Raise
            | Some len => scanMarkers fuel' view (offset + len)
            end
      end
  end.

(** The try block of [reader.onload]. *)
Definition parseExif (view : DataView) : option (Ctl unit) :=
  match getUint16 view 0 false with
  | None => Some Raise
  | Some soi =>
      if negb (soi =? 0xFFD8) then Some ResolveFallback
      else scanMarkers (S (length view)) view 2
  end.
End Extractor.

(** A [File]: its declared mime type, its last-modified time and its
    bytes; [content = None] is a file whose read fails ([reader.onerror]). *)
Record File := {
  type : string;
  lastModified : Z;
  content : option (list byte)
}.

(** [file.slice(0, 65536)]: the bytes that are read. *)
Definition slice64K (bytes : list byte) : DataView := take (Z.to_nat 65536) bytes.

Arguments slice64K : simpl never.

(** How a promise settles. *)
Inductive Settled (A : Type) : Type :=
  | Fulfilled (v : A)
  | Rejected
  | Pending.

Arguments Fulfilled {A} v.
Arguments Rejected {A}.
Arguments Pending {A}.

Definition isJpegType (t : string) : bool :=
  (t =? "image/jpeg")%string || (t =? "image/jpg")%string.

Section GetDateTaken.
Context `{host : Host}.

(** [getDateTaken(file)]: only the first 64 KiB are read. *)
Definition getDateTaken (file : File) : Settled Z :=
  if negb (isJpegType (type file)) then Fulfilled (lastModified file)
  else
    match content file with
    | None => Fulfilled (lastModified file)
    | Some bytes =>
        let view : DataView := slice64K bytes in
        match parseExif view with
        | None => Pending
        | Some (ResolveWith timestamp) => Fulfilled timestamp
        | Some ResolveFallback => Fulfilled (lastModified file)
        | Some (Next _) => Fulfilled (lastModified file)
        | Some Raise => Fulfilled (lastModified file)
        end
    end.
End GetDateTaken.

(** ** Asynchronous calls

    What [await p] does in the caller: continue with a value, raise the
    rejection as an exception, or never resume. *)

(** A thrown value, as far as the program looks at it: [error.message],
    [None] when the value has no such property. *)
Inductive Exn : Type :=
  | Thrown (message : option string).

Definition message (e : Exn) : option string :=
  match e with Thrown m => m end.

Inductive Async (A : Type) : Type :=
  | Done (a : A)
  | Fail (e : Exn)
  | Hang.

Arguments Done {A} a.
Arguments Fail {A} e.
Arguments Hang {A}.

#[global] Instance Async_ret : MRet Async := fun A a => Done a.
#[global] Instance Async_bind : MBind Async := fun A B k m =>
  match m with
  | Done a => k a
  | Fail e => Fail e
  | Hang => Hang
  end.

(** [await] of a promise that carries no rejection reason of interest. *)
Definition await {A : Type} (p : Settled A) : Async A :=
  match p with
  | Fulfilled v => Done v
  | Rejected => Fail (Thrown None)
  | Pending => Hang
  end.

(** ** Data model (types.ts, as used by App.tsx) *)

Inductive ProcessStatus : Type := pending | processing | done | error.

#[global] Instance ProcessStatus_eq_dec : EqDecision ProcessStatus.
Proof. solve_decision. Defined.

(** The grading result; the pipeline reads [isWorthKeeping] only. *)
Record Evaluation := {
  isWorthKeeping : bool;
  reasoning : string
}.

(** A file handle is known by the name of its directory entry. *)
Definition FileSystemFileHandle := string.
Definition FileSystemDirectoryHandle := string.

Record ImageFile := {
  id : string;
  handle : FileSystemFileHandle;
  name : string;
  imageType : string;
  status : ProcessStatus;
  evaluation : option Evaluation;
  xmpHandle : option FileSystemFileHandle;
  errorMessage : option string
}.

(** Result of [resizeImage]. *)
Record Resized := {
  base64 : string;
  mimeType : string
}.

(** Element of [preparedImages]. *)
Record PreparedImage := {
  preparedName : string;
  preparedBase64 : string;
  preparedMimeType : string
}.

(** The collaborators of one pass: file access, resizing, the grading
    service and the sidecar writer. *)
Record World := {
  getFile : FileSystemFileHandle -> Async File;
  resizeImage : File -> Async Resized;
  evaluateImage : string -> string -> Async Evaluation;
  evaluateImageGroup : list PreparedImage -> Async (gmap string Evaluation);
  generateXMPContent : Evaluation -> string;
  saveXMPInDirectory :
    FileSystemDirectoryHandle -> string -> string -> Async FileSystemFileHandle;
  parseXMP : FileSystemFileHandle -> Async (option Evaluation)
}.

(** ** Burst detection (processQueue, lines 54-112) *)

(** Element of [batchCandidates]. *)
Record Candidate := {
  index : nat;
  file : ImageFile;
  fileObj : File;
  timestamp : Z
}.

Definition MAX_BATCH_SIZE : nat := 4.

(** [currentFiles.findIndex(f => f.status === 'pending')]; [None] is -1. *)
Fixpoint findIndexPending (currentFiles : list ImageFile) : option nat :=
  match currentFiles with
  | [] => None
  | f :: rest =>
      if decide (status f = pending) then Some O
      else S <$> findIndexPending rest
  end.

Section BurstDetection.
Context `{host : Host}.

(** [await handle.getFile()] followed by [await getDateTaken(fileObj)]. *)
Definition readTimestamp (w : World) (f : ImageFile) : Async (File * Z) :=
  fObj ← getFile w (handle f);
  ts ← await (getDateTaken fObj);
  Done (fObj, ts).

(** The [while] loop.  The state is [batchCandidates] and [lookAhead];
    the result pairs the array as the loop leaves it with the way the
    loop ends: [Done] for the loop condition or a [break], [Fail] for an
    exception, which leaves what was pushed so far in the array. *)
Fixpoint lookAheadLoop (fuel : nat) (w : World) (currentFiles : list ImageFile)
    (nextFileIndex : nat) (batchCandidates : list Candidate) (lookAhead : nat)
    : list Candidate * Async unit :=
  match fuel with
  | O => (batchCandidates, Hang)
  | S fuel' =>
      if negb ((length batchCandidates <? MAX_BATCH_SIZE)%nat
               && (nextFileIndex + lookAhead <? length currentFiles)%nat)
      then (batchCandidates, Done tt)
      else
        let candidateIndex := (nextFileIndex + lookAhead)%nat in
        match currentFiles !! candidateIndex with
        | None => (batchCandidates, Fail (Thrown (Some typeErrorMessage)))
        | Some candidateFile =>
            if negb (bool_decide (status candidateFile = pending))
            then (batchCandidates, Done tt)
            else
              match readTimestamp w candidateFile with
              | Fail e => (batchCandidates, Fail e)
              | Hang => (batchCandidates, Hang)
              | Done (candidateFileObj, candidateTimestamp) =>
                  match last batchCandidates, head batchCandidates with
                  | Some prev, Some start =>
                      let prevTimestamp := timestamp prev in
                      let startTimestamp := timestamp start in
                      let neighborDelta := Z.abs (candidateTimestamp - prevTimestamp) in
                      let totalDelta := Z.abs (candidateTimestamp - startTimestamp) in
                      if (neighborDelta <? 2000) && (totalDelta <? 4000) then
                        lookAheadLoop fuel' w currentFiles nextFileIndex
                          (batchCandidates ++
                             [{| index := candidateIndex;
                                 file := candidateFile;
                                 fileObj := candidateFileObj;
                                 timestamp := candidateTimestamp |}])
                          (lookAhead + 1)%nat
                      else (batchCandidates, Done tt)
                  | _, _ => (batchCandidates, Fail (Thrown (Some typeErrorMessage)))
                  end
              end
        end
  end.

(** The try block: the first file, then the loop. *)
Definition burstTry (w : World) (currentFiles : list ImageFile)
    (nextFileIndex : nat) : list Candidate * Async unit :=
  match currentFiles !! nextFileIndex with
  | None => ([], Fail (Thrown (Some typeErrorMessage)))
  | Some firstFile =>
      match readTimestamp w firstFile with
      | Fail e => ([], Fail e)
      | Hang => ([], Hang)
      | Done (firstFileObj, firstTimestamp) =>
          lookAheadLoop (length currentFiles) w currentFiles nextFileIndex
            [{| index := nextFileIndex;
                file := firstFile;
                fileObj := firstFileObj;
                timestamp := firstTimestamp |}]
            1%nat
      end
  end.

(** try/catch: the exception is logged and [batchCandidates] keeps what
    it holds.  [None]: an awaited call never returned. *)
Definition burstDetection (w : World) (currentFiles : list ImageFile)
    (nextFileIndex : nat) : option (list Candidate) :=
  match burstTry w currentFiles nextFileIndex with
  | (batchCandidates, Done _) => Some batchCandidates
  | (batchCandidates, Fail _) => Some batchCandidates
  | (_, Hang) => None
  end.
End BurstDetection.

(** ** Batch evaluation (processQueue, lines 114-204) *)

(** [new Set(batchCandidates.map(c => c.file.id))]. *)
Definition processingIdsOf (batchCandidates : list Candidate) : gset string :=
  list_to_set (map (fun c => id (file c)) batchCandidates).

(** [{ ...f, status: 'processing' }]. *)
Definition withProcessing (f : ImageFile) : ImageFile :=
  {| id := id f; handle := handle f; name := name f; imageType := imageType f;
     status := processing; evaluation := evaluation f;
     xmpHandle := xmpHandle f; errorMessage := errorMessage f |}.

(** [{ ...f, status: 'error', errorMessage: error.message }]. *)
Definition withError (e : Exn) (f : ImageFile) : ImageFile :=
  {| id := id f; handle := handle f; name := name f; imageType := imageType f;
     status := error; evaluation := evaluation f;
     xmpHandle := xmpHandle f; errorMessage := message e |}.

(** [{ ...f, status: 'done', evaluation, xmpHandle }]. *)
Definition withDone (ev : Evaluation) (xmp : option FileSystemFileHandle)
    (f : ImageFile) : ImageFile :=
  {| id := id f; handle := handle f; name := name f; imageType := imageType f;
     status := done; evaluation := Some ev;
     xmpHandle := xmp; errorMessage := errorMessage f |}.

(** [prev.map(f => processingIds.has(f.id) ? { ...f, status: 'processing' } : f)]. *)
Definition markProcessing (processingIds : gset string) (prev : list ImageFile)
    : list ImageFile :=
  map (fun f => if bool_decide (id f ∈ processingIds) then withProcessing f else f) prev.

(** The setter of the catch block. *)
Definition markError (processingIds : gset string) (e : Exn) (prev : list ImageFile)
    : list ImageFile :=
  map (fun f => if bool_decide (id f ∈ processingIds) then withError e f else f) prev.

(** Element of [resolvedUpdates]. *)
Record Update := {
  updateId : string;
  updateEvaluation : Evaluation;
  updateStatus : ProcessStatus;
  updateXmpHandle : option FileSystemFileHandle
}.

(** [{ ...next[idx], ...u }]. *)
Definition mergeUpdate (u : Update) (f : ImageFile) : ImageFile :=
  {| id := updateId u; handle := handle f; name := name f; imageType := imageType f;
     status := updateStatus u; evaluation := Some (updateEvaluation u);
     xmpHandle := updateXmpHandle u; errorMessage := errorMessage f |}.

(** [next.findIndex(f => f.id === uid)]; [None] is -1. *)
Fixpoint findIndexId (uid : string) (next : list ImageFile) : option nat :=
  match next with
  | [] => None
  | f :: rest =>
      if decide (id f = uid) then Some O
      else S <$> findIndexId uid rest
  end.

(** The setter of the group path: [resolvedUpdates.forEach(u => ...)] over a
    copy of [prev]. *)
Definition bulkUpdate (resolvedUpdates : list Update) (prev : list ImageFile)
    : list ImageFile :=
  foldl (fun next u =>
           match findIndexId (updateId u) next with
           | Some idx => alter (mergeUpdate u) idx next
           | None => next
           end) prev resolvedUpdates.

(** The setter of the single path. *)
Definition singleUpdate (targetId : string) (ev : Evaluation)
    (xmp : option FileSystemFileHandle) (prev : list ImageFile) : list ImageFile :=
  map (fun f => if decide (id f = targetId) then withDone ev xmp f else f) prev.

(** [await Promise.all(ps)].  A rejection wins over a promise that never
    settles; among several rejections the first of the array is taken. *)
Fixpoint promiseAll {A : Type} (ps : list (Async A)) : Async (list A) :=
  match ps with
  | [] => Done []
  | p :: ps' =>
      match p, promiseAll ps' with
      | Fail e, _ => Fail e
      | _, Fail e => Fail e
      | Hang, _ => Hang
      | _, Hang => Hang
      | Done a, Done l => Done (a :: l)
      end
  end.

(** How the try block of the batch ends when it does not raise. *)
Inductive Success : Type :=
  | GroupSuccess (resolvedUpdates : list Update)
  | SingleSuccess (targetId : string) (ev : Evaluation)
      (xmp : option FileSystemFileHandle).

Section Batch.
Context `{host : Host}.

(** [let xmpHandle; if (dirHandle) { try { xmpHandle = await
    saveXMPInDirectory(...) } catch (e) { console.warn(...) } }]. *)
Definition saveSidecar (w : World) (dirHandle : option FileSystemDirectoryHandle)
    (fileName : string) (result : Evaluation)
    : Async (option FileSystemFileHandle) :=
  match dirHandle with
  | None => Done None
  | Some dir =>
      match saveXMPInDirectory w dir fileName (generateXMPContent w result) with
      | Done h => Done (Some h)
      | Fail _ => Done None
      | Hang => Hang
      end
  end.

(** Callback of [batchCandidates.map(async (c) => ...)], step 1. *)
Definition prepareImage (w : World) (c : Candidate) : Async PreparedImage :=
  resized ← resizeImage w (fileObj c);
  Done {| preparedName := name (file c);
          preparedBase64 := base64 resized;
          preparedMimeType := mimeType resized |}.

(** Callback of [batchCandidates.map(async (c) => ...)], step 3. *)
Definition memberUpdate (w : World) (dirHandle : option FileSystemDirectoryHandle)
    (groupResults : gmap string Evaluation) (c : Candidate) : Async Update :=
  match groupResults !! name (file c) with
  | None =>
      Fail (Thrown (Some ("No result for " ++ name (file c)
                          ++ " in group response")%string))
  | Some result =>
      xmp ← saveSidecar w dirHandle (name (file c)) result;
      Done {| updateId := id (file c);
              updateEvaluation := result;
              updateStatus := done;
              updateXmpHandle := xmp |}
  end.

(** The try block of the batch. *)
Definition batchTry (w : World) (dirHandle : option FileSystemDirectoryHandle)
    (batchCandidates : list Candidate) : Async Success :=
  if (1 <? length batchCandidates)%nat then
    preparedImages ← promiseAll (map (prepareImage w) batchCandidates);
    groupResults ← evaluateImageGroup w preparedImages;
    resolvedUpdates ← promiseAll (map (memberUpdate w dirHandle groupResults)
                                      batchCandidates);
    Done (GroupSuccess resolvedUpdates)
  else
    match head batchCandidates with
    | None => Fail (Thrown (Some typeErrorMessage))
    | Some target =>
        resized ← resizeImage w (fileObj target);
        ev ← evaluateImage w (base64 resized) (mimeType resized);
        xmp ← saveSidecar w dirHandle (name (file target)) ev;
        Done (SingleSuccess (id (file target)) ev xmp)
    end.

(** try/catch of the batch as a setter on the backlog; [None]: an
    awaited call never returned, so neither setter nor [finally] runs. *)
Definition runBatch (w : World) (dirHandle : option FileSystemDirectoryHandle)
    (batchCandidates : list Candidate)
    : option (list ImageFile -> list ImageFile) :=
  match batchTry w dirHandle batchCandidates with
  | Done (GroupSuccess resolvedUpdates) => Some (bulkUpdate resolvedUpdates)
  | Done (SingleSuccess targetId ev xmp) => Some (singleUpdate targetId ev xmp)
  | Fail e => Some (markError (processingIdsOf batchCandidates) e)
  | Hang => None
  end.
End Batch.

(** ** Directory ingestion (processDirectory, lines 211-271) *)

Inductive EntryKind : Type := kindFile | kindDirectory.

(** An entry of [handle.values()]. *)
Record Entry := {
  entryKind : EntryKind;
  entryName : string
}.

(** [s.endsWith(suffix)]. *)
Definition endsWith (s suffix : string) : bool :=
  let n := String.length s in
  let k := String.length suffix in
  (k <=? n)%nat && (String.substring (n - k) k s =? suffix)%string.

(** [s.lastIndexOf('.')]; [None] is -1. *)
Fixpoint lastIndexOfDot (s : string) : option nat :=
  match s with
  | EmptyString => None
  | String c s' =>
      match lastIndexOfDot s' with
      | Some i => Some (S i)
      | None => if (N_of_ascii c =? 46)%N then Some O else None
      end
  end.

(** [entry.name.substring(0, entry.name.lastIndexOf('.'))]: a negative
    end is taken as 0. *)
Definition baseNameOf (entryName : string) : string :=
  match lastIndexOfDot entryName with
  | Some i => String.substring 0 i entryName
  | None => EmptyString
  end.

Section Ingestion.
Context `{host : Host}.

Definition isXmpName (entryName : string) : bool :=
  endsWith (toLowerCase entryName) ".xmp".

Definition isImageName (entryName : string) : bool :=
  let name := toLowerCase entryName in
  endsWith name ".jpg" || endsWith name ".jpeg"
  || endsWith name ".png" || endsWith name ".webp".

(** First pass: the sidecars by lower-cased base name. *)
Definition collectXmpHandles (entries : list Entry)
    : gmap string FileSystemFileHandle :=
  foldl (fun xmpHandles entry =>
           match entryKind entry with
           | kindFile =>
               if isXmpName (entryName entry)
               then <[toLowerCase (baseNameOf (entryName entry)) := entryName entry]>
                      xmpHandles
               else xmpHandles
           | kindDirectory => xmpHandles
           end) ∅ entries.

(** Second pass: an item for every image file. *)
Fixpoint collectImageFiles (w : World) (xmpHandles : gmap string FileSystemFileHandle)
    (entries : list Entry) (imageFiles : list ImageFile) : Async (list ImageFile) :=
  match entries with
  | [] => Done imageFiles
  | entry :: rest =>
      match entryKind entry with
      | kindFile =>
          if isImageName (entryName entry) then
            let baseName := baseNameOf (entryName entry) in
            let xmp := xmpHandles !! toLowerCase baseName in
            parsed ← match xmp with
                     | Some h => parseXMP w h
                     | None => Done None
                     end;
            collectImageFiles w xmpHandles rest
              (imageFiles ++
                 [{| id := entryName entry;
                     handle := entryName entry;
                     name := entryName entry;
                     imageType := "image";
                     status := match parsed with Some _ => done | None => pending end;
                     evaluation := parsed;
                     xmpHandle := xmp;
                     errorMessage := None |}])
          else collectImageFiles w xmpHandles rest imageFiles
      | kindDirectory => collectImageFiles w xmpHandles rest imageFiles
      end
  end.

(** Comparator of [imageFiles.sort((a, b) => a.name.localeCompare(b.name))]. *)
Definition nameLe (a b : ImageFile) : Prop := localeCompare (name a) (name b) <= 0.

#[global] Instance nameLe_dec : RelDecision nameLe.
Proof. intros a b. unfold nameLe. apply _. Defined.

(** The try block of [processDirectory]: the two listings of the
    directory, then the sorted backlog handed to [setFiles]. *)
Definition processDirectory (w : World) (listing1 listing2 : list Entry)
    : Async (list ImageFile) :=
  let xmpHandles := collectXmpHandles listing1 in
  imageFiles ← collectImageFiles w xmpHandles listing2 [];
  Done (merge_sort nameLe imageFiles).
End Ingestion.

(** ** The scheduler as a transition system

    [processQueue] runs in three atomic stretches, separated by awaits:
    the synchronous prelude (lines 46-52), burst detection up to the
    setter that marks the batch (lines 55-118), and the batch with its
    setter and the [finally] block (lines 120-204).  The awaits inside a
    stretch touch only the locals of the call and the collaborators, so
    other handlers are let in between stretches only. *)

(** A call of [processQueue] that is suspended at an await. *)
Inductive Activation : Type :=
  | Detecting (dirHandle : option FileSystemDirectoryHandle)
      (currentFiles : list ImageFile) (nextFileIndex : nat)
  | Grading (dirHandle : option FileSystemDirectoryHandle)
      (batchCandidates : list Candidate).

Record AppState := {
  files : list ImageFile;           (* the [files] state *)
  filesRef : list ImageFile;        (* filesRef.current *)
  isProcessingRef : bool;           (* isProcessingRef.current *)
  processingRef : bool;             (* processingRef.current, the guard *)
  inFlight : list Activation;       (* suspended calls of processQueue *)
  retries : list Z                  (* delays of setTimeout(processQueue, _) *)
}.

Definition initialState : AppState :=
  {| files := []; filesRef := []; isProcessingRef := true;
     processingRef := false; inFlight := []; retries := [] |}.

Inductive Event : Type :=
  (** the interval or a timeout calls [processQueue]; the closure holds
      [dirHandle] *)
  | Tick (dirHandle : option FileSystemDirectoryHandle)
  (** call [k] leaves burst detection and marks its batch *)
  | Detected (k : nat) (w : World)
  (** call [k] leaves the batch: setter, then [finally] *)
  | Completed (k : nat) (w : World)
  (** the effect [filesRef.current = files] *)
  | Render
  (** the pause button, through [isProcessingRef.current = isProcessing] *)
  | SetIsProcessing (b : bool)
  (** [processDirectory] up to its first await: [setFiles([])] *)
  | OpenFolder
  (** [processDirectory] hands the sorted backlog to [setFiles] *)
  | FolderLoaded (w : World) (listing1 listing2 : list Entry)
  (** [handleDeleteFile]: [setFiles(prev => prev.filter(f => f.id !== id))] *)
  | DeleteFile (fileId : string)
  (** the setters of the other handlers ([handleFallbackSelect],
      [handleUpdateFile], [handleArchiveRejects]): any new backlog *)
  | Overwrite (next : list ImageFile).

Definition setFiles (s : AppState) (next : list ImageFile) : AppState :=
  {| files := next; filesRef := filesRef s; isProcessingRef := isProcessingRef s;
     processingRef := processingRef s; inFlight := inFlight s;
     retries := retries s |}.

Section Scheduler.
Context `{host : Host}.

(** Lines 46-52. *)
Definition tick (dirHandle : option FileSystemDirectoryHandle) (s : AppState)
    : AppState :=
  if processingRef s || negb (isProcessingRef s) then s
  else
    let currentFiles := filesRef s in
    match findIndexPending currentFiles with
    | None => s
    | Some nextFileIndex =>
        {| files := files s; filesRef := filesRef s;
           isProcessingRef := isProcessingRef s;
           processingRef := true;
           inFlight := inFlight s ++ [Detecting dirHandle currentFiles nextFileIndex];
           retries := retries s |}
    end.

(** Lines 55-118 of call [k]. *)
Definition detected (k : nat) (w : World) (s : AppState) : option AppState :=
  match inFlight s !! k with
  | Some (Detecting dirHandle currentFiles nextFileIndex) =>
      batchCandidates ← burstDetection w currentFiles nextFileIndex;
      let processingIds := processingIdsOf batchCandidates in
      Some {| files := markProcessing processingIds (files s);
              filesRef := filesRef s;
              isProcessingRef := isProcessingRef s;
              processingRef := processingRef s;
              inFlight := <[k := Grading dirHandle batchCandidates]> (inFlight s);
              retries := retries s |}
  | _ => None
  end.

(** Lines 120-204 of call [k]. *)
Definition completed (k : nat) (w : World) (s : AppState) : option AppState :=
  match inFlight s !! k with
  | Some (Grading dirHandle batchCandidates) =>
      setter ← runBatch w dirHandle batchCandidates;
      Some {| files := setter (files s);
              filesRef := filesRef s;
              isProcessingRef := isProcessingRef s;
              processingRef := false;
              inFlight := delete k (inFlight s);
              retries := retries s ++ [500] |}
  | _ => None
  end.

(** One handler runs; [None]: the event cannot happen in this state. *)
Definition step (s : AppState) (ev : Event) : option AppState :=
  match ev with
  | Tick dirHandle => Some (tick dirHandle s)
  | Detected k w => detected k w s
  | Completed k w => completed k w s
  | Render =>
      Some {| files := files s; filesRef := files s;
              isProcessingRef := isProcessingRef s;
              processingRef := processingRef s; inFlight := inFlight s;
              retries := retries s |}
  | SetIsProcessing b =>
      Some {| files := files s; filesRef := filesRef s;
              isProcessingRef := b;
              processingRef := processingRef s; inFlight := inFlight s;
              retries := retries s |}
  | OpenFolder => Some (setFiles s [])
  | FolderLoaded w listing1 listing2 =>
      (* a listing of a directory holds every name once *)
      if decide (NoDup (entryName <$> listing2)) then
        match processDirectory w listing1 listing2 with
        | Done backlog => Some (setFiles s backlog)
        | Fail _ => Some s
        | Hang => None
        end
      else None
  | DeleteFile fileId =>
      Some (setFiles s (filter (fun f => id f ≠ fileId) (files s)))
  | Overwrite next => Some (setFiles s next)
  end.

(** The handlers of a trace, run from [s]. *)
Fixpoint run (s : AppState) (trace : list Event) : option AppState :=
  match trace with
  | [] => Some s
  | ev :: rest => s' ← step s ev; run s' rest
  end.

Definition reachable (s : AppState) : Prop :=
  exists trace, run initialState trace = Some s.

(** One call of [processQueue] that runs to its end with no other
    handler in between. *)
Definition processQueue (w : World) (dirHandle : option FileSystemDirectoryHandle)
    (s : AppState) : option AppState :=
  if processingRef s || negb (isProcessingRef s) then Some s
  else
    match findIndexPending (filesRef s) with
    | None => Some s
    | Some _ =>
        let k := length (inFlight s) in
        s1 ← detected k w (tick dirHandle s);
        completed k w s1
    end.
End Scheduler.

(** ** A reference host and sample inputs

    A host in the UTC time zone whose date parser accepts exactly
    [YYYY/MM/DD HH:MM:SS] with fields in range, which compares names
    code unit by code unit and lower-cases the ASCII letters, and sample
    files built byte by byte; they are the concrete inputs of the
    examples, and their names are ASCII. *)

Definition digitValue (c : ascii) : Z := Z.of_N (N_of_ascii c) - 48.

Definition twoDigits (a b : ascii) : option Z :=
  if isDigit a && isDigit b then Some (10 * digitValue a + digitValue b) else None.

(** Days from 1970-01-01 to the civil date [y]-[m]-[d]. *)
Definition daysFromCivil (y m d : Z) : Z :=
  let y' := if m <=? 2 then y - 1 else y in
  let era := y' / 400 in
  let yoe := y' - era * 400 in
  let doy := (153 * (if 2 <? m then m - 3 else m + 9) + 2) / 5 + d - 1 in
  let doe := yoe * 365 + yoe / 4 - yoe / 100 + doy in
  era * 146097 + doe - 719468.

Definition utcDateGetTime (s : string) : option Z :=
  match list_ascii_of_string s with
  | [y1; y2; y3; y4; s1; m1; m2; s2; d1; d2; sp; h1; h2; c1; n1; n2; c2; e1; e2] =>
      if (N_of_ascii s1 =? 47)%N && (N_of_ascii s2 =? 47)%N && (N_of_ascii sp =? 32)%N
         && isColon c1 && isColon c2
      then
        yh ← twoDigits y1 y2; yl ← twoDigits y3 y4;
        mo ← twoDigits m1 m2; d ← twoDigits d1 d2;
        h ← twoDigits h1 h2; mi ← twoDigits n1 n2; se ← twoDigits e1 e2;
        if (1 <=? mo) && (mo <=? 12) && (1 <=? d) && (d <=? 31)
           && (h <=? 23) && (mi <=? 59) && (se <=? 59)
        then Some ((((daysFromCivil (100 * yh + yl) mo d * 24 + h) * 60 + mi) * 60 + se) * 1000)
        else None
      else None
  | _ => None
  end.

Definition compareZ (c : comparison) : Z :=
  match c with Lt => -1 | Eq => 0 | Gt => 1 end.

(** Lower-casing of the ASCII letters: what [toLowerCase] does on the
    names of the samples, which are ASCII. *)
Definition asciiLowerChar (c : ascii) : ascii :=
  let n := N_of_ascii c in
  if (65 <=? n)%N && (n <=? 90)%N then ascii_of_N (n + 32) else c.

Fixpoint asciiToLowerCase (s : string) : string :=
  match s with
  | EmptyString => EmptyString
  | String c s' => String (asciiLowerChar c) (asciiToLowerCase s')
  end.

Definition utcHost : Host :=
  {| Date_getTime := utcDateGetTime;
     localeCompare := fun a b => compareZ (String.compare a b);
     toLowerCase := asciiToLowerCase;
     typeErrorMessage := "Cannot read properties of undefined" |}.

Definition byteOf (n : Z) : byte :=
  match Byte.of_N (Z.to_N (n mod 256)) with
  | Some b => b
  | None => x00
  end.

Definition be16 (n : Z) : list byte := [byteOf (n / 256); byteOf n].

Definition be32 (n : Z) : list byte :=
  [byteOf (n / 16777216); byteOf (n / 65536); byteOf (n / 256); byteOf n].

(** A big-endian IFD entry of type ASCII and count 20. *)
Definition ifdEntry (tag valueOffset : Z) : list byte :=
  be16 tag ++ be16 2 ++ be32 20 ++ be32 valueOffset.

(** A TIFF block whose first IFD holds one entry per pair [(tag, text)];
    the texts follow the IFD, NUL-terminated, 20 bytes each. *)
Definition tiffBlock (entries : list (Z * string)) : list byte :=
  let n := Z.of_nat (length entries) in
  let dataStart := 8 + 2 + 12 * n + 4 in
  list_byte_of_string "MM" ++ be16 42 ++ be32 8 ++ be16 n
  ++ concat (imap (fun i e => ifdEntry (fst e) (dataStart + 20 * Z.of_nat i)) entries)
  ++ be32 0
  ++ concat (map (fun e => list_byte_of_string (snd e) ++ [x00]) entries).




(** A file longer than 64 KiB: the APP1 segment declares 65535 bytes and
    the date text of its only entry ends one byte past offset 65535. *)
Definition truncatedJpeg : list byte :=
  [xff; xd8; xff; xe1] ++ be16 65535
  ++ list_byte_of_string "Exif" ++ [x00; x00]
  ++ list_byte_of_string "MM" ++ be16 42 ++ be32 8 ++ be16 1
  ++ ifdEntry 0x9003 65506 ++ be32 0
  ++ replicate (Z.to_nat (65506 - 26)) x00
  ++ list_byte_of_string "2023:10:25 14:30:00" ++ [x00].

(** SOI followed by a byte pair that is not a marker. *)
Definition badMarkerJpeg : list byte := [xff; xd8; x00; x10; x00; x02].

Definition jpegFile (modified : Z) (bytes : list byte) : File :=
  {| type := "image/jpeg"; lastModified := modified; content := Some bytes |}.

(** A file that is not a JPEG: its capture time is its last-modified time. *)
Definition pngFile (modified : Z) : File :=
  {| type := "image/png"; lastModified := modified; content := Some [] |}.

Definition pendingItem (fileName : string) : ImageFile :=
  {| id := fileName; handle := fileName; name := fileName; imageType := "image";
     status := pending; evaluation := None; xmpHandle := None;
     errorMessage := None |}.

Definition sampleEvaluation : Evaluation :=
  {| isWorthKeeping := true; reasoning := "sharp" |}.

(** A world over a map from file names to files: a missing file makes
    [getFile] fail, resizing and single grading succeed, the group
    service answers with [groupResponse], and writing a sidecar fails for
    the names in [unwritable]. *)
Definition sampleWorld (disk : gmap string File)
    (groupResponse : gmap string Evaluation) (unwritable : gset string) : World :=
  {| getFile := fun h =>
       match disk !! h with
       | Some f => Done f
       | None => Fail (Thrown (Some "NotFoundError"))
       end;
     resizeImage := fun _ => Done {| base64 := "AAAA"; mimeType := "image/jpeg" |};
     evaluateImage := fun _ _ => Done sampleEvaluation;
     evaluateImageGroup := fun _ => Done groupResponse;
     generateXMPContent := fun _ => "<x:xmpmeta/>";
     saveXMPInDirectory := fun _ fileName _ =>
       if bool_decide (fileName ∈ unwritable)
       then Fail (Thrown (Some "NotAllowedError"))
       else Done (fileName ++ ".xmp")%string;
     parseXMP := fun _ => Done (Some sampleEvaluation) |}.

(** ** Specification predicates *)

Section ExifPredicates.
Context `{host : Host}.

(** The APP1 segment whose length field is at [offset] carries the Exif
    signature and a TIFF header that passes the checks: byte order
    [littleEndian], first IFD at [dirStart] with [entries] entries. *)
Definition ExifHeaderAt (view : DataView) (offset : Z) (littleEndian : bool)
    (dirStart entries : Z) : Prop :=
  exists byteOrder firstIFDOffset,
    getUint32 view (offset + 2) false = Some 0x45786966 /\
    getUint16 view (offset + 8) false = Some byteOrder /\
    littleEndian = (byteOrder =? 0x4949) /\
    getUint16 view (offset + 8 + 2) littleEndian = Some 0x002A /\
    getUint32 view (offset + 8 + 4) littleEndian = Some firstIFDOffset /\
    8 <= firstIFDOffset /\
    dirStart = offset + 8 + firstIFDOffset /\
    getUint16 view dirStart littleEndian = Some entries.

(** The value of entry [i]: the 19 bytes at its value offset, counted
    from the TIFF header, after the rewrite of the date separators, as
    the host's date parser sees them ([None]: an invalid date). *)
Definition entryValue (view : DataView) (tiffStart dirStart : Z)
    (littleEndian : bool) (i : Z) (parsed : option Z) : Prop :=
  exists valueOffset dateString,
    getUint32 view (dirStart + 2 + i * 12 + 8) littleEndian = Some valueOffset /\
    readChars view (tiffStart + valueOffset) 19 = Some dateString /\
    Date_getTime (formatDate dateString) = parsed.

(** Entry [i] has tag 0x9003 and its value is the valid date [t]. *)
Definition DateEntryAt (view : DataView) (tiffStart dirStart : Z)
    (littleEndian : bool) (i t : Z) : Prop :=
  getUint16 view (dirStart + 2 + i * 12) littleEndian = Some 0x9003 /\
  entryValue view tiffStart dirStart littleEndian i (Some t).

(** Entry [j] can be read and holds no date: its tag is not 0x9003, or
    its value is an invalid date. *)
Definition entrySkipped (view : DataView) (tiffStart dirStart : Z)
    (littleEndian : bool) (j : Z) : Prop :=
  exists tag,
    getUint16 view (dirStart + 2 + j * 12) littleEndian = Some tag /\
    (tag <> 0x9003 \/ entryValue view tiffStart dirStart littleEndian j None).

(** Some Exif segment of [view] has a 0x9003 entry in its first IFD whose
    value is the valid date [t]. *)
Definition DateTimeOriginalAt (view : DataView) (t : Z) : Prop :=
  exists offset littleEndian dirStart entries i,
    ExifHeaderAt view offset littleEndian dirStart entries /\
    0 <= i < entries /\
    DateEntryAt view (offset + 8) dirStart littleEndian i t.
End ExifPredicates.

(** The candidates of [run] are the items of a slice of [currentFiles]
    that starts at [nextFileIndex], each of them pending. *)
Definition sliceRun (currentFiles : list ImageFile) (nextFileIndex : nat)
    (run : list Candidate) : Prop :=
  forall i c, run !! i = Some c ->
    index c = (nextFileIndex + i)%nat /\
    currentFiles !! (nextFileIndex + i)%nat = Some (file c) /\
    status (file c) = pending.

(** The sample backlog of four pending items and a disk that gives them
    the capture times 1000, 1500, 3200 and 7000. *)
Definition burstBacklog : list ImageFile :=
  pendingItem <$> ["A.png"; "B.png"; "C.png"; "D.png"]%string.

Definition burstDisk : gmap string File :=
  list_to_map [("A.png"%string, pngFile 1000); ("B.png"%string, pngFile 1500);
               ("C.png"%string, pngFile 3200); ("D.png"%string, pngFile 7000)].

(** The sidecar reference a member ends with: the handle of a write that
    succeeded, nothing without a directory or after a failed write. *)
Definition sidecarRef (w : World) (dirHandle : option FileSystemDirectoryHandle)
    (fileName : string) (result : Evaluation) : option FileSystemFileHandle :=
  match dirHandle with
  | None => None
  | Some dir =>
      match saveXMPInDirectory w dir fileName (generateXMPContent w result) with
      | Done h => Some h
      | _ => None
      end
  end.

(** The update of a member graded with [result]. *)
Definition gradedUpdate (w : World) (dirHandle : option FileSystemDirectoryHandle)
    (c : Candidate) (result : Evaluation) : Update :=
  {| updateId := id (file c);
     updateEvaluation := result;
     updateStatus := done;
     updateXmpHandle := sidecarRef w dirHandle (name (file c)) result |}.

(** The run that burst detection finds in the sample backlog. *)
Definition burstRun : list Candidate :=
  [ {| index := 0; file := pendingItem "A.png";
       fileObj := pngFile 1000; timestamp := 1000 |};
    {| index := 1; file := pendingItem "B.png";
       fileObj := pngFile 1500; timestamp := 1500 |};
    {| index := 2; file := pendingItem "C.png";
       fileObj := pngFile 3200; timestamp := 3200 |} ].

(** A group response without B.png, and a full one. *)
Definition partialResponse : gmap string Evaluation :=
  {[ "A.png"%string := sampleEvaluation; "C.png"%string := sampleEvaluation ]}.

Definition fullResponse : gmap string Evaluation :=
  {[ "A.png"%string := sampleEvaluation; "B.png"%string := sampleEvaluation;
     "C.png"%string := sampleEvaluation ]}.

Section IngestionPredicates.
Context `{host : Host}.

(** The entries of a listing that ingestion turns into items. *)
Definition isImageEntry (entry : Entry) : bool :=
  match entryKind entry with
  | kindFile => isImageName (entryName entry)
  | kindDirectory => false
  end.

Definition imageNames (listing : list Entry) : list string :=
  entryName <$> filter (fun entry => isImageEntry entry = true) listing.
End IngestionPredicates.

(** A directory with two images that differ in the extension only. *)
Definition twinListing : list Entry :=
  [ {| entryKind := kindFile; entryName := "IMG.jpg" |};
    {| entryKind := kindFile; entryName := "IMG.png" |};
    {| entryKind := kindFile; entryName := "notes.txt" |} ].

(** The guard is set exactly while one call of [processQueue] is
    suspended, and no second call is. *)
Definition singleFlight (s : AppState) : Prop :=
  (processingRef s = false /\ inFlight s = []) \/
  (processingRef s = true /\ exists a, inFlight s = [a]).

(** Every item marked [processing] belongs to the one batch in flight. *)
Definition marksOwned (s : AppState) : Prop :=
  forall f, f ∈ files s -> status f = processing ->
    exists dirHandle batchCandidates,
      inFlight s = [Grading dirHandle batchCandidates] /\
      id f ∈ processingIdsOf batchCandidates.

(** The handlers whose setters are functions of the current backlog or
    come from ingestion. *)
Definition ownSetter (ev : Event) : Prop :=
  match ev with
  | Overwrite _ => False
  | _ => True
  end.

Definition schedulerInvariant (s : AppState) : Prop :=
  singleFlight s /\ marksOwned s /\ NoDup (id <$> files s).

(** The directory of the sample backlog, and the state in which its first
    burst is being graded. *)
Definition burstListing : list Entry :=
  (fun fileName => {| entryKind := kindFile; entryName := fileName |})
    <$> ["A.png"; "B.png"; "C.png"; "D.png"]%string.

Definition busyTrace : list Event :=
  [ OpenFolder;
    FolderLoaded (sampleWorld burstDisk fullResponse ∅) burstListing burstListing;
    Render;
    Tick None;
    Detected 0 (sampleWorld burstDisk fullResponse ∅) ].

Definition busyState : AppState :=
  {| files := [withProcessing (pendingItem "A.png");
               withProcessing (pendingItem "B.png");
               withProcessing (pendingItem "C.png");
               pendingItem "D.png"];
     filesRef := burstBacklog;
     isProcessingRef := true;
     processingRef := true;
     inFlight := [Grading None burstRun];
     retries := [] |}.

(** The state right after a backlog was loaded and rendered. *)
Definition loadedState (backlog : list ImageFile) : AppState :=
  {| files := backlog; filesRef := backlog; isProcessingRef := true;
     processingRef := false; inFlight := []; retries := [] |}.

(** ** Further predicates and samples *)

Section ScanPredicates.
Context `{host : Host}.

(** The marker scan passes over the segment at [offset] and resumes at
    [next]: the marker has the high byte 0xFF and the segment is not an
    APP1 segment, or is one without the Exif signature, or is an Exif
    segment whose first IFD holds no date. *)
Definition segmentSkipped (view : DataView) (offset next : Z) : Prop :=
  exists marker len,
    getUint16 view offset false = Some marker /\
    getUint16 view (offset + 2) false = Some len /\
    next = offset + 2 + len /\
    ((marker <> 0xFFE1 /\ Z.land marker 0xFF00 = 0xFF00) \/
     (marker = 0xFFE1 /\
      exists signature,
        getUint32 view (offset + 2 + 2) false = Some signature /\
        signature <> 0x45786966) \/
     (marker = 0xFFE1 /\
      exists littleEndian dirStart entries,
        ExifHeaderAt view (offset + 2) littleEndian dirStart entries /\
        forall j, 0 <= j < entries ->
          entrySkipped view (offset + 2 + 8) dirStart littleEndian j)).

(** The scan that starts at [offset] reaches [target]. *)
Inductive skipsTo (view : DataView) : Z -> Z -> Prop :=
  | skipsTo_here (offset : Z) : skipsTo view offset offset
  | skipsTo_next (offset next target : Z) :
      segmentSkipped view offset next ->
      skipsTo view next target ->
      skipsTo view offset target.
End ScanPredicates.

(** A segment: marker, length (which counts its own two bytes), payload. *)
Definition segmentBytes (marker : Z) (payload : list byte) : list byte :=
  be16 marker ++ be16 (2 + Z.of_nat (length payload)) ++ payload.

Definition exifSegmentBytes (tiff : list byte) : list byte :=
  segmentBytes 0xFFE1 (list_byte_of_string "Exif" ++ [x00; x00] ++ tiff).

(** SOI, a JFIF APP0 segment, an APP1 segment that holds XMP, then the
    Exif segment with one valid date. *)
Definition jfifExifJpeg : list byte :=
  [xff; xd8]
  ++ segmentBytes 0xFFE0 (list_byte_of_string "JFIF" ++ [x00; x01; x01; x00])
  ++ segmentBytes 0xFFE1 (list_byte_of_string "http://ns.adobe.com/xap/1.0/")
  ++ exifSegmentBytes (tiffBlock [(0x9003, "2023:10:25 14:30:00"%string)]).

(** SOI, an Exif segment whose TIFF magic number is 43, then an Exif
    segment with one valid date. *)
Definition badMagicJpeg : list byte :=
  [xff; xd8]
  ++ exifSegmentBytes (list_byte_of_string "MM" ++ be16 43 ++ be32 8 ++ be16 0 ++ be32 0)
  ++ exifSegmentBytes (tiffBlock [(0x9003, "2023:10:25 14:30:00"%string)]).

Section TruncationPredicates.
Context `{host : Host}.

(** Entry [k] cannot be read inside the buffer: its tag lies outside, or
    its tag is 0x9003 and its value offset or one of the 19 bytes of its
    text lies outside. *)
Definition entryTruncated (view : DataView) (tiffStart dirStart : Z)
    (littleEndian : bool) (k : Z) : Prop :=
  getUint16 view (dirStart + 2 + k * 12) littleEndian = None \/
  (getUint16 view (dirStart + 2 + k * 12) littleEndian = Some 0x9003 /\
   (getUint32 view (dirStart + 2 + k * 12 + 8) littleEndian = None \/
    exists valueOffset,
      getUint32 view (dirStart + 2 + k * 12 + 8) littleEndian = Some valueOffset /\
      readChars view (tiffStart + valueOffset) 19 = None)).

(** The TIFF header of the Exif segment whose length field is at [offset]
    cannot be read inside the buffer: the byte order, the magic number,
    the offset of the first IFD or its number of entries lies outside. *)
Definition headerTruncated (view : DataView) (offset : Z) : Prop :=
  getUint16 view (offset + 8) false = None \/
  exists byteOrder,
    getUint16 view (offset + 8) false = Some byteOrder /\
    (getUint16 view (offset + 8 + 2) (byteOrder =? 0x4949) = None \/
     (getUint16 view (offset + 8 + 2) (byteOrder =? 0x4949) = Some 0x002A /\
      (getUint32 view (offset + 8 + 4) (byteOrder =? 0x4949) = None \/
       exists firstIFDOffset,
         getUint32 view (offset + 8 + 4) (byteOrder =? 0x4949) = Some firstIFDOffset /\
         8 <= firstIFDOffset /\
         getUint16 view (offset + 8 + firstIFDOffset) (byteOrder =? 0x4949) = None))).

(** A read that the parser makes in the segment at [offset] falls outside
    the buffer: the marker, the length, the signature of an APP1 segment,
    the TIFF header of an Exif segment, or an entry of its first IFD that
    the walk reaches. *)
Definition truncatedAt (view : DataView) (offset : Z) : Prop :=
  getUint16 view offset false = None \/
  (exists marker,
     getUint16 view offset false = Some marker /\
     Z.land marker 0xFF00 = 0xFF00 /\
     getUint16 view (offset + 2) false = None) \/
  (getUint16 view offset false = Some 0xFFE1 /\
   is_Some (getUint16 view (offset + 2) false) /\
   (getUint32 view (offset + 2 + 2) false = None \/
    (getUint32 view (offset + 2 + 2) false = Some 0x45786966 /\
     (headerTruncated view (offset + 2) \/
      exists littleEndian dirStart entries k,
        ExifHeaderAt view (offset + 2) littleEndian dirStart entries /\
        0 <= k < entries /\
        (forall j, 0 <= j < k ->
           entrySkipped view (offset + 2 + 8) dirStart littleEndian j) /\
        entryTruncated view (offset + 2 + 8) dirStart littleEndian k)))).
End TruncationPredicates.

(** A file longer than 64 KiB whose APP1 segment declares 65535 bytes, so
    that it runs past the slice that is read, with its date at the start
    of the segment. *)
Definition overlongJpeg : list byte :=
  [xff; xd8; xff; xe1] ++ be16 65535
  ++ list_byte_of_string "Exif" ++ [x00; x00]
  ++ tiffBlock [(0x9003, "2023:10:25 14:30:00"%string)]
  ++ replicate (Z.to_nat 70000) x00.



(** Item [i] is the first pending item of the backlog. *)
Definition firstPending (currentFiles : list ImageFile) (i : nat) : Prop :=
  (exists f, currentFiles !! i = Some f /\ status f = pending) /\
  (forall j g, (j < i)%nat -> currentFiles !! j = Some g -> status g <> pending).

Section BurstPredicates.
Context `{host : Host}.

(** The capture times of a run: neighbours are less than two seconds
    apart, every member is less than four seconds from the first, and the
    file object and the time of a member are what reading its item gave. *)
Definition burstTimes (w : World) (run : list Candidate) : Prop :=
  (forall i a b, run !! i = Some a -> run !! S i = Some b ->
     Z.abs (timestamp b - timestamp a) < 2000) /\
  (forall start c, head run = Some start -> c ∈ run ->
     Z.abs (timestamp c - timestamp start) < 4000) /\
  (forall c, c ∈ run -> readTimestamp w (file c) = Done (fileObj c, timestamp c)).

(** Why the look-ahead ended behind [run]: the run is full, the backlog
    ends, or the next item is not pending, cannot be read, or is too far
    from the last or the first member. *)
Definition runStops (w : World) (currentFiles : list ImageFile)
    (nextFileIndex : nat) (run : list Candidate) : Prop :=
  length run = MAX_BATCH_SIZE \/
  (length currentFiles <= nextFileIndex + length run)%nat \/
  exists next,
    currentFiles !! (nextFileIndex + length run)%nat = Some next /\
    (status next <> pending \/
     (exists e, readTimestamp w next = Fail e) \/
     (exists candidateFileObj candidateTimestamp prev start,
        readTimestamp w next = Done (candidateFileObj, candidateTimestamp) /\
        last run = Some prev /\ head run = Some start /\
        ~ (Z.abs (candidateTimestamp - timestamp prev) < 2000 /\
           Z.abs (candidateTimestamp - timestamp start) < 4000))).
End BurstPredicates.

(** Every suspended call of [processQueue] is well formed: one that is
    detecting points at a pending item of its snapshot, one that is
    grading holds at most [MAX_BATCH_SIZE] candidates. *)
Definition boundedFlight (s : AppState) : Prop :=
  forall a, a ∈ inFlight s ->
    match a with
    | Detecting _ currentFiles nextFileIndex =>
        exists f, currentFiles !! nextFileIndex = Some f /\ status f = pending
    | Grading _ batchCandidates => (length batchCandidates <= MAX_BATCH_SIZE)%nat
    end.

(** Every call to a collaborator of a pass settles: it returns or fails. *)
Definition settles (w : World) : Prop :=
  (forall h, getFile w h <> Hang) /\
  (forall f, resizeImage w f <> Hang) /\
  (forall data mime, evaluateImage w data mime <> Hang) /\
  (forall preparedImages, evaluateImageGroup w preparedImages <> Hang) /\
  (forall dir fileName content, saveXMPInDirectory w dir fileName content <> Hang).

(** The handlers that leave the set of items alone: the scheduler, the
    render effect and the pause button. *)
Definition gradingEvent (ev : Event) : Prop :=
  match ev with
  | Tick _ | Detected _ _ | Completed _ _ | Render | SetIsProcessing _ => True
  | _ => False
  end.

(** What identifies an item and what the thumbnail grid shows of it
    whatever its grade. *)
Definition identity (f : ImageFile) : string * FileSystemFileHandle * string * string :=
  (id f, handle f, name f, imageType f).

(** The sample world with a resizer that cannot decode the files last
    modified at [broken]. *)
Definition brokenResizeWorld (disk : gmap string File)
    (groupResponse : gmap string Evaluation) (broken : Z) : World :=
  {| getFile := getFile (sampleWorld disk groupResponse ∅);
     resizeImage := fun f =>
       if lastModified f =? broken
       then Fail (Thrown (Some "The source image could not be decoded."))
       else Done {| base64 := "AAAA"; mimeType := "image/jpeg" |};
     evaluateImage := evaluateImage (sampleWorld disk groupResponse ∅);
     evaluateImageGroup := evaluateImageGroup (sampleWorld disk groupResponse ∅);
     generateXMPContent := generateXMPContent (sampleWorld disk groupResponse ∅);
     saveXMPInDirectory := saveXMPInDirectory (sampleWorld disk groupResponse ∅);
     parseXMP := parseXMP (sampleWorld disk groupResponse ∅) |}.

(** An item graded with [sampleEvaluation] in a folder opened without a
    directory handle, and the state a pass over the sample backlog ends
    in when it leaves [backlog]. *)
Definition gradedItem (fileName : string) : ImageFile :=
  withDone sampleEvaluation None (pendingItem fileName).

Definition settledState (backlog : list ImageFile) : AppState :=
  {| files := backlog; filesRef := burstBacklog; isProcessingRef := true;
     processingRef := false; inFlight := []; retries := [500] |}.

Section SidecarPredicates.
Context `{host : Host}.

(** The entries of a listing that ingestion takes for sidecars. *)
Definition isSidecarEntry (entry : Entry) : bool :=
  match entryKind entry with
  | kindFile => isXmpName (entryName entry)
  | kindDirectory => false
  end.

Definition sidecarNames (listing : list Entry) : list string :=
  entryName <$> filter (fun entry => isSidecarEntry entry = true) listing.

(** How ingestion builds an item from the sidecars [xmpHandles]: the
    sidecar is looked up under the lower-cased base name of the image and
    stays referenced whatever it holds; one that parses makes the item
    [done] with what was parsed, otherwise the item is [pending] and has
    no evaluation. *)
Definition ingested (w : World) (xmpHandles : gmap string FileSystemFileHandle)
    (f : ImageFile) : Prop :=
  name f = id f /\ handle f = id f /\ imageType f = "image"%string /\
  errorMessage f = None /\
  xmpHandle f = xmpHandles !! toLowerCase (baseNameOf (name f)) /\
  match xmpHandle f with
  | Some h =>
      exists parsed,
        parseXMP w h = Done parsed /\ evaluation f = parsed /\
        status f = match parsed with Some _ => done | None => pending end
  | None => evaluation f = None /\ status f = pending
  end.

End SidecarPredicates.

(** A directory with an image, its sidecar under a name that differs in
    case, and a second image without sidecar. *)
Definition sidecarListing : list Entry :=
  [ {| entryKind := kindFile; entryName := "IMG_1.JPG" |};
    {| entryKind := kindFile; entryName := "img_1.xmp" |};
    {| entryKind := kindFile; entryName := "IMG_2.JPG" |};
    {| entryKind := kindDirectory; entryName := "_Rejected" |} ].

(** A world whose sidecars cannot be read. *)
Definition brokenSidecarWorld : World :=
  {| getFile := getFile (sampleWorld ∅ ∅ ∅);
     resizeImage := resizeImage (sampleWorld ∅ ∅ ∅);
     evaluateImage := evaluateImage (sampleWorld ∅ ∅ ∅);
     evaluateImageGroup := evaluateImageGroup (sampleWorld ∅ ∅ ∅);
     generateXMPContent := generateXMPContent (sampleWorld ∅ ∅ ∅);
     saveXMPInDirectory := saveXMPInDirectory (sampleWorld ∅ ∅ ∅);
     parseXMP := fun _ => Fail (Thrown (Some "NotReadableError")) |}.

(** ** The other handlers and the derived values of App.tsx *)


(** [f.evaluation && !f.evaluation.isWorthKeeping]. *)
Definition isReject (f : ImageFile) : bool :=
  match evaluation f with
  | Some ev => negb (isWorthKeeping ev)
  | None => false
  end.

(** The [for] loop of [handleArchiveRejects].  The state is [updatedFiles]
    and, as the effect on the directory, the handles moved so far; the
    result pairs these handles with the way the loop ends. *)
Fixpoint archiveLoop
    (moveFileToSubfolder : FileSystemDirectoryHandle -> FileSystemFileHandle ->
                           string -> option FileSystemFileHandle -> Async unit)
    (dirHandle : FileSystemDirectoryHandle) (rejects : list ImageFile)
    (updatedFiles : list ImageFile) (moved : list FileSystemFileHandle)
    : list FileSystemFileHandle * Async (list ImageFile) :=
  match rejects with
  | [] => (moved, Done updatedFiles)
  | file :: rest =>
      match moveFileToSubfolder dirHandle (handle file) "_Rejected" (xmpHandle file) with
      | Fail e => (moved, Fail e)
      | Hang => (moved, Hang)
      | Done _ =>
          archiveLoop moveFileToSubfolder dirHandle rest
            (match findIndexId (id file) updatedFiles with
             | Some idx => delete idx updatedFiles
             | None => updatedFiles
             end)
            (moved ++ [handle file])
      end
  end.

(** What [handleArchiveRejects] leaves behind. *)
Record Archived := {
  movedHandles : list FileSystemFileHandle;  (* moved into _Rejected *)
  nextFiles : option (list ImageFile);       (* argument of setFiles, if called *)
  nextIsProcessing : option bool;            (* argument of setIsProcessing, if called *)
  alerted : bool                             (* the alert of the catch block *)
}.

(** [handleArchiveRejects]; [confirmed] is the answer to the confirm
    dialog.  [None]: a move never returned. *)
Definition handleArchiveRejects
    (moveFileToSubfolder : FileSystemDirectoryHandle -> FileSystemFileHandle ->
                           string -> option FileSystemFileHandle -> Async unit)
    (dirHandle : option FileSystemDirectoryHandle) (confirmed : bool)
    (files : list ImageFile) : option Archived :=
  match dirHandle with
  | None =>
      Some {| movedHandles := []; nextFiles := None;
              nextIsProcessing := None; alerted := false |}
  | Some dir =>
      if negb confirmed then
        Some {| movedHandles := []; nextFiles := None;
                nextIsProcessing := None; alerted := false |}
      else
        let rejects := filter (fun f => isReject f = true) files in
        let updatedFiles := files in
        match archiveLoop moveFileToSubfolder dir rejects updatedFiles [] with
        | (moved, Done updatedFiles') =>
            Some {| movedHandles := moved; nextFiles := Some updatedFiles';
                    nextIsProcessing := Some false; alerted := false |}
        | (moved, Fail _) =>
            Some {| movedHandles := moved; nextFiles := None;
                    nextIsProcessing := Some false; alerted := true |}
        | (_, Hang) => None
        end
  end.

Inductive FilterType : Type := filter_all | filter_keep | filter_reject.

(** [files.filter(f => ...)] under the filter chosen in the toolbar. *)
Definition filteredFiles (filter : FilterType) (files : list ImageFile)
    : list ImageFile :=
  base.filter
    (fun f =>
       match filter with
       | filter_all => true
       | filter_keep =>          (* f.evaluation?.isWorthKeeping === true *)
           match evaluation f with
           | Some ev => isWorthKeeping ev
           | None => false
           end
       | filter_reject =>        (* f.evaluation?.isWorthKeeping === false *)
           match evaluation f with
           | Some ev => negb (isWorthKeeping ev)
           | None => false
           end
       end = true) files.

(** [files.filter(f => f.status === 'pending').length]. *)
Definition pendingCount (files : list ImageFile) : nat :=
  length (filter (fun f => status f = pending) files).

(** [files.filter(f => f.status === 'processing').length]. *)
Definition processingCount (files : list ImageFile) : nat :=
  length (filter (fun f => status f = processing) files).

(** A graded backlog with two rejects, and a mover that fails on the
    handles in [locked]. *)
Definition rejectEvaluation : Evaluation :=
  {| isWorthKeeping := false; reasoning := "blurred" |}.

Definition rejectedItem (fileName : string) : ImageFile :=
  withDone rejectEvaluation (Some (fileName ++ ".xmp")%string) (pendingItem fileName).

Definition gradedBacklog : list ImageFile :=
  [gradedItem "A.png"; rejectedItem "B.png"; rejectedItem "C.png"; pendingItem "D.png"].

Definition sampleMove (locked : gset string)
    : FileSystemDirectoryHandle -> FileSystemFileHandle -> string ->
      option FileSystemFileHandle -> Async unit :=
  fun _ fileHandle _ _ =>
    if bool_decide (fileHandle ∈ locked)
    then Fail (Thrown (Some "NoModificationAllowedError"))
    else Done tt.

(** A backlog whose first item is graded already: the first pending item
    is B.png, at index 1. *)
Definition resumedBacklog : list ImageFile :=
  [gradedItem "A.png"; pendingItem "B.png"; pendingItem "C.png"; pendingItem "D.png"].









(** * Properties *)

(** ** Timestamp extractor *)

Section ExtractorFacts.
Context `{host : Host}.

Lemma getUint8_Some view off b :
  getUint8 view off = Some b ->
  0 <= off < byteLength view /\ 0 <= b < 256.
Proof.
  unfold getUint8.
  destruct (off <? 0) eqn:E1; [discriminate|].
  destruct (byteLength view <=? off) eqn:E2; [discriminate|].
  simpl. intros Hb. split; [lia|].
  destruct (view !! Z.to_nat off) as [x|]; [|discriminate].
  injection Hb as <-. unfold byteValue.
  pose proof (Byte.to_N_bounded x). lia.
Qed.

Lemma getUint16_nonneg view off le v :
  getUint16 view off le = Some v -> 0 <= v.
Proof.
  unfold getUint16.
  destruct (getUint8 view off) as [b0|] eqn:E0; [|discriminate].
  destruct (getUint8 view (off + 1)) as [b1|] eqn:E1; [|discriminate].
  simpl. intros Hv. injection Hv as <-.
  apply getUint8_Some in E0 as [_ ?]. apply getUint8_Some in E1 as [_ ?].
  destruct le; apply Z.lor_nonneg; split; try apply Z.shiftl_nonneg; lia.
Qed.

Lemma getUint16_in_range view off le v :
  getUint16 view off le = Some v -> 0 <= off /\ off + 1 < byteLength view.
Proof.
  unfold getUint16.
  destruct (getUint8 view off) as [b0|] eqn:E0; [|discriminate].
  destruct (getUint8 view (off + 1)) as [b1|] eqn:E1; [|discriminate].
  intros _. apply getUint8_Some in E0 as [? _].
  apply getUint8_Some in E1 as [? _]. lia.
Qed.

(** Every iteration of the marker scan moves the offset forward, so the
    scan ends within the fuel that [parseExif] gives it. *)
Lemma scanMarkers_terminates fuel view offset :
  (0 < fuel)%nat ->
  byteLength view - offset < Z.of_nat fuel ->
  is_Some (scanMarkers fuel view offset).
Proof.
  revert offset. induction fuel as [|fuel IH]; intros offset Hpos Hfuel; [lia|].
  simpl. destruct (offset <? byteLength view) eqn:Hlt; simpl; [|eauto].
  apply Z.ltb_lt in Hlt.
  assert (Hrec : forall d, 0 <= d -> is_Some (scanMarkers fuel view (offset + 2 + d))).
  { intros d Hd. apply IH; lia. }
  destruct (getUint16 view offset false) as [marker|]; [|eauto].
  destruct (marker =? 65505).
  - destruct (getUint16 view (offset + 2) false) as [app1Length|] eqn:Hlen; [|eauto].
    apply getUint16_nonneg in Hlen.
    destruct (getUint32 view (offset + 2 + 2) false) as [signature|]; [|eauto].
    destruct (if signature =? 1165519206 then exifSegment view (offset + 2) else Next tt);
      eauto.
  - destruct (negb (Z.land marker 65280 =? 65280)); [eauto|].
    destruct (getUint16 view (offset + 2) false) as [len|] eqn:Hlen; [|eauto].
    apply getUint16_nonneg in Hlen. auto.
Qed.

Lemma parseExif_total view : is_Some (parseExif view).
Proof.
  unfold parseExif.
  destruct (getUint16 view 0 false) as [soi|]; [|eauto].
  destruct (negb (soi =? 65496)); [eauto|].
  apply scanMarkers_terminates; [lia|]. unfold byteLength. lia.
Qed.

Lemma getDateTaken_cases file :
  getDateTaken file = Fulfilled (lastModified file) \/
  exists bytes t,
    isJpegType (type file) = true /\ content file = Some bytes /\
    parseExif (slice64K bytes) = Some (ResolveWith t) /\
    getDateTaken file = Fulfilled t.
Proof.
  unfold getDateTaken.
  destruct (isJpegType (type file)) eqn:Hty; simpl; [|by left].
  destruct (content file) as [bytes|] eqn:Hc; [|by left].
  destruct (parseExif_total (slice64K bytes)) as [r Hr].
  rewrite Hr. destruct r as [[]|t| |]; try by left.
  right. exists bytes, t. auto.
Qed.
Lemma getDateTaken_parse file bytes :
  isJpegType (type file) = true ->
  content file = Some bytes ->
  getDateTaken file =
    match parseExif (slice64K bytes) with
    | Some (ResolveWith t) => Fulfilled t
    | Some _ => Fulfilled (lastModified file)
    | None => Pending
    end.
Proof.
  intros Hty Hc. unfold getDateTaken. rewrite Hty, Hc. simpl.
  by destruct (parseExif (slice64K bytes)) as [[[]|t| |]|].
Qed.

End ExtractorFacts.

Section IfdFacts.
Context `{host : Host}.

Lemma dateTimeOriginal_value view tiffStart dirStart le i parsed :
  entryValue view tiffStart dirStart le i parsed ->
  dateTimeOriginal view tiffStart (dirStart + 2 + i * 12) le =
    match parsed with Some t => ResolveWith t | None => Next tt end.
Proof.
  intros (valueOffset & dateString & Hoff & Hstr & Hdate).
  unfold dateTimeOriginal. rewrite Hoff. simpl. rewrite Hstr. simpl.
  by rewrite Hdate.
Qed.

Lemma dateTimeOriginal_inv view tiffStart dirStart le i t :
  dateTimeOriginal view tiffStart (dirStart + 2 + i * 12) le = ResolveWith t ->
  entryValue view tiffStart dirStart le i (Some t).
Proof.
  unfold dateTimeOriginal, entryValue.
  destruct (getUint32 _ _ _) as [valueOffset|]; [|discriminate]. simpl.
  destruct (readChars _ _ _) as [dateString|] eqn:Hs; [|discriminate]. simpl.
  destruct (Date_getTime _) as [t'|] eqn:Hd; [|discriminate].
  intros [= <-]. exists valueOffset, dateString. auto.
Qed.

Lemma walkIFD_skip view tiffStart dirStart le n i :
  entrySkipped view tiffStart dirStart le i ->
  walkIFD view tiffStart dirStart le (S n) i =
  walkIFD view tiffStart dirStart le n (i + 1).
Proof.
  intros (tag & Htag & Hskip). simpl. rewrite Htag. simpl.
  destruct (tag =? 36867) eqn:E; [|done].
  apply Z.eqb_eq in E. destruct Hskip as [?|Hval]; [done|].
  by rewrite (dateTimeOriginal_value _ _ _ _ _ _ Hval).
Qed.

(** The walk ends at the first 0x9003 entry whose value is a date. *)
Lemma walkIFD_first_valid view tiffStart dirStart le (k : nat) :
  forall (n : nat) (i t : Z),
    (k < n)%nat ->
    (forall j, i <= j < i + Z.of_nat k -> entrySkipped view tiffStart dirStart le j) ->
    DateEntryAt view tiffStart dirStart le (i + Z.of_nat k) t ->
    walkIFD view tiffStart dirStart le n i = ResolveWith t.
Proof.
  induction k as [|k IH]; intros n i t Hk Hskip Hdate.
  - destruct n as [|n]; [lia|]. replace (i + Z.of_nat 0) with i in Hdate by lia.
    destruct Hdate as [Htag Hval]. simpl. rewrite Htag. simpl.
    by rewrite (dateTimeOriginal_value _ _ _ _ _ _ Hval).
  - destruct n as [|n]; [lia|]. rewrite walkIFD_skip by (apply Hskip; lia).
    apply IH; [lia| |].
    + intros j Hj. apply Hskip. lia.
    + replace (i + 1 + Z.of_nat k) with (i + Z.of_nat (S k)) by lia. done.
Qed.

(** A walk over entries that hold no date completes normally. *)
Lemma walkIFD_none view tiffStart dirStart le (n : nat) :
  forall i : Z,
    (forall j, i <= j < i + Z.of_nat n -> entrySkipped view tiffStart dirStart le j) ->
    walkIFD view tiffStart dirStart le n i = Next tt.
Proof.
  induction n as [|n IH]; intros i Hskip; [done|].
  rewrite walkIFD_skip by (apply Hskip; lia).
  apply IH. intros j Hj. apply Hskip. lia.
Qed.

Lemma walkIFD_sound view tiffStart dirStart le (n : nat) :
  forall (i t : Z),
    walkIFD view tiffStart dirStart le n i = ResolveWith t ->
    exists j, i <= j < i + Z.of_nat n /\ DateEntryAt view tiffStart dirStart le j t.
Proof.
  induction n as [|n IH]; intros i t; [discriminate|]. simpl.
  destruct (getUint16 view (dirStart + 2 + i * 12) le) as [tag|] eqn:Htag;
    [|discriminate]. simpl.
  destruct (tag =? 36867) eqn:E.
  - apply Z.eqb_eq in E. subst tag.
    destruct (dateTimeOriginal view tiffStart (dirStart + 2 + i * 12) le)
      as [[]|t'| |] eqn:Hd; simpl; try discriminate.
    + intros H. apply IH in H as (j & Hj & Hdate). exists j. split; [lia|done].
    + intros [= <-]. exists i. split; [lia|]. split; [done|].
      by apply dateTimeOriginal_inv.
  - simpl. intros H. apply IH in H as (j & Hj & Hdate). exists j. split; [lia|done].
Qed.

Lemma exifSegment_header view offset le dirStart entries :
  ExifHeaderAt view offset le dirStart entries ->
  exifSegment view offset =
  walkIFD view (offset + 8) dirStart le (Z.to_nat entries) 0.
Proof.
  intros (byteOrder & firstIFDOffset & _ & Hbo & -> & Hmagic & Hifd & Hge & -> & Hn).
  unfold exifSegment. rewrite Hbo. simpl. rewrite Hmagic. simpl.
  rewrite Hifd. simpl.
  destruct (firstIFDOffset <? 8) eqn:E; [apply Z.ltb_lt in E; lia|].
  by rewrite Hn.
Qed.

Lemma exifSegment_sound view offset t :
  getUint32 view (offset + 2) false = Some 0x45786966 ->
  exifSegment view offset = ResolveWith t ->
  DateTimeOriginalAt view t.
Proof.
  intros Hsig. unfold exifSegment.
  destruct (getUint16 view (offset + 8) false) as [byteOrder|] eqn:Hbo;
    [|discriminate]. simpl.
  destruct (getUint16 view (offset + 8 + 2) (byteOrder =? 18761)) as [magic|] eqn:Hm;
    [|discriminate]. simpl.
  destruct (magic =? 42) eqn:Hmagic; [|discriminate]. simpl.
  apply Z.eqb_eq in Hmagic. subst magic.
  destruct (getUint32 view (offset + 8 + 4) (byteOrder =? 18761))
    as [firstIFDOffset|] eqn:Hifd; [|discriminate]. simpl.
  destruct (firstIFDOffset <? 8) eqn:Hge; [discriminate|].
  apply Z.ltb_ge in Hge.
  destruct (getUint16 view (offset + 8 + firstIFDOffset) (byteOrder =? 18761))
    as [entries|] eqn:Hn; [|discriminate]. simpl.
  intros Hwalk. apply walkIFD_sound in Hwalk as (j & Hj & Hdate).
  pose proof (getUint16_nonneg _ _ _ _ Hn).
  exists offset, (byteOrder =? 18761), (offset + 8 + firstIFDOffset), entries, j.
  split; [|split; [lia|done]].
  exists byteOrder, firstIFDOffset. repeat split; auto.
Qed.

Lemma scanMarkers_sound fuel view :
  forall offset t,
    scanMarkers fuel view offset = Some (ResolveWith t) ->
    DateTimeOriginalAt view t.
Proof.
  induction fuel as [|fuel IH]; intros offset t; [discriminate|]. simpl.
  destruct (negb (offset <? byteLength view)); [discriminate|].
  destruct (getUint16 view offset false) as [marker|]; [|discriminate].
  destruct (marker =? 65505).
  - destruct (getUint16 view (offset + 2) false) as [app1Length|]; [|discriminate].
    destruct (getUint32 view (offset + 2 + 2) false) as [signature|] eqn:Hsig;
      [|discriminate].
    destruct (signature =? 1165519206) eqn:E.
    + apply Z.eqb_eq in E. subst signature.
      destruct (exifSegment view (offset + 2)) as [[]|t'| |] eqn:Hseg;
        try discriminate.
      * apply IH.
      * intros [= <-]. by apply (exifSegment_sound view (offset + 2)).
    + apply IH.
  - destruct (negb (Z.land marker 65280 =? 65280)); [discriminate|].
    destruct (getUint16 view (offset + 2) false); [apply IH|discriminate].
Qed.

Lemma parseExif_sound view t :
  parseExif view = Some (ResolveWith t) -> DateTimeOriginalAt view t.
Proof.
  unfold parseExif.
  destruct (getUint16 view 0 false) as [soi|]; [|discriminate].
  destruct (negb (soi =? 65496)); [discriminate|].
  apply scanMarkers_sound.
Qed.
End IfdFacts.

Section ScanLemmas.
Context `{host : Host}.

(** Fuel beyond what the scan needs does not change its result. *)
Lemma scanMarkers_fuel fuel1 :
  forall fuel2 view offset,
    (0 < fuel1)%nat -> byteLength view - offset < Z.of_nat fuel1 ->
    (0 < fuel2)%nat -> byteLength view - offset < Z.of_nat fuel2 ->
    scanMarkers fuel1 view offset = scanMarkers fuel2 view offset.
Proof.
  induction fuel1 as [|fuel1 IH]; intros fuel2 view offset H1 H1' H2 H2'; [lia|].
  destruct fuel2 as [|fuel2]; [lia|]. simpl.
  destruct (offset <? byteLength view) eqn:Hlt; simpl; [|done].
  apply Z.ltb_lt in Hlt.
  assert (Hrec : forall d, 0 <= d ->
            scanMarkers fuel1 view (offset + 2 + d)
            = scanMarkers fuel2 view (offset + 2 + d)).
  { intros d Hd. apply IH; lia. }
  destruct (getUint16 view offset false) as [marker|]; [|done].
  destruct (marker =? 65505).
  - destruct (getUint16 view (offset + 2) false) as [app1Length|] eqn:Hlen; [|done].
    apply getUint16_nonneg in Hlen.
    destruct (getUint32 view (offset + 2 + 2) false) as [signature|]; [|done].
    destruct (if signature =? 1165519206 then exifSegment view (offset + 2) else Next tt);
      auto.
  - destruct (negb (Z.land marker 65280 =? 65280)); [done|].
    destruct (getUint16 view (offset + 2) false) as [len|] eqn:Hlen; [|done].
    apply getUint16_nonneg in Hlen. auto.
Qed.

(** The scan from [offset] with the fuel of [parseExif]. *)
Lemma scan_skipped view offset next :
  0 <= offset ->
  segmentSkipped view offset next ->
  0 <= next /\
  scanMarkers (S (length view)) view offset
  = scanMarkers (S (length view)) view next.
Proof.
  intros Hpos (marker & len & Hm & Hlen & -> & Hwhy).
  pose proof (getUint16_in_range _ _ _ _ Hm) as [_ Hin].
  pose proof (getUint16_nonneg _ _ _ _ Hlen) as Hlen0.
  split; [lia|].
  assert (Hfuel : scanMarkers (length view) view (offset + 2 + len)
                  = scanMarkers (S (length view)) view (offset + 2 + len)).
  { unfold byteLength in Hin. apply scanMarkers_fuel; unfold byteLength; lia. }
  simpl. destruct (offset <? byteLength view) eqn:Hlt;
    [|apply Z.ltb_ge in Hlt; lia].
  simpl. rewrite Hm.
  destruct Hwhy as [[Hne Hhigh]|[[-> (signature & Hsig & Hns)]
                               |[-> (le & dirStart & entries & Hhdr & Hskip)]]].
  - destruct (marker =? 65505) eqn:E; [apply Z.eqb_eq in E; done|].
    rewrite Hhigh. simpl. by rewrite Hlen.
  - simpl. rewrite Hlen, Hsig.
    destruct (signature =? 1165519206) eqn:E; [apply Z.eqb_eq in E; done|].
    done.
  - simpl. rewrite Hlen.
    assert (Hsig : getUint32 view (offset + 2 + 2) false = Some 1165519206).
    { by destruct Hhdr as (? & ? & ? & _). }
    rewrite Hsig. simpl. rewrite (exifSegment_header _ _ _ _ _ Hhdr).
    rewrite walkIFD_none; [done|].
    intros j Hj. apply Hskip.
    destruct Hhdr as (? & ? & _ & _ & _ & _ & _ & _ & _ & Hn).
    apply getUint16_nonneg in Hn. lia.
Qed.

Lemma scan_skipsTo view offset target :
  skipsTo view offset target ->
  0 <= offset ->
  0 <= target /\
  scanMarkers (S (length view)) view offset
  = scanMarkers (S (length view)) view target.
Proof.
  induction 1 as [offset|offset next target Hseg _ IH]; intros Hpos; [done|].
  destruct (scan_skipped _ _ _ Hpos Hseg) as [Hnext ->]. by apply IH.
Qed.

(** The scan at an Exif segment whose header passes the checks. *)
Lemma scan_exif view offset app1Length le dirStart entries :
  getUint16 view offset false = Some 0xFFE1 ->
  getUint16 view (offset + 2) false = Some app1Length ->
  ExifHeaderAt view (offset + 2) le dirStart entries ->
  scanMarkers (S (length view)) view offset =
    match walkIFD view (offset + 2 + 8) dirStart le (Z.to_nat entries) 0 with
    | Next _ => scanMarkers (length view) view (offset + 2 + app1Length)
    | r => Some r
    end.
Proof.
  intros Hm Hlen Hhdr.
  pose proof (getUint16_in_range _ _ _ _ Hm) as [_ Hin].
  assert (Hsig : getUint32 view (offset + 2 + 2) false = Some 1165519206).
  { by destruct Hhdr as (? & ? & ? & _). }
  simpl. destruct (offset <? byteLength view) eqn:Hlt;
    [|apply Z.ltb_ge in Hlt; lia].
  simpl. rewrite Hm. simpl. rewrite Hlen, Hsig. simpl.
  by rewrite (exifSegment_header _ _ _ _ _ Hhdr).
Qed.

End ScanLemmas.

Section ExtractorLemmas.
Context `{host : Host}.

(** A byte pair whose high byte is not 0xFF ends the scan with the
    fallback. *)
Lemma scanMarkers_invalid_marker fuel view offset marker :
  offset < byteLength view ->
  getUint16 view offset false = Some marker ->
  Z.land marker 0xFF00 <> 0xFF00 ->
  scanMarkers (S fuel) view offset = Some ResolveFallback.
Proof.
  intros Hlt Hm Hhigh. simpl.
  destruct (offset <? byteLength view) eqn:E; [|apply Z.ltb_ge in E; lia].
  simpl. rewrite Hm.
  destruct (marker =? 65505) eqn:E1.
  { apply Z.eqb_eq in E1. subst marker. by destruct Hhigh. }
  destruct (Z.land marker 65280 =? 65280) eqn:E2; [|done].
  apply Z.eqb_eq in E2. done.
Qed.

Lemma parseExif_invalid_marker view marker :
  getUint16 view 0 false = Some 0xFFD8 ->
  getUint16 view 2 false = Some marker ->
  Z.land marker 0xFF00 <> 0xFF00 ->
  parseExif view = Some ResolveFallback.
Proof.
  intros Hsoi Hm Hhigh. unfold parseExif. rewrite Hsoi. simpl.
  apply (scanMarkers_invalid_marker _ _ _ marker); [|done|done].
  apply getUint16_in_range in Hm. lia.
Qed.

(** [formatDate] rewrites the two colons of a leading [YYYY:MM:DD]. *)
Lemma formatDate_normalises y1 y2 y3 y4 m1 m2 d1 d2 rest :
  isDigit y1 && isDigit y2 && isDigit y3 && isDigit y4
  && isDigit m1 && isDigit m2 && isDigit d1 && isDigit d2 = true ->
  formatDate (String y1 (String y2 (String y3 (String y4 (String ":"
    (String m1 (String m2 (String ":" (String d1 (String d2 rest)))))))))) =
  String y1 (String y2 (String y3 (String y4 (String "/"
    (String m1 (String m2 (String "/" (String d1 (String d2 rest))))))))).
Proof.
  intros H. do 7 (apply andb_prop in H as [H ?]).
  unfold formatDate. replace (isColon ":") with true by reflexivity.
  repeat match goal with Hd : isDigit _ = true |- _ => rewrite Hd; clear Hd end.
  reflexivity.
Qed.

(** The parser on a buffer whose first segment is an Exif segment. *)
Lemma parseExif_first_segment view app1Length le dirStart entries :
  getUint16 view 0 false = Some 0xFFD8 ->
  getUint16 view 2 false = Some 0xFFE1 ->
  getUint16 view 4 false = Some app1Length ->
  ExifHeaderAt view 4 le dirStart entries ->
  parseExif view =
    match walkIFD view 12 dirStart le (Z.to_nat entries) 0 with
    | Next _ => scanMarkers (length view) view (4 + app1Length)
    | r => Some r
    end.
Proof.
  intros Hsoi Hm Hlen Hhdr.
  assert (Hlt : 2 < byteLength view).
  { apply getUint16_in_range in Hlen. lia. }
  assert (Hsig : getUint32 view 6 false = Some 1165519206).
  { by destruct Hhdr as (? & ? & ? & _). }
  unfold parseExif. rewrite Hsoi. simpl.
  destruct (2 <? byteLength view) eqn:E; [|apply Z.ltb_ge in E; lia].
  simpl. rewrite Hm. simpl. change (2 + 2) with 4. rewrite Hlen.
  change (4 + 2) with 6. rewrite Hsig.
  simpl. by rewrite (exifSegment_header _ _ _ _ _ Hhdr).
Qed.

Lemma scanMarkers_at_end fuel view offset :
  (0 < fuel)%nat -> byteLength view <= offset ->
  scanMarkers fuel view offset = Some ResolveFallback.
Proof.
  intros Hf Hend. destruct fuel as [|fuel]; [lia|]. simpl.
  destruct (offset <? byteLength view) eqn:E; [apply Z.ltb_lt in E; lia|done].
Qed.

End ExtractorLemmas.

Section TruncationLemmas.
Context `{host : Host}.

(** The walk raises at the first entry that cannot be read. *)
Lemma walkIFD_truncated view tiffStart dirStart le (k : nat) :
  forall (n : nat) (i : Z),
    (k < n)%nat ->
    (forall j, i <= j < i + Z.of_nat k -> entrySkipped view tiffStart dirStart le j) ->
    entryTruncated view tiffStart dirStart le (i + Z.of_nat k) ->
    walkIFD view tiffStart dirStart le n i = Raise.
Proof.
  induction k as [|k IH]; intros n i Hk Hskip Htrunc.
  - destruct n as [|n]; [lia|]. replace (i + Z.of_nat 0) with i in Htrunc by lia.
    simpl. destruct Htrunc as [Htag|[Htag Hval]]; rewrite Htag; [done|]. simpl.
    unfold dateTimeOriginal.
    destruct Hval as [Hoff|(valueOffset & Hoff & Hstr)]; rewrite Hoff; [done|].
    simpl. by rewrite Hstr.
  - destruct n as [|n]; [lia|]. rewrite walkIFD_skip by (apply Hskip; lia).
    apply IH; [lia| |].
    + intros j Hj. apply Hskip. lia.
    + replace (i + 1 + Z.of_nat k) with (i + Z.of_nat (S k)) by lia. done.
Qed.

Lemma exifSegment_truncated view offset :
  headerTruncated view offset -> exifSegment view offset = Raise.
Proof.
  unfold exifSegment.
  intros [Hbo|(byteOrder & Hbo & Hrest)]; rewrite Hbo; [done|]. simpl.
  destruct Hrest as [Hmagic|(Hmagic & Hrest)]; rewrite Hmagic; [done|]. simpl.
  destruct Hrest as [Hifd|(firstIFDOffset & Hifd & Hge & Hn)]; rewrite Hifd; [done|].
  simpl. destruct (firstIFDOffset <? 8) eqn:E; [apply Z.ltb_lt in E; lia|].
  by rewrite Hn.
Qed.

(** The scan raises at a segment in which a read falls outside the
    buffer. *)
Lemma scanMarkers_truncated fuel view offset :
  offset < byteLength view ->
  truncatedAt view offset ->
  scanMarkers (S fuel) view offset = Some Raise.
Proof.
  intros Hlt Htrunc. simpl.
  destruct (offset <? byteLength view) eqn:E; [|apply Z.ltb_ge in E; lia].
  simpl.
  destruct Htrunc as [Hm|[(marker & Hm & Hhigh & Hlen)|(Hm & [len Hlen] & Hrest)]];
    rewrite Hm; [done| |].
  - destruct (marker =? 65505); [by rewrite Hlen|].
    rewrite Hhigh. simpl. by rewrite Hlen.
  - simpl. rewrite Hlen.
    destruct Hrest as [Hsig|(Hsig & Hrest)]; rewrite Hsig; [done|]. simpl.
    destruct Hrest as [Hhdr|(le & dirStart & entries & k & Hhdr & Hk & Hskip & Hentry)].
    + by rewrite exifSegment_truncated.
    + rewrite (exifSegment_header _ _ _ _ _ Hhdr).
      rewrite (walkIFD_truncated view (offset + 2 + 8) dirStart le (Z.to_nat k)
                 (Z.to_nat entries) 0); [done|lia| |].
      * intros j Hj. apply Hskip. lia.
      * replace (0 + Z.of_nat (Z.to_nat k)) with k by lia. done.
Qed.



(** The parser from the segment that the scan reaches. *)
Lemma parseExif_skipsTo view offset :
  getUint16 view 0 false = Some 0xFFD8 ->
  skipsTo view 2 offset ->
  0 <= offset /\ parseExif view = scanMarkers (S (length view)) view offset.
Proof.
  intros Hsoi Hskips. unfold parseExif. rewrite Hsoi. simpl negb. cbn iota.
  destruct (scan_skipsTo _ _ _ Hskips) as [Hpos ->]; [lia|done].
Qed.

Lemma length_slice64K bytes : byteLength (slice64K bytes) <= 65536.
Proof.
  unfold byteLength, slice64K. rewrite length_take.
  pose proof (Nat.le_min_l (Z.to_nat 65536) (length bytes)) as Hmin.
  apply Nat2Z.inj_le in Hmin. rewrite Z2Nat.id in Hmin; [exact Hmin|done].
Qed.
End TruncationLemmas.

Section ExtractorClaims.
Context `{host : Host}.

(** C5, amended.  [getDateTaken] never rejects and never stays unsettled:
    it is fulfilled for every file.  A file whose type is not JPEG, a file
    whose read fails, a buffer that does not start with SOI, a scan that
    meets a byte pair that is no marker, that leaves the buffer, or that
    has to read outside the first 64 KiB -- a marker, a length, a
    signature, a TIFF header, an entry or the text of a date cut off by
    the slice -- give the last-modified time; a result other than the
    last-modified time is a date read entirely inside the buffer.  The
    length that an APP1 segment declares is not compared with the buffer. *)
Theorem getDateTaken_never_fails (file : File) :
  (exists t, getDateTaken file = Fulfilled t) /\
  (isJpegType (type file) = false ->
     getDateTaken file = Fulfilled (lastModified file)) /\
  (content file = None ->
     getDateTaken file = Fulfilled (lastModified file)) /\
  (forall bytes view,
     content file = Some bytes ->
     view = slice64K bytes ->
     byteLength view <= 65536 /\
     (getUint16 view 0 false <> Some 0xFFD8 ->
        getDateTaken file = Fulfilled (lastModified file)) /\
     (forall offset,
        getUint16 view 0 false = Some 0xFFD8 ->
        skipsTo view 2 offset ->
        (byteLength view <= offset ->
           getDateTaken file = Fulfilled (lastModified file)) /\
        (forall marker,
           getUint16 view offset false = Some marker ->
           Z.land marker 0xFF00 <> 0xFF00 ->
           getDateTaken file = Fulfilled (lastModified file)) /\
        (truncatedAt view offset ->
           getDateTaken file = Fulfilled (lastModified file))) /\
     (forall t,
        getDateTaken file = Fulfilled t ->
        t <> lastModified file ->
        DateTimeOriginalAt view t)).
Proof.
  assert (Hnot : isJpegType (type file) = false ->
                 getDateTaken file = Fulfilled (lastModified file)).
  { intros Hty. unfold getDateTaken. by rewrite Hty. }
  split; [|split; [exact Hnot|split]].
  - destruct (getDateTaken_cases file) as [?|(bytes & t & _ & _ & _ & ?)]; eauto.
  - intros Hc. unfold getDateTaken. rewrite Hc.
    by destruct (negb (isJpegType (type file))).
  - intros bytes view Hc Hview.
    split; [rewrite Hview; apply length_slice64K|].
    destruct (isJpegType (type file)) eqn:Hty.
    2:{ pose proof (Hnot eq_refl) as Hlast.
        split; [done|]. split; [done|].
        intros t Ht Hne. rewrite Hlast in Ht. congruence. }
    pose proof (getDateTaken_parse file bytes Hty Hc) as Hget.
    rewrite <- Hview in Hget. clear Hview Hc.
    assert (Hend : forall offset,
              getUint16 view 0 false = Some 0xFFD8 ->
              skipsTo view 2 offset ->
              byteLength view <= offset ->
              getDateTaken file = Fulfilled (lastModified file)).
    { intros offset Hsoi Hskips Hout.
      destruct (parseExif_skipsTo view offset Hsoi Hskips) as [_ Hparse].
      rewrite Hget, Hparse, scanMarkers_at_end; [done|lia|done]. }
    split; [|split].
    + intros Hsoi. rewrite Hget. unfold parseExif.
      destruct (getUint16 view 0 false) as [soi|]; [|done].
      destruct (soi =? 65496) eqn:E; [|done].
      apply Z.eqb_eq in E. congruence.
    + intros offset Hsoi Hskips. split; [by apply Hend|].
      destruct (parseExif_skipsTo view offset Hsoi Hskips) as [_ Hparse].
      split.
      * intros marker Hm Hhigh. rewrite Hget, Hparse.
        rewrite (scanMarkers_invalid_marker _ _ _ marker); [done| |done|done].
        apply getUint16_in_range in Hm. lia.
      * intros Htrunc.
        destruct (Z_lt_le_dec offset (byteLength view)) as [Hlt|Hout];
          [|by apply (Hend offset)].
        by rewrite Hget, Hparse, scanMarkers_truncated.
    + intros t Ht Hne. rewrite Hget in Ht.
      destruct (parseExif view) as [[[]|t'| |]|] eqn:Hp;
        try (injection Ht as <-; done); [|discriminate].
      injection Ht as <-. by apply parseExif_sound.
Qed.

End ExtractorClaims.


(** The truncated sample: the text of the date runs past the first
    64 KiB, the parser raises, and the result is the last-modified time;
    on the whole file the same parser finds the date. *)
Lemma getDateTaken_never_fails_witness :
  parseExif (host := utcHost) (slice64K truncatedJpeg) = Some Raise /\
  parseExif (host := utcHost) truncatedJpeg = Some (ResolveWith 1698244200000) /\
  getDateTaken (host := utcHost) (jpegFile 42 truncatedJpeg) = Fulfilled 42.
Proof.
  split; [vm_compute; reflexivity|]. split; [vm_compute; reflexivity|].
  destruct (getDateTaken_never_fails (host := utcHost) (jpegFile 42 truncatedJpeg))
    as (_ & _ & _ & Hparse).
  destruct (Hparse truncatedJpeg (slice64K truncatedJpeg) eq_refl eq_refl)
    as (_ & _ & Hscan & _).
  destruct (Hscan 2) as (_ & _ & Htrunc).
  - vm_compute. reflexivity.
  - apply skipsTo_here.
  - apply Htrunc. right. right.
    split; [vm_compute; reflexivity|]. split; [exists 65535; vm_compute; reflexivity|].
    right. split; [vm_compute; reflexivity|]. right.
    exists false, 20, 1, 0. split; [|split; [lia|split; [intros j Hj; lia|]]].
    + exists 0x4D4D, 8.
      repeat match goal with |- _ /\ _ => split end;
        first [vm_compute; reflexivity | lia].
    + right. split; [vm_compute; reflexivity|]. right. exists 65506.
      split; vm_compute; reflexivity.
Defined.

(** C5 as stated fails on [overlongJpeg]: the APP1 segment declares a
    length that runs past the 64 KiB that are read, and the result is not
    the last-modified time but the date of the segment. *)
Lemma declared_length_past_buffer_gives_date :
  65536 < Z.of_nat (length overlongJpeg) /\
  byteLength (slice64K overlongJpeg) = 65536 /\
  getUint16 (slice64K overlongJpeg) 2 false = Some 0xFFE1 /\
  getUint16 (slice64K overlongJpeg) 4 false = Some 65535 /\
  byteLength (slice64K overlongJpeg) < 4 + 65535 /\
  getDateTaken (host := utcHost) (jpegFile 42 overlongJpeg) = Fulfilled 1698244200000 /\
  getDateTaken (host := utcHost) (jpegFile 42 overlongJpeg)
    <> Fulfilled (lastModified (jpegFile 42 overlongJpeg)).
Proof.
  repeat match goal with |- _ /\ _ => split end; try (vm_compute; reflexivity).
  vm_compute. discriminate.
Qed.

Example getDateTaken_bad_marker :
  getDateTaken (host := utcHost) (jpegFile 42 badMarkerJpeg) = Fulfilled 42.
Proof. vm_compute. reflexivity. Qed.

Example getDateTaken_not_jpeg :
  getDateTaken (host := utcHost) (pngFile 42) = Fulfilled 42.
Proof. reflexivity. Qed.



(** ** Burst grouper *)

Section BurstFacts.
Context `{host : Host}.

Lemma findIndexPending_Some currentFiles i :
  findIndexPending currentFiles = Some i ->
  (exists f, currentFiles !! i = Some f /\ status f = pending) /\
  (forall j f, (j < i)%nat -> currentFiles !! j = Some f -> status f <> pending).
Proof.
  revert i. induction currentFiles as [|f0 rest IH]; intros i; [discriminate|].
  simpl. destruct (decide (status f0 = pending)) as [Hp|Hp].
  - intros [= <-]. split; [by exists f0|]. intros j f Hj. lia.
  - destruct (findIndexPending rest) as [i'|]; [|discriminate].
    intros [= <-]. destruct (IH i' eq_refl) as [Hex Hbefore].
    split; [done|]. intros [|j] f Hj; simpl.
    + by intros [= <-].
    + apply Hbefore. lia.
Qed.

Lemma findIndexPending_None currentFiles :
  findIndexPending currentFiles = None ->
  forall f, f ∈ currentFiles -> status f <> pending.
Proof.
  induction currentFiles as [|f0 rest IH]; intros Hnone f Hin.
  - by apply elem_of_nil in Hin.
  - simpl in Hnone. destruct (decide (status f0 = pending)); [discriminate|].
    destruct (findIndexPending rest); [discriminate|].
    apply elem_of_cons in Hin as [->|Hin]; [done|by apply IH].
Qed.

(** [readTimestamp] stops short only when [getFile] does. *)
Lemma readTimestamp_no_hang w f :
  getFile w (handle f) <> Hang -> readTimestamp w f <> Hang.
Proof.
  unfold readTimestamp. destruct (getFile w (handle f)) as [fObj|e|]; try done.
  intros _. simpl.
  destruct (getDateTaken_cases fObj) as [Ht|(bytes & t & _ & _ & _ & Ht)];
    by rewrite Ht.
Qed.

Lemma sliceRun_snoc currentFiles nextFileIndex run candidateFile fObj ts :
  sliceRun currentFiles nextFileIndex run ->
  currentFiles !! (nextFileIndex + length run)%nat = Some candidateFile ->
  status candidateFile = pending ->
  sliceRun currentFiles nextFileIndex
    (run ++ [{| index := (nextFileIndex + length run)%nat; file := candidateFile;
                fileObj := fObj; timestamp := ts |}]).
Proof.
  intros Hrun Hc Hp i c Hi.
  apply lookup_app_Some in Hi as [Hi|[Hlen Hi]]; [by apply Hrun|].
  apply list_lookup_singleton_Some in Hi as [Hi <-]. simpl.
  replace i with (length run) by lia. done.
Qed.

Lemma lookAheadLoop_run fuel w currentFiles nextFileIndex :
  forall batchCandidates,
    sliceRun currentFiles nextFileIndex batchCandidates ->
    (length batchCandidates <= MAX_BATCH_SIZE)%nat ->
    let run := (lookAheadLoop fuel w currentFiles nextFileIndex batchCandidates
                  (length batchCandidates)).1 in
    sliceRun currentFiles nextFileIndex run /\
    (length run <= MAX_BATCH_SIZE)%nat /\
    batchCandidates `prefix_of` run.
Proof.
  induction fuel as [|fuel IH]; intros batchCandidates Hrun Hlen; [done|].
  simpl.
  destruct (length batchCandidates <? MAX_BATCH_SIZE)%nat eqn:Hmax; [|done].
  destruct (nextFileIndex + length batchCandidates <? length currentFiles)%nat;
    [|done]. simpl.
  destruct (currentFiles !! (nextFileIndex + length batchCandidates)%nat)
    as [candidateFile|] eqn:Hc; [|done].
  destruct (bool_decide (status candidateFile = pending)) eqn:Hp; [|done].
  apply bool_decide_eq_true in Hp. simpl.
  destruct (readTimestamp w candidateFile) as [[fObj ts]|e|]; [|done|done].
  destruct (last batchCandidates) as [prev|]; [|done].
  destruct (head batchCandidates) as [start|]; [|done].
  destruct ((Z.abs (ts - timestamp prev) <? 2000)
            && (Z.abs (ts - timestamp start) <? 4000)); [|done].
  apply Nat.ltb_lt in Hmax.
  set (c := {| index := (nextFileIndex + length batchCandidates)%nat;
               file := candidateFile; fileObj := fObj; timestamp := ts |}).
  specialize (IH (batchCandidates ++ [c])).
  rewrite length_app in IH. simpl in IH.
  destruct IH as (Hrun' & Hlen' & Hpre).
  - by apply sliceRun_snoc.
  - lia.
  - split; [done|]. split; [done|].
    etrans; [|exact Hpre]. by apply prefix_app_r.
Qed.

Lemma lookAheadLoop_no_hang fuel w currentFiles nextFileIndex :
  (forall h, getFile w h <> Hang) ->
  forall batchCandidates lookAhead,
    (0 < fuel)%nat ->
    (length currentFiles < fuel + (nextFileIndex + lookAhead))%nat ->
    (lookAheadLoop fuel w currentFiles nextFileIndex batchCandidates lookAhead).2
      <> Hang.
Proof.
  intros Hw. induction fuel as [|fuel IH];
    intros batchCandidates lookAhead Hpos Hfuel; [lia|].
  - simpl.
    destruct (length batchCandidates <? MAX_BATCH_SIZE)%nat; [|done].
    destruct (nextFileIndex + lookAhead <? length currentFiles)%nat eqn:Hin;
      [|done]. simpl.
    destruct (currentFiles !! (nextFileIndex + lookAhead)%nat)
      as [candidateFile|]; [|done].
    destruct (bool_decide (status candidateFile = pending)); [|done]. simpl.
    pose proof (readTimestamp_no_hang w candidateFile (Hw _)) as Hts.
    destruct (readTimestamp w candidateFile) as [[fObj ts]|e|]; [|done|done].
    destruct (last batchCandidates) as [prev|]; [|done].
    destruct (head batchCandidates) as [start|]; [|done].
    destruct ((Z.abs (ts - timestamp prev) <? 2000)
              && (Z.abs (ts - timestamp start) <? 4000)); [|done].
    apply Nat.ltb_lt in Hin. apply IH; lia.
Qed.
End BurstFacts.

Section BurstClaims.
Context `{host : Host}.

Lemma lookAheadLoop_prefix fuel w currentFiles nextFileIndex :
  forall batchCandidates lookAhead,
    batchCandidates `prefix_of`
      (lookAheadLoop fuel w currentFiles nextFileIndex batchCandidates lookAhead).1.
Proof.
  induction fuel as [|fuel IH]; intros batchCandidates lookAhead; [done|].
  simpl.
  destruct (_ && _); [|done]. simpl.
  destruct (currentFiles !! _) as [candidateFile|]; [|done].
  destruct (bool_decide _); [|done]. simpl.
  destruct (readTimestamp w candidateFile) as [[fObj ts]|e|]; [|done|done].
  destruct (last batchCandidates) as [prev|]; [|done].
  destruct (head batchCandidates) as [start|]; [|done].
  destruct (_ && _); [|done].
  etrans; [|apply IH]. by apply prefix_app_r.
Qed.

(** One iteration of the loop on a candidate that is in range, pending
    and readable, with the run below the maximum. *)
Lemma lookAheadLoop_step fuel w currentFiles nextFileIndex batchCandidates
    lookAhead candidateFile candidateFileObj candidateTimestamp prev start :
  (length batchCandidates < MAX_BATCH_SIZE)%nat ->
  currentFiles !! (nextFileIndex + lookAhead)%nat = Some candidateFile ->
  status candidateFile = pending ->
  readTimestamp w candidateFile = Done (candidateFileObj, candidateTimestamp) ->
  last batchCandidates = Some prev ->
  head batchCandidates = Some start ->
  lookAheadLoop (S fuel) w currentFiles nextFileIndex batchCandidates lookAhead =
    if (Z.abs (candidateTimestamp - timestamp prev) <? 2000)
       && (Z.abs (candidateTimestamp - timestamp start) <? 4000)
    then lookAheadLoop fuel w currentFiles nextFileIndex
           (batchCandidates ++
              [{| index := (nextFileIndex + lookAhead)%nat; file := candidateFile;
                  fileObj := candidateFileObj; timestamp := candidateTimestamp |}])
           (lookAhead + 1)%nat
    else (batchCandidates, Done tt).
Proof.
  intros Hmax Hc Hp Hts Hprev Hstart. simpl.
  apply Nat.ltb_lt in Hmax. rewrite Hmax.
  apply lookup_lt_Some in Hc as Hlt. apply Nat.ltb_lt in Hlt. rewrite Hlt.
  simpl. rewrite Hc. rewrite bool_decide_eq_true_2 by done. simpl.
  by rewrite Hts, Hprev, Hstart.
Qed.

(** Four adjacent pending items taken at 1000, 1500, 3200 and 7000. *)
Lemma burst_example w (currentFiles : list ImageFile) (n : nat) a b c d fa fb fc fd :
  currentFiles !! n = Some a ->
  currentFiles !! (n + 1)%nat = Some b ->
  currentFiles !! (n + 2)%nat = Some c ->
  currentFiles !! (n + 3)%nat = Some d ->
  status b = pending -> status c = pending -> status d = pending ->
  readTimestamp w a = Done (fa, 1000) ->
  readTimestamp w b = Done (fb, 1500) ->
  readTimestamp w c = Done (fc, 3200) ->
  readTimestamp w d = Done (fd, 7000) ->
  burstDetection w currentFiles n =
    Some [ {| index := n; file := a; fileObj := fa; timestamp := 1000 |};
           {| index := (n + 1)%nat; file := b; fileObj := fb; timestamp := 1500 |};
           {| index := (n + 2)%nat; file := c; fileObj := fc; timestamp := 3200 |} ].
Proof.
  intros Ha Hb Hc Hd Hpb Hpc Hpd Hta Htb Htc Htd.
  unfold burstDetection, burstTry. rewrite Ha, Hta.
  apply lookup_lt_Some in Hd as Hlen.
  destruct (length currentFiles) as [|[|[|fuel]]] eqn:Hfuel; [lia..|].
  rewrite <- Hfuel. clear Hlen. rewrite Hfuel.
  erewrite lookAheadLoop_step; [|simpl; unfold MAX_BATCH_SIZE; lia
                                |exact Hb|exact Hpb|exact Htb|done|done].
  cbn -[lookAheadLoop].
  erewrite lookAheadLoop_step; [|simpl; unfold MAX_BATCH_SIZE; lia
                                |exact Hc|exact Hpc|exact Htc|done|done].
  cbn -[lookAheadLoop].
  erewrite lookAheadLoop_step; [|simpl; unfold MAX_BATCH_SIZE; lia
                                |exact Hd|exact Hpd|exact Htd|done|done].
  done.
Qed.

(** C1. A next candidate that is contiguous, pending and readable, met
    with fewer than four items in the run, is appended and the scan goes
    on exactly when its distance to the last item of the run is below
    2000 ms and its distance to the first item is below 4000 ms;
    otherwise the run is returned as it stands.  A distance of 0 passes.
    Four adjacent pending items taken at 1000, 1500, 3200 and 7000 give
    the run of the first three. *)
Theorem burst_criterion (w : World) (currentFiles : list ImageFile)
    (nextFileIndex fuel lookAhead : nat) (batchCandidates : list Candidate)
    (candidateFile : ImageFile) (candidateFileObj : File)
    (candidateTimestamp : Z) (prev start : Candidate) :
  (length batchCandidates < MAX_BATCH_SIZE)%nat ->
  currentFiles !! (nextFileIndex + lookAhead)%nat = Some candidateFile ->
  status candidateFile = pending ->
  readTimestamp w candidateFile = Done (candidateFileObj, candidateTimestamp) ->
  last batchCandidates = Some prev ->
  head batchCandidates = Some start ->
  ((lookAheadLoop (S fuel) w currentFiles nextFileIndex batchCandidates lookAhead).1
     !! length batchCandidates =
   Some {| index := (nextFileIndex + lookAhead)%nat; file := candidateFile;
           fileObj := candidateFileObj; timestamp := candidateTimestamp |}
   <->
   Z.abs (candidateTimestamp - timestamp prev) < 2000 /\
   Z.abs (candidateTimestamp - timestamp start) < 4000) /\
  (Z.abs (candidateTimestamp - timestamp prev) < 2000 /\
   Z.abs (candidateTimestamp - timestamp start) < 4000 ->
   lookAheadLoop (S fuel) w currentFiles nextFileIndex batchCandidates lookAhead =
   lookAheadLoop fuel w currentFiles nextFileIndex
     (batchCandidates ++
        [{| index := (nextFileIndex + lookAhead)%nat; file := candidateFile;
            fileObj := candidateFileObj; timestamp := candidateTimestamp |}])
     (lookAhead + 1)%nat) /\
  (~ (Z.abs (candidateTimestamp - timestamp prev) < 2000 /\
      Z.abs (candidateTimestamp - timestamp start) < 4000) ->
   lookAheadLoop (S fuel) w currentFiles nextFileIndex batchCandidates lookAhead =
   (batchCandidates, Done tt)) /\
  (candidateTimestamp = timestamp prev ->
   Z.abs (candidateTimestamp - timestamp start) < 4000 ->
   lookAheadLoop (S fuel) w currentFiles nextFileIndex batchCandidates lookAhead =
   lookAheadLoop fuel w currentFiles nextFileIndex
     (batchCandidates ++
        [{| index := (nextFileIndex + lookAhead)%nat; file := candidateFile;
            fileObj := candidateFileObj; timestamp := candidateTimestamp |}])
     (lookAhead + 1)%nat) /\
  (forall n a b c d fa fb fc fd,
     currentFiles !! n = Some a ->
     currentFiles !! (n + 1)%nat = Some b ->
     currentFiles !! (n + 2)%nat = Some c ->
     currentFiles !! (n + 3)%nat = Some d ->
     status b = pending -> status c = pending -> status d = pending ->
     readTimestamp w a = Done (fa, 1000) ->
     readTimestamp w b = Done (fb, 1500) ->
     readTimestamp w c = Done (fc, 3200) ->
     readTimestamp w d = Done (fd, 7000) ->
     burstDetection w currentFiles n =
       Some [ {| index := n; file := a; fileObj := fa; timestamp := 1000 |};
              {| index := (n + 1)%nat; file := b; fileObj := fb; timestamp := 1500 |};
              {| index := (n + 2)%nat; file := c; fileObj := fc; timestamp := 3200 |} ]).
Proof.
  intros Hmax Hc Hp Hts Hprev Hstart.
  pose proof (lookAheadLoop_step fuel w currentFiles nextFileIndex batchCandidates
                lookAhead _ _ _ _ _ Hmax Hc Hp Hts Hprev Hstart) as Hstep.
  set (c := {| index := (nextFileIndex + lookAhead)%nat; file := candidateFile;
               fileObj := candidateFileObj; timestamp := candidateTimestamp |}) in *.
  assert (Hyes : Z.abs (candidateTimestamp - timestamp prev) < 2000 /\
                 Z.abs (candidateTimestamp - timestamp start) < 4000 ->
            lookAheadLoop (S fuel) w currentFiles nextFileIndex batchCandidates lookAhead
            = lookAheadLoop fuel w currentFiles nextFileIndex (batchCandidates ++ [c])
                (lookAhead + 1)%nat).
  { intros [H1 H2]. rewrite Hstep.
    apply Z.ltb_lt in H1, H2. by rewrite H1, H2. }
  assert (Hno : ~ (Z.abs (candidateTimestamp - timestamp prev) < 2000 /\
                   Z.abs (candidateTimestamp - timestamp start) < 4000) ->
            lookAheadLoop (S fuel) w currentFiles nextFileIndex batchCandidates lookAhead
            = (batchCandidates, Done tt)).
  { intros Hn. rewrite Hstep.
    destruct (Z.abs (candidateTimestamp - timestamp prev) <? 2000) eqn:H1;
      [|done].
    destruct (Z.abs (candidateTimestamp - timestamp start) <? 4000) eqn:H2;
      [|done].
    apply Z.ltb_lt in H1, H2. by destruct Hn. }
  split; [|split; [done|split; [done|split]]].
  - split.
    + intros Hin.
      destruct (decide (Z.abs (candidateTimestamp - timestamp prev) < 2000 /\
                        Z.abs (candidateTimestamp - timestamp start) < 4000))
        as [|Hn]; [done|].
      rewrite (Hno Hn) in Hin. simpl in Hin.
      apply lookup_lt_Some in Hin. lia.
    + intros Hy. rewrite (Hyes Hy).
      destruct (lookAheadLoop_prefix fuel w currentFiles nextFileIndex
                  (batchCandidates ++ [c]) (lookAhead + 1)%nat) as [more ->].
      rewrite <- app_assoc. by rewrite lookup_app_r, Nat.sub_diag by lia.
  - intros -> Htot. apply Hyes. split; [|done].
    rewrite Z.sub_diag. simpl. lia.
  - clear. intros n a b c' d fa fb fc fd. apply burst_example.
Qed.
End BurstClaims.

Example burst_sample :
  burstDetection (host := utcHost) (sampleWorld burstDisk ∅ ∅) burstBacklog 0
  = Some burstRun.
Proof. vm_compute. reflexivity. Qed.

(** The sample run, step by step: C follows B at 1700 ms and A at 2200 ms
    and is taken, D follows C at 3800 ms and ends the run. *)
Lemma burst_criterion_witness :
  lookAheadLoop (host := utcHost) 2 (sampleWorld burstDisk ∅ ∅) burstBacklog 0
    [ {| index := 0; file := pendingItem "A.png";
         fileObj := pngFile 1000; timestamp := 1000 |};
      {| index := 1; file := pendingItem "B.png";
         fileObj := pngFile 1500; timestamp := 1500 |} ] 2 =
  lookAheadLoop (host := utcHost) 1 (sampleWorld burstDisk ∅ ∅) burstBacklog 0
    [ {| index := 0; file := pendingItem "A.png";
         fileObj := pngFile 1000; timestamp := 1000 |};
      {| index := 1; file := pendingItem "B.png";
         fileObj := pngFile 1500; timestamp := 1500 |};
      {| index := 2; file := pendingItem "C.png";
         fileObj := pngFile 3200; timestamp := 3200 |} ] 3.
Proof.
  refine (proj1 (proj2 (burst_criterion (host := utcHost)
            (sampleWorld burstDisk ∅ ∅) burstBacklog 0 1 2
            [ {| index := 0; file := pendingItem "A.png";
                 fileObj := pngFile 1000; timestamp := 1000 |};
              {| index := 1; file := pendingItem "B.png";
                 fileObj := pngFile 1500; timestamp := 1500 |} ]
            (pendingItem "C.png") (pngFile 3200) 3200
            {| index := 1; file := pendingItem "B.png";
               fileObj := pngFile 1500; timestamp := 1500 |}
            {| index := 0; file := pendingItem "A.png";
               fileObj := pngFile 1000; timestamp := 1000 |}
            _ _ _ _ _ _)) _).
  - vm_compute. lia.
  - reflexivity.
  - reflexivity.
  - vm_compute. reflexivity.
  - reflexivity.
  - reflexivity.
  - simpl. lia.
Defined.

(** ** One call of [processQueue] *)

Section PassFacts.
Context `{host : Host}.

Lemma tick_idle dirHandle s :
  processingRef s = true \/ isProcessingRef s = false \/
  findIndexPending (filesRef s) = None ->
  tick dirHandle s = s.
Proof.
  unfold tick. intros [->|[->|Hnone]]; [done|by rewrite orb_true_r|].
  destruct (processingRef s || negb (isProcessingRef s)); [done|].
  by rewrite Hnone.
Qed.

Lemma tick_start dirHandle s nextFileIndex :
  processingRef s = false -> isProcessingRef s = true ->
  findIndexPending (filesRef s) = Some nextFileIndex ->
  tick dirHandle s =
    {| files := files s; filesRef := filesRef s;
       isProcessingRef := isProcessingRef s; processingRef := true;
       inFlight := inFlight s ++ [Detecting dirHandle (filesRef s) nextFileIndex];
       retries := retries s |}.
Proof. intros Hg Hp Hi. unfold tick. by rewrite Hg, Hp, Hi. Qed.

(** A call that starts runs burst detection on the snapshot, marks the
    run, applies the setter of the batch and ends in [finally]. *)
Lemma processQueue_pass w dirHandle s nextFileIndex :
  processingRef s = false -> isProcessingRef s = true ->
  findIndexPending (filesRef s) = Some nextFileIndex ->
  processQueue w dirHandle s =
    batchCandidates ← burstDetection w (filesRef s) nextFileIndex;
    setter ← runBatch w dirHandle batchCandidates;
    Some {| files := setter (markProcessing (processingIdsOf batchCandidates) (files s));
            filesRef := filesRef s;
            isProcessingRef := isProcessingRef s;
            processingRef := false;
            inFlight := inFlight s;
            retries := retries s ++ [500] |}.
Proof.
  intros Hg Hp Hi. unfold processQueue. rewrite Hg, Hp, Hi. simpl.
  rewrite (tick_start _ _ _ Hg Hp Hi).
  unfold detected. simpl. rewrite list_lookup_middle by done.
  destruct (burstDetection w (filesRef s) nextFileIndex) as [batchCandidates|];
    [|done]. simpl.
  unfold completed. simpl.
  rewrite insert_app_r_alt, Nat.sub_diag by done. simpl.
  rewrite list_lookup_middle by done.
  destruct (runBatch w dirHandle batchCandidates) as [setter|]; [|done]. simpl.
  rewrite delete_middle, app_nil_r. by rewrite Hp.
Qed.

Lemma markProcessing_empty prev : markProcessing ∅ prev = prev.
Proof.
  unfold markProcessing. induction prev as [|f prev IH]; [done|].
  simpl. rewrite IH. by rewrite bool_decide_eq_false_2 by set_solver.
Qed.

Lemma markError_empty e prev : markError ∅ e prev = prev.
Proof.
  unfold markError. induction prev as [|f prev IH]; [done|].
  simpl. rewrite IH. by rewrite bool_decide_eq_false_2 by set_solver.
Qed.

Lemma sliceRun_slice currentFiles nextFileIndex run :
  sliceRun currentFiles nextFileIndex run ->
  file <$> run = take (length run) (drop nextFileIndex currentFiles).
Proof.
  intros Hrun. apply list_eq. intros i.
  rewrite list_lookup_fmap.
  destruct (run !! i) as [c|] eqn:Hc; simpl.
  - apply lookup_lt_Some in Hc as Hlt.
    rewrite lookup_take_lt, lookup_drop by done.
    by destruct (Hrun i c Hc) as (_ & -> & _).
  - apply lookup_ge_None in Hc. by rewrite lookup_take_ge.
Qed.

Lemma burstTry_run w currentFiles nextFileIndex :
  (exists f, currentFiles !! nextFileIndex = Some f /\ status f = pending) ->
  sliceRun currentFiles nextFileIndex (burstTry w currentFiles nextFileIndex).1 /\
  (length (burstTry w currentFiles nextFileIndex).1 <= MAX_BATCH_SIZE)%nat.
Proof.
  intros (firstFile & Hfirst & Hp). unfold burstTry. rewrite Hfirst.
  assert (Hnil : sliceRun currentFiles nextFileIndex []) by (intros i c; done).
  destruct (readTimestamp w firstFile) as [[firstFileObj firstTimestamp]|e|];
    [|split; [done|simpl; lia]..].
  set (c := {| index := nextFileIndex; file := firstFile;
               fileObj := firstFileObj; timestamp := firstTimestamp |}).
  destruct (lookAheadLoop_run (length currentFiles) w currentFiles nextFileIndex [c])
    as (Hrun & Hlen & _); [|simpl; unfold MAX_BATCH_SIZE; lia|done].
  intros i c' Hi. apply list_lookup_singleton_Some in Hi as [-> <-]. simpl.
  by rewrite Nat.add_0_r.
Qed.
End PassFacts.

Section PassClaims.
Context `{host : Host}.

Lemma findIndexPending_first currentFiles i :
  findIndexPending currentFiles = Some i <-> firstPending currentFiles i.
Proof.
  split; [apply findIndexPending_Some|].
  revert i. induction currentFiles as [|f rest IH]; intros i [(g & Hg & Hp) Hbefore].
  { done. }
  simpl. destruct (decide (status f = pending)) as [Hf|Hf].
  - destruct i as [|i]; [done|].
    destruct (Hbefore 0%nat f); [lia|done|done].
  - destruct i as [|i]; [simpl in Hg; congruence|].
    rewrite (IH i); [done|]. split; [by exists g|].
    intros j h Hj Hh. apply (Hbefore (S j) h); [lia|done].
Qed.

Lemma findIndexPending_none currentFiles :
  findIndexPending currentFiles = None <->
  forall f, f ∈ currentFiles -> status f <> pending.
Proof.
  split; [apply findIndexPending_None|].
  induction currentFiles as [|f rest IH]; intros Hnone; [done|].
  simpl. rewrite decide_False by apply Hnone, list_elem_of_here.
  rewrite IH; [done|]. intros g Hg. by apply Hnone, list_elem_of_further.
Qed.

(** C2. The pass starts at the first pending item of the backlog,
    wherever it lies, and idles exactly when no item is pending (or the
    guard or the pause holds it).  The run that burst detection hands
    over from a pending item has at most four candidates, each of them
    pending; it is the slice of the backlog of that length that starts at
    the item, and its first member is the item when the item can be read;
    detection returns whenever the file reads do. *)
Theorem burst_run_shape (w : World) (dirHandle : option FileSystemDirectoryHandle)
    (s : AppState) :
  (forall i, findIndexPending (filesRef s) = Some i <-> firstPending (filesRef s) i) /\
  (findIndexPending (filesRef s) = None <->
     forall f, f ∈ filesRef s -> status f <> pending) /\
  ((forall f, f ∈ filesRef s -> status f <> pending) ->
     tick dirHandle s = s /\ processQueue w dirHandle s = Some s) /\
  (forall i,
     firstPending (filesRef s) i ->
     processingRef s = false ->
     isProcessingRef s = true ->
     tick dirHandle s =
       {| files := files s; filesRef := filesRef s;
          isProcessingRef := isProcessingRef s; processingRef := true;
          inFlight := inFlight s ++ [Detecting dirHandle (filesRef s) i];
          retries := retries s |} /\
     processQueue w dirHandle s =
       batchCandidates ← burstDetection w (filesRef s) i;
       setter ← runBatch w dirHandle batchCandidates;
       Some {| files := setter (markProcessing (processingIdsOf batchCandidates)
                                  (files s));
               filesRef := filesRef s;
               isProcessingRef := isProcessingRef s;
               processingRef := false;
               inFlight := inFlight s;
               retries := retries s ++ [500] |}) /\
  (forall i f run,
     filesRef s !! i = Some f ->
     status f = pending ->
     burstDetection w (filesRef s) i = Some run ->
     (length run <= 4)%nat /\
     (forall c, c ∈ run -> status (file c) = pending) /\
     file <$> run = take (length run) (drop i (filesRef s)) /\
     (forall k c, run !! k = Some c -> index c = (i + k)%nat) /\
     (forall firstFileObj firstTimestamp,
        readTimestamp w f = Done (firstFileObj, firstTimestamp) ->
        head run = Some {| index := i; file := f; fileObj := firstFileObj;
                           timestamp := firstTimestamp |})) /\
  (forall i f,
     filesRef s !! i = Some f ->
     (forall h, getFile w h <> Hang) ->
     is_Some (burstDetection w (filesRef s) i)).
Proof.
  split; [intros i; apply findIndexPending_first|].
  split; [apply findIndexPending_none|].
  split; [|split; [|split]].
  - intros Hnone. apply findIndexPending_none in Hnone.
    split; [apply tick_idle; auto|].
    unfold processQueue. rewrite Hnone.
    by destruct (processingRef s || negb (isProcessingRef s)).
  - intros i Hfirst Hguard Hplay. apply findIndexPending_first in Hfirst.
    split; [by apply tick_start|by apply processQueue_pass].
  - intros i f run Hf Hp Hrun.
    assert (Hfirst : exists g, filesRef s !! i = Some g /\ status g = pending)
      by by exists f.
    destruct (burstTry_run w (filesRef s) i Hfirst) as [Hslice Hlen].
    assert (Heq : run = (burstTry w (filesRef s) i).1).
    { unfold burstDetection in Hrun.
      destruct (burstTry w (filesRef s) i) as [bc [[]|?|]];
        simpl; congruence. }
    rewrite <- Heq in Hslice, Hlen.
    split; [exact Hlen|]. split; [|split; [|split]].
    + intros c Hc. apply list_elem_of_lookup in Hc as [k Hc].
      by destruct (Hslice k c Hc) as (_ & _ & ?).
    + by apply sliceRun_slice.
    + intros k c Hc. by destruct (Hslice k c Hc) as (? & _).
    + intros firstFileObj firstTimestamp Hread. rewrite Heq.
      unfold burstTry. rewrite Hf, Hread.
      destruct (lookAheadLoop_prefix (length (filesRef s)) w (filesRef s) i
                  [{| index := i; file := f; fileObj := firstFileObj;
                      timestamp := firstTimestamp |}] 1%nat) as [rest ->].
      done.
  - intros i f Hf Hw.
    unfold burstDetection.
    assert (Hnh : (burstTry w (filesRef s) i).2 <> Hang).
    { unfold burstTry. rewrite Hf.
      pose proof (readTimestamp_no_hang w f (Hw _)) as Hts.
      destruct (readTimestamp w f) as [[fObj ts]|e|]; [|done|done].
      apply lookup_lt_Some in Hf.
      apply lookAheadLoop_no_hang; [done|lia|lia]. }
    destruct (burstTry w (filesRef s) i) as [bc [[]|?|]]; eauto.
    by destruct Hnh.
Qed.

(** C10. When the read of the first pending item fails, burst detection
    hands over the empty run; the batch on the empty run raises a
    [TypeError]; the set of ids to mark is empty, so the setters of the
    call leave every item as it was, the item stays pending, the guard
    is released and a retry is set for 500 ms later. *)
Theorem first_read_failure (w : World) (dirHandle : option FileSystemDirectoryHandle)
    (s : AppState) (nextFileIndex : nat) (firstFile : ImageFile) (e : Exn) :
  processingRef s = false ->
  isProcessingRef s = true ->
  findIndexPending (filesRef s) = Some nextFileIndex ->
  filesRef s !! nextFileIndex = Some firstFile ->
  readTimestamp w firstFile = Fail e ->
  status firstFile = pending /\
  burstDetection w (filesRef s) nextFileIndex = Some [] /\
  processingIdsOf [] = ∅ /\
  batchTry w dirHandle [] = Fail (Thrown (Some typeErrorMessage)) /\
  processQueue w dirHandle s =
    Some {| files := files s; filesRef := filesRef s;
            isProcessingRef := isProcessingRef s; processingRef := false;
            inFlight := inFlight s; retries := retries s ++ [500] |}.
Proof.
  intros Hg Hp Hi Hfirst Hfail.
  assert (Hrun : burstDetection w (filesRef s) nextFileIndex = Some []).
  { unfold burstDetection, burstTry. by rewrite Hfirst, Hfail. }
  split.
  { apply findIndexPending_Some in Hi as [(f & Hf & Hst) _]. congruence. }
  split; [exact Hrun|]. split; [done|]. split; [done|].
  rewrite (processQueue_pass _ _ _ _ Hg Hp Hi), Hrun. simpl.
  unfold runBatch. simpl.
  by rewrite markError_empty, markProcessing_empty.
Qed.
End PassClaims.

(** A backlog whose first item is graded: the call starts at B.png, index
    1, and the run is B, C, the slice of length 2 at index 1. *)
Lemma burst_run_shape_witness :
  findIndexPending resumedBacklog = Some 1%nat /\
  tick None (loadedState resumedBacklog) =
    {| files := resumedBacklog; filesRef := resumedBacklog;
       isProcessingRef := true; processingRef := true;
       inFlight := [Detecting None resumedBacklog 1];
       retries := [] |} /\
  exists run,
    burstDetection (host := utcHost) (sampleWorld burstDisk ∅ ∅) resumedBacklog 1
      = Some run /\
    length run = 2%nat /\
    file <$> run = take 2 (drop 1 resumedBacklog).
Proof.
  destruct (burst_run_shape (host := utcHost) (sampleWorld burstDisk ∅ ∅) None
              (loadedState resumedBacklog)) as (Hidx & _ & _ & Hstart & Hshape & Hsome).
  assert (Hfirst : firstPending resumedBacklog 1).
  { split; [exists (pendingItem "B.png"); by split|].
    intros j g Hj Hg. destruct j as [|j]; [|lia].
    injection Hg as <-. discriminate. }
  split; [by apply (Hidx 1%nat)|].
  split; [by destruct (Hstart 1%nat Hfirst eq_refl eq_refl)|].
  destruct (Hsome 1%nat (pendingItem "B.png")) as [run Hrun].
  - reflexivity.
  - intros h. simpl. destruct (burstDisk !! h); discriminate.
  - exists run. split; [exact Hrun|].
    assert (Hlen : length run = 2%nat).
    { simpl in Hrun. vm_compute in Hrun. by injection Hrun as <-. }
    split; [exact Hlen|].
    destruct (Hshape 1%nat (pendingItem "B.png") run eq_refl eq_refl Hrun)
      as (_ & _ & Hslice & _).
    by rewrite Hlen in Hslice.
Defined.

(** The sample backlog with A.png gone from the disk: nothing changes but
    the retry. *)
Lemma first_read_failure_witness :
  processQueue (host := utcHost)
    (sampleWorld (delete "A.png"%string burstDisk) ∅ ∅) None (loadedState burstBacklog)
  = Some {| files := burstBacklog; filesRef := burstBacklog;
            isProcessingRef := true; processingRef := false;
            inFlight := []; retries := [500] |}.
Proof.
  refine (proj2 (proj2 (proj2 (proj2
    (first_read_failure (host := utcHost)
       (sampleWorld (delete "A.png"%string burstDisk) ∅ ∅) None
       (loadedState burstBacklog) 0 (pendingItem "A.png")
       (Thrown (Some "NotFoundError"%string)) _ _ _ _ _))))).
  all: reflexivity.
Defined.

(** ** Batch evaluation *)

Section BatchFacts.
Context `{host : Host}.

Lemma promiseAll_Fail {A : Type} (ps : list (Async A)) e :
  Fail e ∈ ps -> exists e', promiseAll ps = Fail e' /\ Fail e' ∈ ps.
Proof.
  induction ps as [|p ps IH]; intros Hin; [by apply elem_of_nil in Hin|].
  simpl. destruct p as [a|e0|].
  - apply elem_of_cons in Hin as [?|Hin]; [done|].
    destruct (IH Hin) as (e' & -> & Hin'). exists e'. split; [done|].
    by apply list_elem_of_further.
  - exists e0. split; [done|]. apply list_elem_of_here.
  - apply elem_of_cons in Hin as [?|Hin]; [done|].
    destruct (IH Hin) as (e' & -> & Hin'). exists e'. split; [done|].
    by apply list_elem_of_further.
Qed.

Lemma promiseAll_Forall2 {A B : Type} (f : A -> Async B) (P : A -> B -> Prop)
    (l : list A) :
  (forall x, x ∈ l -> exists b, f x = Done b /\ P x b) ->
  exists bs, promiseAll (map f l) = Done bs /\ Forall2 P l bs.
Proof.
  induction l as [|x l IH]; intros Hf.
  - exists []. split; [done|constructor].
  - destruct (Hf x) as (b & Hb & HP); [apply list_elem_of_here|].
    destruct IH as (bs & Hbs & Hall).
    { intros y Hy. apply Hf. by apply list_elem_of_further. }
    exists (b :: bs). simpl. rewrite Hb, Hbs. split; [done|by constructor].
Qed.

Lemma saveSidecar_sidecarRef w dirHandle fileName result :
  (forall dir, saveXMPInDirectory w dir fileName (generateXMPContent w result) <> Hang) ->
  saveSidecar w dirHandle fileName result =
  Done (sidecarRef w dirHandle fileName result).
Proof.
  intros Hnh. unfold saveSidecar, sidecarRef. destruct dirHandle as [dir|]; [|done].
  specialize (Hnh dir).
  by destruct (saveXMPInDirectory w dir fileName (generateXMPContent w result)).
Qed.

(** A member's promise is rejected only for a result that is missing. *)
Lemma memberUpdate_Fail w dirHandle groupResults c e :
  memberUpdate w dirHandle groupResults c = Fail e ->
  groupResults !! name (file c) = None /\
  e = Thrown (Some ("No result for " ++ name (file c) ++ " in group response")%string).
Proof.
  unfold memberUpdate. destruct (groupResults !! name (file c)) as [result|].
  - unfold saveSidecar. destruct dirHandle as [dir|]; [|done].
    by destruct (saveXMPInDirectory w dir _ _).
  - by intros [= <-].
Qed.

Lemma processingIdsOf_member batchCandidates c :
  c ∈ batchCandidates -> id (file c) ∈ processingIdsOf batchCandidates.
Proof.
  intros Hc. unfold processingIdsOf. apply elem_of_list_to_set.
  apply list_elem_of_In, in_map_iff. exists c. split; [done|].
  by apply list_elem_of_In.
Qed.

Lemma markError_status processingIds e prev f :
  f ∈ markError processingIds e prev ->
  id f ∈ processingIds ->
  status f = error /\ errorMessage f = message e.
Proof.
  unfold markError. intros Hf Hid.
  apply list_elem_of_In, in_map_iff in Hf as (f0 & <- & _).
  destruct (bool_decide (id f0 ∈ processingIds)) eqn:E; [done|].
  apply bool_decide_eq_false in E. done.
Qed.

Lemma markError_member processingIds e prev f0 :
  f0 ∈ prev -> id f0 ∈ processingIds ->
  withError e f0 ∈ markError processingIds e prev.
Proof.
  intros Hf Hid. unfold markError. apply list_elem_of_In, in_map_iff.
  exists f0. rewrite bool_decide_eq_true_2 by done.
  split; [done|]. by apply list_elem_of_In.
Qed.

(** Under distinct ids, the update at the first index with the id is the
    update of every item with the id. *)
Lemma findIndexId_alter u next :
  NoDup (id <$> next) ->
  match findIndexId (updateId u) next with
  | Some idx => alter (mergeUpdate u) idx next
  | None => next
  end = (fun f => if decide (id f = updateId u) then mergeUpdate u f else f) <$> next.
Proof.
  induction next as [|f next IH]; intros Hnd; [done|].
  apply NoDup_cons in Hnd as [Hnotin Hnd]. cbn [findIndexId].
  destruct (decide (id f = updateId u)) as [Heq|Hne].
  - rewrite fmap_cons. destruct (decide (id f = updateId u)); [|done].
    simpl. f_equal. apply list_eq. intros i. rewrite list_lookup_fmap.
    destruct (next !! i) as [f'|] eqn:Hf'; [|done]. simpl.
    destruct (decide (id f' = updateId u)) as [Heq'|]; [|done].
    destruct Hnotin. rewrite Heq, <- Heq'.
    apply list_elem_of_fmap. exists f'. split; [done|].
    by apply list_elem_of_lookup_2 in Hf'.
  - specialize (IH Hnd). rewrite fmap_cons.
    destruct (decide (id f = updateId u)); [done|].
    destruct (findIndexId (updateId u) next) as [idx|]; simpl; by rewrite <- IH.
Qed.
End BatchFacts.

Section BulkUpdateFacts.

Lemma bulkUpdate_cons u updates (prev : list ImageFile) :
  NoDup (id <$> prev) ->
  bulkUpdate (u :: updates) prev =
  bulkUpdate updates
    ((fun f => if decide (id f = updateId u) then mergeUpdate u f else f) <$> prev).
Proof.
  intros Hnd. unfold bulkUpdate. simpl. by rewrite findIndexId_alter.
Qed.

Lemma mergeUpdate_ids u (prev : list ImageFile) :
  id <$> ((fun f => if decide (id f = updateId u) then mergeUpdate u f else f) <$> prev)
  = id <$> prev.
Proof.
  rewrite <- list_fmap_compose. apply list_fmap_ext. intros i f _. simpl.
  by destruct (decide (id f = updateId u)).
Qed.

(** An item whose id no update names is left as it is. *)
Lemma bulkUpdate_other updates :
  forall prev f,
    NoDup (id <$> prev) ->
    f ∈ prev ->
    (forall u, u ∈ updates -> updateId u <> id f) ->
    f ∈ bulkUpdate updates prev.
Proof.
  induction updates as [|u updates IH]; intros prev f Hnd Hf Hother; [done|].
  rewrite bulkUpdate_cons by done. apply IH.
  - by rewrite mergeUpdate_ids.
  - apply list_elem_of_fmap. exists f. split; [|done].
    destruct (decide (id f = updateId u)) as [Heq|]; [|done].
    destruct (Hother u); [apply list_elem_of_here|done].
  - intros u' Hu'. apply Hother. by apply list_elem_of_further.
Qed.

(** With distinct ids on both sides, the item named by an update ends as
    the merge of that update into it. *)
Lemma bulkUpdate_member updates :
  forall prev u f,
    NoDup (id <$> prev) ->
    NoDup (updateId <$> updates) ->
    u ∈ updates ->
    f ∈ prev ->
    id f = updateId u ->
    mergeUpdate u f ∈ bulkUpdate updates prev.
Proof.
  induction updates as [|u0 updates IH]; intros prev u f Hnd Hndu Hu Hf Hid.
  { by apply elem_of_nil in Hu. }
  rewrite bulkUpdate_cons by done.
  apply NoDup_cons in Hndu as [Hfresh Hndu].
  apply elem_of_cons in Hu as [->|Hu].
  - apply bulkUpdate_other.
    + by rewrite mergeUpdate_ids.
    + apply list_elem_of_fmap. exists f. split; [|done].
      by destruct (decide (id f = updateId u0)).
    + intros u' Hu' Heq. simpl in Heq. destruct Hfresh. rewrite <- Heq.
      by apply list_elem_of_fmap_2.
  - apply IH; [by rewrite mergeUpdate_ids|done|done| |done].
    apply list_elem_of_fmap. exists f. split; [|done].
    destruct (decide (id f = updateId u0)) as [Heq|]; [|done].
    destruct Hfresh. rewrite <- Heq, Hid. by apply list_elem_of_fmap_2.
Qed.

Lemma singleUpdate_member targetId ev xmp prev f :
  f ∈ prev -> id f = targetId ->
  withDone ev xmp f ∈ singleUpdate targetId ev xmp prev.
Proof.
  intros Hf Hid. unfold singleUpdate. apply list_elem_of_In, in_map_iff.
  exists f. split; [|by apply list_elem_of_In].
  by destruct (decide (id f = targetId)).
Qed.
End BulkUpdateFacts.

Section BatchClaims.
Context `{host : Host}.

(** C3. In a run of more than one member whose group response lacks the
    result of a member, the batch raises the "No result" error of a member
    without result, the setter of the catch block is the one that runs,
    and it puts every item with the id of a member in [error] with that
    message; no such item is [done]. *)
Theorem group_missing_result_fails_all (w : World)
    (dirHandle : option FileSystemDirectoryHandle)
    (batchCandidates : list Candidate) (preparedImages : list PreparedImage)
    (groupResults : gmap string Evaluation) (c : Candidate) :
  (1 < length batchCandidates)%nat ->
  promiseAll (map (prepareImage w) batchCandidates) = Done preparedImages ->
  evaluateImageGroup w preparedImages = Done groupResults ->
  c ∈ batchCandidates ->
  groupResults !! name (file c) = None ->
  exists e missing,
    missing ∈ batchCandidates /\
    groupResults !! name (file missing) = None /\
    e = Thrown (Some ("No result for " ++ name (file missing)
                      ++ " in group response")%string) /\
    batchTry w dirHandle batchCandidates = Fail e /\
    runBatch w dirHandle batchCandidates
      = Some (markError (processingIdsOf batchCandidates) e) /\
    (forall member, member ∈ batchCandidates ->
       id (file member) ∈ processingIdsOf batchCandidates) /\
    (forall prev f0,
       f0 ∈ prev -> id f0 ∈ processingIdsOf batchCandidates ->
       withError e f0 ∈ markError (processingIdsOf batchCandidates) e prev) /\
    (forall prev f,
       f ∈ markError (processingIdsOf batchCandidates) e prev ->
       id f ∈ processingIdsOf batchCandidates ->
       status f = error /\ status f <> done /\ errorMessage f = message e) /\
    (forall s k,
       inFlight s !! k = Some (Grading dirHandle batchCandidates) ->
       exists s',
         completed k w s = Some s' /\
         files s' = markError (processingIdsOf batchCandidates) e (files s) /\
         processingRef s' = false).
Proof.
  intros Hlen Hprep Hgroup Hc Hmiss.
  assert (Hrej : exists e,
    promiseAll (map (memberUpdate w dirHandle groupResults) batchCandidates) = Fail e /\
    Fail e ∈ map (memberUpdate w dirHandle groupResults) batchCandidates).
  { apply (promiseAll_Fail _
             (Thrown (Some ("No result for " ++ name (file c)
                            ++ " in group response")%string))).
    apply list_elem_of_In, in_map_iff. exists c. split; [|by apply list_elem_of_In].
    unfold memberUpdate. by rewrite Hmiss. }
  destruct Hrej as (e & Hall & Hin).
  apply list_elem_of_In, in_map_iff in Hin as (missing & Hfail & Hmem).
  apply list_elem_of_In in Hmem.
  apply memberUpdate_Fail in Hfail as [Hnone He].
  assert (Htry : batchTry w dirHandle batchCandidates = Fail e).
  { unfold batchTry. apply Nat.ltb_lt in Hlen. rewrite Hlen, Hprep. simpl.
    rewrite Hgroup. simpl. by rewrite Hall. }
  assert (Hrun : runBatch w dirHandle batchCandidates
                 = Some (markError (processingIdsOf batchCandidates) e)).
  { unfold runBatch. by rewrite Htry. }
  exists e, missing.
  split; [done|]. split; [done|]. split; [done|]. split; [done|].
  split; [done|]. split; [|split; [|split]].
  - intros member. apply processingIdsOf_member.
  - intros prev f0. apply markError_member.
  - intros prev f Hf Hid.
    destruct (markError_status _ _ _ _ Hf Hid) as [Hst Hmsg].
    rewrite Hst. done.
  - intros s k Hk. unfold completed. rewrite Hk, Hrun. simpl. eauto.
Qed.
Lemma Forall2_updateIds w dirHandle (groupResults : gmap string Evaluation)
    (batchCandidates : list Candidate) (updates : list Update) :
  Forall2 (fun c u => exists result,
             groupResults !! name (file c) = Some result /\
             u = gradedUpdate w dirHandle c result) batchCandidates updates ->
  updateId <$> updates = map (fun c => id (file c)) batchCandidates.
Proof.
  induction 1 as [|c u bc us (result & _ & ->) _ IH]; [done|].
  rewrite fmap_cons. simpl. by rewrite IH.
Qed.

(** C7. Whichever sidecar writes fail, a graded run still ends in
    success: every member's update has status [done] and the
    member's evaluation, and its sidecar reference is the handle of its own
    write when that succeeded and absent when it failed or there is no
    directory.  The setter gives every item of a member exactly that
    update.  The same holds for a run of one. *)
Theorem sidecar_failure_is_swallowed (w : World)
    (dirHandle : option FileSystemDirectoryHandle)
    (batchCandidates : list Candidate) :
  (forall dir fileName content, saveXMPInDirectory w dir fileName content <> Hang) ->
  (forall preparedImages groupResults,
     (1 < length batchCandidates)%nat ->
     promiseAll (map (prepareImage w) batchCandidates) = Done preparedImages ->
     evaluateImageGroup w preparedImages = Done groupResults ->
     (forall c, c ∈ batchCandidates -> is_Some (groupResults !! name (file c))) ->
     exists updates,
       batchTry w dirHandle batchCandidates = Done (GroupSuccess updates) /\
       runBatch w dirHandle batchCandidates = Some (bulkUpdate updates) /\
       Forall2 (fun c u => exists result,
                  groupResults !! name (file c) = Some result /\
                  u = gradedUpdate w dirHandle c result)
         batchCandidates updates /\
       (forall prev c result f,
          NoDup (id <$> prev) ->
          NoDup (map (fun c => id (file c)) batchCandidates) ->
          c ∈ batchCandidates ->
          groupResults !! name (file c) = Some result ->
          f ∈ prev ->
          id f = id (file c) ->
          exists f',
            f' ∈ bulkUpdate updates prev /\
            id f' = id f /\ status f' = done /\ evaluation f' = Some result /\
            xmpHandle f' = sidecarRef w dirHandle (name (file c)) result)) /\
  (forall target resized ev,
     batchCandidates = [target] ->
     resizeImage w (fileObj target) = Done resized ->
     evaluateImage w (base64 resized) (mimeType resized) = Done ev ->
     runBatch w dirHandle batchCandidates
       = Some (singleUpdate (id (file target)) ev
                 (sidecarRef w dirHandle (name (file target)) ev)) /\
     (forall prev f,
        f ∈ prev ->
        id f = id (file target) ->
        exists f',
          f' ∈ singleUpdate (id (file target)) ev
                 (sidecarRef w dirHandle (name (file target)) ev) prev /\
          id f' = id f /\ status f' = done /\ evaluation f' = Some ev /\
          xmpHandle f' = sidecarRef w dirHandle (name (file target)) ev)) /\
  (forall dir fileName result e,
     dirHandle = Some dir ->
     saveXMPInDirectory w dir fileName (generateXMPContent w result) = Fail e ->
     sidecarRef w dirHandle fileName result = None).
Proof.
  intros Hsave. split; [|split].
  - intros preparedImages groupResults Hlen Hprep Hgroup Hall.
    destruct (promiseAll_Forall2 (memberUpdate w dirHandle groupResults)
                (fun c u => exists result,
                   groupResults !! name (file c) = Some result /\
                   u = gradedUpdate w dirHandle c result) batchCandidates)
      as (updates & Hupd & Hshape).
    { intros c Hc. destruct (Hall c Hc) as [result Hres].
      exists (gradedUpdate w dirHandle c result). split; [|by exists result].
      unfold memberUpdate. rewrite Hres.
      by rewrite saveSidecar_sidecarRef by (intros dir; apply Hsave). }
    assert (Htry : batchTry w dirHandle batchCandidates = Done (GroupSuccess updates)).
    { unfold batchTry. apply Nat.ltb_lt in Hlen. rewrite Hlen, Hprep. simpl.
      rewrite Hgroup. simpl. by rewrite Hupd. }
    exists updates. split; [done|]. split; [unfold runBatch; by rewrite Htry|].
    split; [done|].
    intros prev c result f Hnd Hndc Hc Hres Hf Hid.
    exists (mergeUpdate (gradedUpdate w dirHandle c result) f).
    split; [|by rewrite Hid].
    apply bulkUpdate_member; [done| | |done|done].
    + by rewrite (Forall2_updateIds _ _ _ _ _ Hshape).
    + apply list_elem_of_lookup in Hc as [i Hi].
      destruct (Forall2_lookup_l _ _ _ _ _ Hshape Hi) as (u & Hu & result' & Hres' & ->).
      apply list_elem_of_lookup_2 in Hu. congruence.
  - intros target resized ev -> Hresize Hev.
    assert (Hrun : runBatch w dirHandle [target]
                   = Some (singleUpdate (id (file target)) ev
                             (sidecarRef w dirHandle (name (file target)) ev))).
    { unfold runBatch, batchTry. simpl. rewrite Hresize. simpl. rewrite Hev. simpl.
      by rewrite saveSidecar_sidecarRef by (intros dir; apply Hsave). }
    split; [done|]. intros prev f Hf Hid.
    exists (withDone ev (sidecarRef w dirHandle (name (file target)) ev) f).
    split; [by apply singleUpdate_member|done].
  - intros dir fileName result e -> Hfail. unfold sidecarRef. by rewrite Hfail.
Qed.
End BatchClaims.

(** The sample run with a response that lacks B.png: the catch block's
    setter runs with the error that names B.png. *)
Lemma group_missing_result_fails_all_witness :
  exists e,
    runBatch (host := utcHost) (sampleWorld burstDisk partialResponse ∅)
      (Some "photos"%string) burstRun
    = Some (markError (processingIdsOf burstRun) e) /\
    message e = Some "No result for B.png in group response"%string.
Proof.
  destruct (group_missing_result_fails_all (host := utcHost)
              (sampleWorld burstDisk partialResponse ∅) (Some "photos"%string)
              burstRun
              (map (fun c => {| preparedName := name (file c);
                                preparedBase64 := "AAAA";
                                preparedMimeType := "image/jpeg" |}) burstRun)
              partialResponse
              {| index := 1; file := pendingItem "B.png";
                 fileObj := pngFile 1500; timestamp := 1500 |})
    as (e & missing & Hin & Hnone & -> & _ & Hrun & _).
  - simpl. lia.
  - reflexivity.
  - reflexivity.
  - apply list_elem_of_In. simpl. auto.
  - vm_compute. reflexivity.
  - eexists. split; [exact Hrun|].
    apply list_elem_of_In in Hin. simpl in Hin.
    destruct Hin as [<-|[<-|[<-|[]]]]; [vm_compute in Hnone; discriminate|
                                        reflexivity|
                                        vm_compute in Hnone; discriminate].
Defined.

Example group_missing_result_pass :
  (fun s => (fun f => (name f, status f)) <$> files s) <$>
    processQueue (host := utcHost) (sampleWorld burstDisk partialResponse ∅)
      (Some "photos"%string) (loadedState burstBacklog)
  = Some [("A.png"%string, error); ("B.png"%string, error);
          ("C.png"%string, error); ("D.png"%string, pending)].
Proof. vm_compute. reflexivity. Qed.

(** The sample run with a full response and a write that fails for B.png:
    the run succeeds, B.png ends done without a sidecar reference. *)
Lemma sidecar_failure_is_swallowed_witness :
  exists updates,
    runBatch (host := utcHost) (sampleWorld burstDisk fullResponse {["B.png"%string]})
      (Some "photos"%string) burstRun
    = Some (bulkUpdate updates) /\
    (fun u => (updateId u, updateStatus u, updateXmpHandle u)) <$> updates
    = [("A.png"%string, done, Some "A.png.xmp"%string);
       ("B.png"%string, done, None);
       ("C.png"%string, done, Some "C.png.xmp"%string)].
Proof.
  destruct (sidecar_failure_is_swallowed (host := utcHost)
              (sampleWorld burstDisk fullResponse {["B.png"%string]})
              (Some "photos"%string) burstRun) as (Hgroup & _ & _).
  - intros dir fileName content. simpl.
    destruct (bool_decide (fileName ∈ ({["B.png"%string]} : gset string)));
      discriminate.
  - destruct (Hgroup
                (map (fun c => {| preparedName := name (file c);
                                  preparedBase64 := "AAAA";
                                  preparedMimeType := "image/jpeg" |}) burstRun)
                fullResponse) as (updates & Htry & Hrun & _).
    + simpl. lia.
    + reflexivity.
    + reflexivity.
    + intros c Hc. apply list_elem_of_In in Hc. simpl in Hc.
      destruct Hc as [<-|[<-|[<-|[]]]]; vm_compute; eauto.
    + exists updates. split; [exact Hrun|].
      vm_compute in Htry. injection Htry as <-. vm_compute. reflexivity.
Defined.

Example sidecar_failure_pass :
  (fun s => (fun f => (name f, status f, xmpHandle f)) <$> files s) <$>
    processQueue (host := utcHost)
      (sampleWorld burstDisk fullResponse {["B.png"%string]})
      (Some "photos"%string) (loadedState burstBacklog)
  = Some [("A.png"%string, done, Some "A.png.xmp"%string);
          ("B.png"%string, done, None);
          ("C.png"%string, done, Some "C.png.xmp"%string);
          ("D.png"%string, pending, None)].
Proof. vm_compute. reflexivity. Qed.

(** ** Ingestion *)

Section IngestionFacts.
Context `{host : Host}.

Lemma imageNames_cons entry listing :
  imageNames (entry :: listing) =
  if isImageEntry entry then entryName entry :: imageNames listing
  else imageNames listing.
Proof.
  unfold imageNames. rewrite filter_cons.
  destruct (isImageEntry entry) eqn:E.
  - by rewrite decide_True.
  - by rewrite decide_False.
Qed.

Lemma imageNames_subseteq listing x :
  x ∈ imageNames listing -> x ∈ entryName <$> listing.
Proof.
  unfold imageNames. intros Hx.
  apply list_elem_of_fmap in Hx as (entry & -> & Hin).
  apply list_elem_of_filter in Hin as [_ Hin]. by apply list_elem_of_fmap_2.
Qed.

Lemma imageNames_NoDup listing :
  NoDup (entryName <$> listing) -> NoDup (imageNames listing).
Proof.
  induction listing as [|entry listing IH]; intros Hnd.
  - constructor.
  - rewrite fmap_cons in Hnd. apply NoDup_cons in Hnd as [Hfresh Hnd].
    rewrite imageNames_cons. destruct (isImageEntry entry); [|by apply IH].
    apply NoDup_cons. split; [|by apply IH].
    intros Hin. by apply Hfresh, imageNames_subseteq.
Qed.

(** What the second pass appends: an item per image entry, in the order of
    the listing, named after its entry, pending or done. *)
Lemma collectImageFiles_items w xmpHandles entries :
  forall imageFiles result,
    collectImageFiles w xmpHandles entries imageFiles = Done result ->
    exists items,
      result = imageFiles ++ items /\
      id <$> items = imageNames entries /\
      (forall f, f ∈ items ->
         name f = id f /\ handle f = id f /\
         (status f = pending \/ status f = done)).
Proof.
  induction entries as [|entry entries IH]; intros imageFiles result Hres.
  - injection Hres as <-. exists []. rewrite app_nil_r.
    split; [done|]. split; [done|]. intros f Hf. by apply elem_of_nil in Hf.
  - rewrite imageNames_cons. unfold isImageEntry. simpl in Hres.
    destruct (entryKind entry); [|by apply IH].
    destruct (isImageName (entryName entry)); [|by apply IH].
    set (xmp := xmpHandles !! toLowerCase (baseNameOf (entryName entry))) in *.
    destruct (match xmp with Some h => parseXMP w h | None => Done None end)
      as [parsed|e|]; [|done|done].
    simpl in Hres. apply IH in Hres as (items & -> & Hids & Hok).
    eexists (_ :: items). rewrite <- app_assoc. split; [done|].
    rewrite fmap_cons, Hids. split; [done|].
    intros f Hf. apply elem_of_cons in Hf as [->|Hf]; [|by apply Hok].
    simpl. destruct parsed; auto.
Qed.

(** The backlog is the sorted list of the items of the second pass. *)
Lemma processDirectory_items w listing1 listing2 backlog :
  processDirectory w listing1 listing2 = Done backlog ->
  exists items,
    backlog = merge_sort nameLe items /\
    id <$> items = imageNames listing2 /\
    (forall f, f ∈ items ->
       name f = id f /\ handle f = id f /\
       (status f = pending \/ status f = done)).
Proof.
  intros Hdir. unfold processDirectory in Hdir.
  destruct (collectImageFiles w (collectXmpHandles listing1) listing2 [])
    as [imageFiles|e|] eqn:Hcollect; [|done|done].
  simpl in Hdir. injection Hdir as <-.
  apply collectImageFiles_items in Hcollect as (items & -> & Hids & Hok).
  by exists items.
Qed.

(** C8, amended.  The backlog that ingestion hands over holds exactly one
    item per image file of the directory: its ids are the names of the
    image entries, each once.  Two images that share a base name are two
    items. *)
Theorem processDirectory_one_item_per_image (w : World)
    (listing1 listing2 : list Entry) (backlog : list ImageFile) :
  NoDup (entryName <$> listing2) ->
  processDirectory w listing1 listing2 = Done backlog ->
  id <$> backlog ≡ₚ imageNames listing2 /\
  NoDup (id <$> backlog) /\
  (forall f, f ∈ backlog ->
     name f = id f /\ (status f = pending \/ status f = done)).
Proof.
  intros Hnd Hdir.
  apply processDirectory_items in Hdir as (items & -> & Hids & Hok).
  assert (Hperm : id <$> merge_sort nameLe items ≡ₚ imageNames listing2).
  { rewrite <- Hids. apply fmap_Permutation, merge_sort_Permutation. }
  split; [done|]. split.
  - rewrite Hperm. by apply imageNames_NoDup.
  - intros f Hf. rewrite merge_sort_Permutation in Hf.
    destruct (Hok f Hf) as (? & _ & ?). done.
Qed.
End IngestionFacts.

(** C8 as stated fails on [twinListing]: IMG.jpg and IMG.png give two
    items with the base name IMG. *)
Lemma one_base_name_two_items :
  exists backlog,
    processDirectory (host := utcHost) (sampleWorld ∅ ∅ ∅) twinListing twinListing
      = Done backlog /\
    (fun f => (id f, baseNameOf (name f))) <$> backlog
      = [("IMG.jpg"%string, "IMG"%string); ("IMG.png"%string, "IMG"%string)].
Proof. eexists. split; vm_compute; reflexivity. Qed.

Lemma processDirectory_one_item_per_image_witness :
  exists backlog,
    processDirectory (host := utcHost) (sampleWorld ∅ ∅ ∅) twinListing twinListing
      = Done backlog /\
    id <$> backlog ≡ₚ ["IMG.jpg"%string; "IMG.png"%string].
Proof.
  eexists. split; [vm_compute; reflexivity|].
  refine (proj1 (processDirectory_one_item_per_image (host := utcHost)
                   (sampleWorld ∅ ∅ ∅) twinListing twinListing _ _ _)).
  - apply NoDup_ListNoDup. repeat constructor; simpl; intuition discriminate.
  - vm_compute. reflexivity.
Defined.

(** ** Scheduler *)

Section SetterFacts.
Context `{host : Host}.

Lemma promiseAll_Done_inv {A : Type} (ps : list (Async A)) (l : list A) :
  promiseAll ps = Done l -> Forall2 (fun p a => p = Done a) ps l.
Proof.
  revert l. induction ps as [|p ps IH]; intros l.
  - intros [= <-]. constructor.
  - simpl. destruct p as [a|e|]; destruct (promiseAll ps) as [l'|e'|];
      try discriminate.
    intros [= <-]. constructor; [done|by apply IH].
Qed.

Lemma memberUpdate_Done w dirHandle groupResults c u :
  memberUpdate w dirHandle groupResults c = Done u ->
  updateId u = id (file c) /\ updateStatus u = done.
Proof.
  unfold memberUpdate. destruct (groupResults !! name (file c)); [|done].
  destruct (saveSidecar w dirHandle (name (file c)) e) as [xmp| |]; try done.
  by intros [= <-].
Qed.

Lemma bulkUpdate_ids updates :
  forall prev : list ImageFile,
    NoDup (id <$> prev) -> id <$> bulkUpdate updates prev = id <$> prev.
Proof.
  induction updates as [|u updates IH]; intros prev Hnd; [done|].
  rewrite bulkUpdate_cons by done.
  rewrite IH by (by rewrite mergeUpdate_ids). apply mergeUpdate_ids.
Qed.

(** An item that a bulk update leaves in a state other than [done] is an
    item of the old backlog that no update names. *)
Lemma bulkUpdate_inv updates :
  forall (prev : list ImageFile) f,
    NoDup (id <$> prev) ->
    (forall u, u ∈ updates -> updateStatus u = done) ->
    f ∈ bulkUpdate updates prev ->
    status f = done \/ (f ∈ prev /\ forall u, u ∈ updates -> updateId u <> id f).
Proof.
  induction updates as [|u updates IH]; intros prev f Hnd Hdone Hf.
  { right. split; [done|]. intros u Hu. by apply elem_of_nil in Hu. }
  rewrite bulkUpdate_cons in Hf by done.
  apply IH in Hf;
    [|by rewrite mergeUpdate_ids
     |intros u' Hu'; by apply Hdone, list_elem_of_further].
  destruct Hf as [?|[Hf Hother]]; [by left|].
  apply list_elem_of_fmap in Hf as (f0 & -> & Hf0).
  destruct (decide (id f0 = updateId u)) as [Heq|Hne].
  - left. simpl. apply Hdone, list_elem_of_here.
  - right. split; [done|]. intros u' Hu'.
    apply elem_of_cons in Hu' as [->|Hu']; [done|by apply Hother].
Qed.

Lemma map_ids (g : ImageFile -> ImageFile) (prev : list ImageFile) :
  (forall f, id (g f) = id f) -> id <$> map g prev = id <$> prev.
Proof.
  intros Hg. induction prev as [|f prev IH]; [done|].
  change (map g (f :: prev)) with (g f :: map g prev).
  by rewrite !fmap_cons, IH, Hg.
Qed.

Lemma markError_ids processingIds e (prev : list ImageFile) :
  id <$> markError processingIds e prev = id <$> prev.
Proof.
  apply map_ids. intros f. by destruct (bool_decide (id f ∈ processingIds)).
Qed.

Lemma markProcessing_ids processingIds (prev : list ImageFile) :
  id <$> markProcessing processingIds prev = id <$> prev.
Proof.
  apply map_ids. intros f. by destruct (bool_decide (id f ∈ processingIds)).
Qed.

Lemma singleUpdate_ids targetId ev xmp (prev : list ImageFile) :
  id <$> singleUpdate targetId ev xmp prev = id <$> prev.
Proof.
  apply map_ids. intros f. by destruct (decide (id f = targetId)).
Qed.

(** The setter of a batch keeps the ids of the backlog. *)
Lemma runBatch_ids w dirHandle batchCandidates setter (prev : list ImageFile) :
  runBatch w dirHandle batchCandidates = Some setter ->
  NoDup (id <$> prev) ->
  id <$> setter prev = id <$> prev.
Proof.
  unfold runBatch. intros Hrun Hnd.
  destruct (batchTry w dirHandle batchCandidates) as [[updates|targetId ev xmp]|e|];
    [| | |done]; injection Hrun as <-.
  - by apply bulkUpdate_ids.
  - apply singleUpdate_ids.
  - apply markError_ids.
Qed.

(** The setter of a batch leaves no item of the batch in [processing]. *)
Lemma runBatch_clears w dirHandle batchCandidates setter (prev : list ImageFile) f :
  runBatch w dirHandle batchCandidates = Some setter ->
  NoDup (id <$> prev) ->
  f ∈ setter prev ->
  status f = processing ->
  f ∈ prev /\ id f ∉ processingIdsOf batchCandidates.
Proof.
  unfold runBatch. intros Hrun Hnd Hf Hst.
  destruct (batchTry w dirHandle batchCandidates) as [[updates|targetId ev xmp]|e|]
    eqn:Htry; [| | |done]; injection Hrun as <-.
  - unfold batchTry in Htry.
    destruct (1 <? length batchCandidates)%nat.
    + destruct (promiseAll (map (prepareImage w) batchCandidates))
        as [preparedImages| |]; [|done|done]. simpl in Htry.
      destruct (evaluateImageGroup w preparedImages) as [groupResults| |];
        [|done|done]. simpl in Htry.
      destruct (promiseAll (map (memberUpdate w dirHandle groupResults)
                              batchCandidates)) as [us| |] eqn:Hall;
        [|done|done].
      injection Htry as <-. apply promiseAll_Done_inv in Hall.
      apply bulkUpdate_inv in Hf as [Hd|[Hin Hother]]; [congruence| |done|].
      * split; [done|]. intros Hid. unfold processingIdsOf in Hid.
        apply elem_of_list_to_set, list_elem_of_In, in_map_iff in Hid
          as (c & Hc & Hin').
        apply list_elem_of_In, list_elem_of_lookup in Hin' as [i Hi].
        assert (Hi' : map (memberUpdate w dirHandle groupResults) batchCandidates
                      !! i = Some (memberUpdate w dirHandle groupResults c)).
        { change (map ?f ?l) with (f <$> l). by rewrite list_lookup_fmap, Hi. }
        destruct (Forall2_lookup_l _ _ _ _ _ Hall Hi') as (u & Hu & Hdone).
        apply memberUpdate_Done in Hdone as [Hidu _].
        apply (Hother u); [by apply list_elem_of_lookup_2 in Hu|congruence].
      * intros u Hu. apply list_elem_of_lookup in Hu as [i Hi].
        destruct (Forall2_lookup_r _ _ _ _ _ Hall Hi) as (p & Hp & Hdone).
        change (map ?f ?l) with (f <$> l) in Hp.
        rewrite list_lookup_fmap in Hp.
        destruct (batchCandidates !! i) as [c|]; [|done]. injection Hp as <-.
        by apply memberUpdate_Done in Hdone as [_ ?].
    + destruct (head batchCandidates) as [target|]; [|done].
      destruct (resizeImage w (fileObj target)); [|done|done]. simpl in Htry.
      destruct (evaluateImage w _ _); [|done|done]. simpl in Htry.
      by destruct (saveSidecar w dirHandle _ _).
  - unfold singleUpdate in Hf.
    apply list_elem_of_In, in_map_iff in Hf as (f0 & <- & Hf0).
    apply list_elem_of_In in Hf0.
    destruct (decide (id f0 = targetId)) as [Heq|Hne]; [done|].
    split; [done|].
    unfold batchTry in Htry. destruct (1 <? length batchCandidates)%nat eqn:Hlen.
    { destruct (promiseAll (map (prepareImage w) batchCandidates));
        [|done|done]. simpl in Htry.
      destruct (evaluateImageGroup w _); [|done|done]. simpl in Htry.
      by destruct (promiseAll (map (memberUpdate w dirHandle _) batchCandidates)). }
    apply Nat.ltb_ge in Hlen.
    destruct batchCandidates as [|target [|? ?]]; [done| |simpl in Hlen; lia].
    simpl in Htry.
    destruct (resizeImage w (fileObj target)); [|done|done]. simpl in Htry.
    destruct (evaluateImage w _ _); [|done|done]. simpl in Htry.
    destruct (saveSidecar w dirHandle _ _); [|done|done].
    injection Htry as <- Hev Hxmp. unfold processingIdsOf.
    intros Hin. by apply elem_of_list_to_set, list_elem_of_singleton in Hin.
  - unfold markError in Hf.
    apply list_elem_of_In, in_map_iff in Hf as (f0 & <- & Hf0).
    apply list_elem_of_In in Hf0.
    destruct (bool_decide (id f0 ∈ processingIdsOf batchCandidates)) eqn:E;
      [done|].
    by apply bool_decide_eq_false in E.
Qed.
End SetterFacts.

Section SchedulerFacts.
Context `{host : Host}.

Lemma singleFlight_lookup s k a :
  singleFlight s -> inFlight s !! k = Some a ->
  processingRef s = true /\ inFlight s = [a] /\ k = 0%nat.
Proof.
  intros [[_ Hnil]|[Hg [a' Ha]]] Hk; rewrite ?Hnil, ?Ha in Hk; [done|].
  destruct k as [|k]; [|done]. injection Hk as ->. done.
Qed.

Lemma NoDup_ids_filter (P : ImageFile -> Prop) `{forall f, Decision (P f)}
    (l : list ImageFile) :
  NoDup (id <$> l) -> NoDup (id <$> filter P l).
Proof.
  induction l as [|f l IH]; intros Hnd; [done|].
  rewrite fmap_cons in Hnd. apply NoDup_cons in Hnd as [Hfresh Hnd].
  rewrite filter_cons. destruct (decide (P f)); [|by apply IH].
  rewrite fmap_cons. apply NoDup_cons. split; [|by apply IH].
  intros Hin. apply Hfresh.
  apply list_elem_of_fmap in Hin as (f' & -> & Hf').
  apply list_elem_of_filter in Hf' as [_ Hf']. by apply list_elem_of_fmap_2.
Qed.

Lemma tick_singleFlight dirHandle s :
  singleFlight s -> singleFlight (tick dirHandle s).
Proof.
  intros Hsf. unfold tick.
  destruct (processingRef s || negb (isProcessingRef s)) eqn:Hidle; [done|].
  destruct (findIndexPending (filesRef s)) as [nextFileIndex|]; [|done].
  apply orb_false_elim in Hidle as [Hg _].
  destruct Hsf as [[_ Hnil]|[? _]]; [|congruence].
  right. simpl. rewrite Hnil. eauto.
Qed.

Lemma detected_singleFlight k w s s' :
  singleFlight s -> detected k w s = Some s' -> singleFlight s'.
Proof.
  intros Hsf. unfold detected.
  destruct (inFlight s !! k) as [[dirHandle currentFiles nextFileIndex|]|] eqn:Hk;
    [|done|done].
  destruct (singleFlight_lookup _ _ _ Hsf Hk) as (Hg & Hone & ->).
  destruct (burstDetection w currentFiles nextFileIndex) as [batchCandidates|];
    [|done]. simpl. intros [= <-].
  right. simpl. rewrite Hone. eauto.
Qed.

Lemma completed_singleFlight k w s s' :
  singleFlight s -> completed k w s = Some s' -> singleFlight s'.
Proof.
  intros Hsf. unfold completed.
  destruct (inFlight s !! k) as [[|dirHandle batchCandidates]|] eqn:Hk;
    [done| |done].
  destruct (singleFlight_lookup _ _ _ Hsf Hk) as (Hg & Hone & ->).
  destruct (runBatch w dirHandle batchCandidates) as [setter|]; [|done].
  simpl. intros [= <-]. left. simpl. by rewrite Hone.
Qed.

(** Every handler keeps the guard and the suspended calls in step. *)
Lemma step_singleFlight s ev s' :
  singleFlight s -> step s ev = Some s' -> singleFlight s'.
Proof.
  intros Hsf.
  destruct ev as [dirHandle|k w|k w| |b| |w listing1 listing2|fileId|next]; simpl.
  - intros [= <-]. by apply tick_singleFlight.
  - by apply detected_singleFlight.
  - by apply completed_singleFlight.
  - intros [= <-]. exact Hsf.
  - intros [= <-]. exact Hsf.
  - intros [= <-]. exact Hsf.
  - destruct (decide (NoDup (entryName <$> listing2))); [|done].
    destruct (processDirectory w listing1 listing2); [| |done];
      intros [= <-]; exact Hsf.
  - intros [= <-]. exact Hsf.
  - intros [= <-]. exact Hsf.
Qed.

Lemma run_singleFlight trace :
  forall s s', singleFlight s -> run s trace = Some s' -> singleFlight s'.
Proof.
  induction trace as [|ev trace IH]; intros s s' Hsf; simpl.
  - by intros [= <-].
  - destruct (step s ev) as [s1|] eqn:Hstep; [|done]. simpl.
    apply IH. by eapply step_singleFlight.
Qed.

Lemma reachable_singleFlight s : reachable s -> singleFlight s.
Proof.
  intros [trace Hrun]. apply (run_singleFlight trace initialState); [|done].
  by left.
Qed.

Lemma tick_invariant dirHandle s :
  schedulerInvariant s -> schedulerInvariant (tick dirHandle s).
Proof.
  intros (Hsf & Hmarks & Hnd).
  split; [by apply tick_singleFlight|]. revert Hmarks Hnd. unfold tick.
  destruct (processingRef s || negb (isProcessingRef s)) eqn:Hidle; [done|].
  destruct (findIndexPending (filesRef s)) as [nextFileIndex|]; [|done].
  apply orb_false_elim in Hidle as [Hg _]. intros Hmarks Hnd.
  split; [|done]. intros f Hf Hst. simpl in Hf.
  destruct (Hmarks f Hf Hst) as (? & ? & Hone & _).
  destruct Hsf as [[_ ?]|[? _]]; congruence.
Qed.

Lemma detected_invariant k w s s' :
  schedulerInvariant s -> detected k w s = Some s' -> schedulerInvariant s'.
Proof.
  intros (Hsf & Hmarks & Hnd) Hdet.
  split; [by eapply detected_singleFlight|]. revert Hdet. unfold detected.
  destruct (inFlight s !! k) as [[dirHandle currentFiles nextFileIndex|]|] eqn:Hk;
    [|done|done].
  destruct (singleFlight_lookup _ _ _ Hsf Hk) as (Hg & Hone & ->).
  destruct (burstDetection w currentFiles nextFileIndex) as [batchCandidates|];
    [|done]. simpl. intros [= <-].
  split.
  - intros f Hf Hst. simpl in *. rewrite Hone. simpl.
    exists dirHandle, batchCandidates. split; [done|].
    unfold markProcessing in Hf.
    apply list_elem_of_In, in_map_iff in Hf as (f0 & <- & Hf0).
    apply list_elem_of_In in Hf0.
    destruct (bool_decide (id f0 ∈ processingIdsOf batchCandidates)) eqn:E.
    + by apply bool_decide_eq_true in E.
    + destruct (Hmarks f0 Hf0 Hst) as (? & ? & ? & _). congruence.
  - simpl. by rewrite markProcessing_ids.
Qed.

Lemma completed_invariant k w s s' :
  schedulerInvariant s -> completed k w s = Some s' -> schedulerInvariant s'.
Proof.
  intros (Hsf & Hmarks & Hnd) Hcomp.
  split; [by eapply completed_singleFlight|]. revert Hcomp. unfold completed.
  destruct (inFlight s !! k) as [[|dirHandle batchCandidates]|] eqn:Hk;
    [done| |done].
  destruct (singleFlight_lookup _ _ _ Hsf Hk) as (Hg & Hone & ->).
  destruct (runBatch w dirHandle batchCandidates) as [setter|] eqn:Hrun;
    [|done]. simpl. intros [= <-].
  split.
  - intros f Hf Hst. simpl in Hf.
    destruct (runBatch_clears _ _ _ _ _ _ Hrun Hnd Hf Hst) as [Hold Hnot].
    destruct (Hmarks f Hold Hst) as (dh & bc & Hbc & Hid).
    rewrite Hone in Hbc. injection Hbc as <- <-. done.
  - simpl. by rewrite (runBatch_ids _ _ _ _ _ Hrun Hnd).
Qed.

(** The scheduler, ingestion and deletion keep the marks with the batch
    in flight. *)
Lemma step_invariant s ev s' :
  ownSetter ev ->
  schedulerInvariant s -> step s ev = Some s' -> schedulerInvariant s'.
Proof.
  intros Hown Hinv.
  destruct ev as [dirHandle|k w|k w| |b| |w listing1 listing2|fileId|next]; simpl.
  - intros [= <-]. by apply tick_invariant.
  - by apply detected_invariant.
  - by apply completed_invariant.
  - intros [= <-]. exact Hinv.
  - intros [= <-]. exact Hinv.
  - intros [= <-]. destruct Hinv as (Hsf & _ & _).
    split; [exact Hsf|]. split; [|constructor].
    intros f Hf. by apply elem_of_nil in Hf.
  - destruct (decide (NoDup (entryName <$> listing2))) as [Hnames|]; [|done].
    destruct (processDirectory w listing1 listing2) as [backlog|e|] eqn:Hdir;
      [| |done]; intros [= <-]; [|exact Hinv].
    destruct Hinv as (Hsf & _ & _).
    apply processDirectory_items in Hdir as (items & -> & Hids & Hok).
    split; [exact Hsf|]. split; simpl.
    + intros f Hf Hst. simpl in Hf. rewrite merge_sort_Permutation in Hf.
      destruct (Hok f Hf) as (_ & _ & [?|?]); congruence.
    + rewrite merge_sort_Permutation, Hids. by apply imageNames_NoDup.
  - intros [= <-]. destruct Hinv as (Hsf & Hmarks & Hnd).
    split; [exact Hsf|]. split; simpl.
    + intros f Hf Hst. simpl in Hf. apply list_elem_of_filter in Hf as [_ Hf].
      by apply Hmarks.
    + by apply NoDup_ids_filter.
  - done.
Qed.

(** Without the setters of the other handlers, every item marked
    [processing] belongs to the batch of the one call in flight. *)
Lemma run_marksOwned trace :
  forall s s',
    Forall ownSetter trace ->
    schedulerInvariant s -> run s trace = Some s' -> schedulerInvariant s'.
Proof.
  induction trace as [|ev trace IH]; intros s s' Hown Hinv; simpl.
  - by intros [= <-].
  - apply Forall_cons in Hown as [Hev Hown].
    destruct (step s ev) as [s1|] eqn:Hstep; [|done]. simpl.
    apply IH; [done|]. by eapply step_invariant.
Qed.
End SchedulerFacts.

Section SchedulerClaims.
Context `{host : Host}.




(** Reached by the scheduler, ingestion and deletion alone, a state has
    every item marked [processing] in the batch of the call in flight. *)
Lemma marks_owned trace s :
  Forall ownSetter trace ->
  run initialState trace = Some s ->
  marksOwned s.
Proof.
  intros Hown Hrun.
  destruct (run_marksOwned trace initialState s Hown) as (_ & Hmarks & _);
    [|done|done].
  split; [by left|]. split; [|constructor].
  intros f Hf. by apply elem_of_nil in Hf.
Qed.

(** C9, amended.  Opening a folder empties the backlog whatever the guard
    says, and the loaded backlog replaces the current one likewise;
    neither touches the guard or the call in flight, and the batch of that
    call still ends, its setter applied to the backlog it then finds. *)
Theorem open_folder_ignores_guard (s : AppState) :
  step s OpenFolder = Some (setFiles s []) /\
  files (setFiles s []) = [] /\
  (forall next,
     processingRef (setFiles s next) = processingRef s /\
     inFlight (setFiles s next) = inFlight s) /\
  (forall w listing1 listing2 backlog,
     NoDup (entryName <$> listing2) ->
     processDirectory w listing1 listing2 = Done backlog ->
     step s (FolderLoaded w listing1 listing2) = Some (setFiles s backlog)) /\
  (forall k w dirHandle batchCandidates setter next,
     inFlight s !! k = Some (Grading dirHandle batchCandidates) ->
     runBatch w dirHandle batchCandidates = Some setter ->
     step (setFiles s next) (Completed k w) =
       Some {| files := setter next; filesRef := filesRef s;
               isProcessingRef := isProcessingRef s; processingRef := false;
               inFlight := delete k (inFlight s);
               retries := retries s ++ [500] |}).
Proof.
  split; [done|]. split; [done|]. split; [done|]. split.
  - intros w listing1 listing2 backlog Hnd Hdir. simpl.
    rewrite decide_True by done. by rewrite Hdir.
  - intros k w dirHandle batchCandidates setter next Hk Hrun.
    simpl. unfold completed. simpl. by rewrite Hk, Hrun.
Qed.
End SchedulerClaims.

Lemma busyState_reachable : run (host := utcHost) initialState busyTrace = Some busyState.
Proof. vm_compute. reflexivity. Qed.



(** C9 as stated fails in [busyState]: the guard is held, a batch is in
    flight, and opening a folder empties the backlog all the same. *)
Lemma open_folder_discards_backlog_in_flight :
  reachable (host := utcHost) busyState /\
  processingRef busyState = true /\
  inFlight busyState = [Grading None burstRun] /\
  length (files busyState) = 4%nat /\
  exists s',
    step (host := utcHost) busyState OpenFolder = Some s' /\
    files s' = [] /\ processingRef s' = true /\
    inFlight s' = [Grading None burstRun].
Proof.
  split; [exists busyTrace; exact busyState_reachable|].
  split; [done|]. split; [done|]. split; [done|].
  eexists. split; [reflexivity|]. done.
Qed.

Lemma open_folder_ignores_guard_witness :
  step (host := utcHost) busyState
    (FolderLoaded (sampleWorld ∅ ∅ ∅) twinListing twinListing)
  = Some (setFiles busyState
            [ {| id := "IMG.jpg"; handle := "IMG.jpg"; name := "IMG.jpg";
                 imageType := "image"; status := pending; evaluation := None;
                 xmpHandle := None; errorMessage := None |};
              {| id := "IMG.png"; handle := "IMG.png"; name := "IMG.png";
                 imageType := "image"; status := pending; evaluation := None;
                 xmpHandle := None; errorMessage := None |} ]).
Proof.
  refine (proj1 (proj2 (proj2 (proj2
    (open_folder_ignores_guard (host := utcHost) busyState))))
    (sampleWorld ∅ ∅ ∅) twinListing twinListing _ _ _).
  - apply NoDup_ListNoDup. repeat constructor; simpl; intuition discriminate.
  - vm_compute. reflexivity.
Defined.

(** * Further properties *)

(** ** Marker scan *)

Section ScanFacts.
Context `{host : Host}.

(** X1. In a JPEG, whatever segments the scan passes over before it (APP0,
    APP1 without the Exif signature, Exif segments without a date, any
    other marker segment), the first Exif segment with a valid 0x9003
    entry gives the result. *)
Theorem getDateTaken_after_skipped_segments (file : File) (bytes : list byte)
    (view : DataView) (offset app1Length : Z) (le : bool)
    (dirStart entries k t : Z) :
  isJpegType (type file) = true ->
  content file = Some bytes ->
  view = slice64K bytes ->
  getUint16 view 0 false = Some 0xFFD8 ->
  skipsTo view 2 offset ->
  getUint16 view offset false = Some 0xFFE1 ->
  getUint16 view (offset + 2) false = Some app1Length ->
  ExifHeaderAt view (offset + 2) le dirStart entries ->
  0 <= k < entries ->
  (forall j, 0 <= j < k -> entrySkipped view (offset + 2 + 8) dirStart le j) ->
  DateEntryAt view (offset + 2 + 8) dirStart le k t ->
  getDateTaken file = Fulfilled t.
Proof.
  intros Hty Hc Hview Hsoi Hskips Hm Hlen Hhdr Hk Hbefore Hdate.
  rewrite (getDateTaken_parse file bytes Hty Hc), <- Hview. clear Hview Hc.
  unfold parseExif. rewrite Hsoi. simpl negb. cbn iota.
  destruct (scan_skipsTo _ _ _ Hskips) as [_ ->]; [lia|].
  rewrite (scan_exif _ _ _ _ _ _ Hm Hlen Hhdr).
  rewrite (walkIFD_first_valid view (offset + 2 + 8) dirStart le (Z.to_nat k)
             (Z.to_nat entries) 0 t); [done|lia| |].
  - intros j Hj. apply Hbefore. lia.
  - replace (0 + Z.of_nat (Z.to_nat k)) with k by lia. done.
Qed.

(** X2. An Exif segment whose TIFF magic number is wrong, or whose first
    IFD offset is below 8, ends the scan with the last-modified time:
    segments behind it are not looked at, unlike behind an Exif segment
    that merely holds no valid date. *)
Theorem getDateTaken_bad_tiff_header (file : File) (bytes : list byte)
    (view : DataView) (offset app1Length byteOrder magic : Z) :
  isJpegType (type file) = true ->
  content file = Some bytes ->
  view = slice64K bytes ->
  getUint16 view 0 false = Some 0xFFD8 ->
  skipsTo view 2 offset ->
  getUint16 view offset false = Some 0xFFE1 ->
  getUint16 view (offset + 2) false = Some app1Length ->
  getUint32 view (offset + 2 + 2) false = Some 0x45786966 ->
  getUint16 view (offset + 2 + 8) false = Some byteOrder ->
  getUint16 view (offset + 2 + 8 + 2) (byteOrder =? 0x4949) = Some magic ->
  (magic <> 0x002A \/
   exists firstIFDOffset,
     getUint32 view (offset + 2 + 8 + 4) (byteOrder =? 0x4949) = Some firstIFDOffset /\
     firstIFDOffset < 8) ->
  getDateTaken file = Fulfilled (lastModified file).
Proof.
  intros Hty Hc Hview Hsoi Hskips Hm Hlen Hsig Hbo Hmagic Hbad.
  rewrite (getDateTaken_parse file bytes Hty Hc), <- Hview. clear Hview Hc.
  unfold parseExif. rewrite Hsoi. simpl negb. cbn iota.
  destruct (scan_skipsTo _ _ _ Hskips) as [_ ->]; [lia|].
  pose proof (getUint16_in_range _ _ _ _ Hm) as [_ Hin].
  assert (Hseg : exifSegment view (offset + 2) = ResolveFallback).
  { unfold exifSegment. rewrite Hbo. simpl. rewrite Hmagic. simpl.
    destruct (magic =? 42) eqn:E; [|done]. simpl.
    destruct Hbad as [Hne|(firstIFDOffset & Hifd & Hsmall)].
    - apply Z.eqb_eq in E. done.
    - rewrite Hifd. simpl. apply Z.ltb_lt in Hsmall. by rewrite Hsmall. }
  simpl. destruct (offset <? byteLength view) eqn:Hlt;
    [|apply Z.ltb_ge in Hlt; lia].
  simpl. rewrite Hm. simpl. rewrite Hlen, Hsig. simpl. by rewrite Hseg.
Qed.
End ScanFacts.

Ltac by_evaluation := vm_compute; reflexivity.
Ltac split_conjunctions := repeat match goal with |- _ /\ _ => split end.

Lemma getDateTaken_after_skipped_segments_witness :
  getDateTaken (host := utcHost) (jpegFile 42 jfifExifJpeg) = Fulfilled 1698244200000.
Proof.
  apply (getDateTaken_after_skipped_segments (host := utcHost)
           (jpegFile 42 jfifExifJpeg) jfifExifJpeg (slice64K jfifExifJpeg)
           46 54 false 64 1 0 1698244200000).
  - by_evaluation.
  - by_evaluation.
  - exact eq_refl.
  - by_evaluation.
  - apply (skipsTo_next _ 2 14).
    { exists 0xFFE0, 10. split_conjunctions; [by_evaluation..|].
      left. split; [discriminate|by_evaluation]. }
    apply (skipsTo_next _ 14 46); [|apply skipsTo_here].
    exists 0xFFE1, 30. split_conjunctions; [by_evaluation..|].
    right. left. split; [by_evaluation|].
    exists 0x68747470. split; [by_evaluation|discriminate].
  - by_evaluation.
  - by_evaluation.
  - exists 0x4D4D, 8. split_conjunctions; first [by_evaluation | lia].
  - lia.
  - intros j Hj. lia.
  - split; [by_evaluation|].
    exists 26, "2023:10:25 14:30:00"%string. split_conjunctions; by_evaluation.
Defined.

Lemma getDateTaken_bad_tiff_header_witness :
  getDateTaken (host := utcHost) (jpegFile 42 badMagicJpeg) = Fulfilled 42.
Proof.
  apply (getDateTaken_bad_tiff_header (host := utcHost)
           (jpegFile 42 badMagicJpeg) badMagicJpeg (slice64K badMagicJpeg)
           2 22 0x4D4D 43).
  - by_evaluation.
  - by_evaluation.
  - exact eq_refl.
  - by_evaluation.
  - apply skipsTo_here.
  - by_evaluation.
  - by_evaluation.
  - by_evaluation.
  - by_evaluation.
  - by_evaluation.
  - left. discriminate.
Defined.

(** ** Date text *)

(** X3. The rewrite of the date separators keeps the length of the text
    and is idempotent: a text it has rewritten no longer starts with the
    pattern (the separators are slashes now), so a second application
    leaves it as it is. *)
Theorem formatDate_shape (s : string) :
  String.length (formatDate s) = String.length s /\
  formatDate (formatDate s) = formatDate s.
Proof.
  destruct s as [|y1 [|y2 [|y3 [|y4 [|c1 [|m1 [|m2 [|c2 [|d1 [|d2 rest]]]]]]]]]];
    try (split; reflexivity).
  unfold formatDate at 1 3 4.
  destruct (isDigit y1 && isDigit y2 && isDigit y3 && isDigit y4 && isColon c1
            && isDigit m1 && isDigit m2 && isColon c2 && isDigit d1 && isDigit d2)
    eqn:Hmatch.
  - split; [reflexivity|].
    unfold formatDate.
    replace (isColon "/") with false by reflexivity.
    destruct (isDigit y1), (isDigit y2), (isDigit y3), (isDigit y4); reflexivity.
  - split; [reflexivity|]. unfold formatDate. by rewrite Hmatch.
Qed.

(** ** Runs of the burst grouper *)

Section BurstRunFacts.
Context `{host : Host}.

Lemma burstTimes_singleton w c :
  readTimestamp w (file c) = Done (fileObj c, timestamp c) -> burstTimes w [c].
Proof.
  intros Hread. split; [|split].
  - intros i a b _ Hb. by destruct i.
  - intros start x Hh Hx. injection Hh as <-.
    apply list_elem_of_singleton in Hx as ->. rewrite Z.sub_diag. simpl. lia.
  - intros x Hx. by apply list_elem_of_singleton in Hx as ->.
Qed.

Lemma burstTimes_snoc w run prev start c :
  burstTimes w run -> last run = Some prev -> head run = Some start ->
  Z.abs (timestamp c - timestamp prev) < 2000 ->
  Z.abs (timestamp c - timestamp start) < 4000 ->
  readTimestamp w (file c) = Done (fileObj c, timestamp c) ->
  burstTimes w (run ++ [c]).
Proof.
  intros (Hn & Ht & Hr) Hlast Hhead Hnb Htot Hread. split; [|split].
  - intros i a b Ha Hb.
    assert (Hi : (S i < length (run ++ [c]))%nat) by (apply lookup_lt_is_Some; eauto).
    rewrite length_app in Hi. simpl in Hi.
    destruct (decide (S i < length run)%nat) as [Hlt|Hge].
    + rewrite lookup_app_l in Ha by lia. rewrite lookup_app_l in Hb by lia. eauto.
    + assert (Hsi : S i = length run) by lia.
      rewrite lookup_app_l in Ha by lia.
      rewrite lookup_app_r in Hb by lia.
      rewrite Hsi, Nat.sub_diag in Hb. injection Hb as <-.
      rewrite last_lookup, <- Hsi in Hlast. simpl in Hlast.
      rewrite Ha in Hlast. by injection Hlast as ->.
  - intros start' x Hh Hx.
    destruct run as [|r0 run']; [done|]. simpl in Hh, Hhead.
    injection Hh as <-. injection Hhead as ->.
    apply elem_of_app in Hx as [Hx|Hx]; [by apply Ht|].
    by apply list_elem_of_singleton in Hx as ->.
  - intros x Hx. apply elem_of_app in Hx as [Hx|Hx]; [by apply Hr|].
    by apply list_elem_of_singleton in Hx as ->.
Qed.

Lemma lookAheadLoop_times fuel w currentFiles nextFileIndex :
  forall batchCandidates lookAhead,
    burstTimes w batchCandidates ->
    burstTimes w
      (lookAheadLoop fuel w currentFiles nextFileIndex batchCandidates lookAhead).1.
Proof.
  induction fuel as [|fuel IH]; intros batchCandidates lookAhead Hinv; [done|].
  simpl.
  destruct (_ && _); [|done]. simpl.
  destruct (currentFiles !! _) as [candidateFile|]; [|done].
  destruct (bool_decide _); [|done]. simpl.
  destruct (readTimestamp w candidateFile) as [[fObj ts]|e|] eqn:Hread; [|done|done].
  destruct (last batchCandidates) as [prev|] eqn:Hlast; [|done].
  destruct (head batchCandidates) as [start|] eqn:Hhead; [|done].
  destruct (Z.abs (ts - timestamp prev) <? 2000) eqn:Hnb; [|done].
  destruct (Z.abs (ts - timestamp start) <? 4000) eqn:Htot; [|done].
  simpl. apply IH.
  apply (burstTimes_snoc w batchCandidates prev start); try done; simpl; lia.
Qed.

(** X4. Whatever run burst detection returns, neighbours in it were taken
    less than two seconds apart, every member less than four seconds after
    or before the first, and each member carries the file object and the
    capture time that reading its item gave. *)
Theorem burst_run_times (w : World) (currentFiles : list ImageFile)
    (nextFileIndex : nat) (run : list Candidate) :
  burstDetection w currentFiles nextFileIndex = Some run ->
  (forall i a b, run !! i = Some a -> run !! S i = Some b ->
     Z.abs (timestamp b - timestamp a) < 2000) /\
  (forall start c, head run = Some start -> c ∈ run ->
     Z.abs (timestamp c - timestamp start) < 4000) /\
  (forall c, c ∈ run -> readTimestamp w (file c) = Done (fileObj c, timestamp c)).
Proof.
  intros Hdet.
  assert (Hnil : burstTimes w []).
  { split; [|split]; [intros i a b Ha; done|intros start c Hh; done|].
    intros c Hc. by apply elem_of_nil in Hc. }
  enough (Hinv : burstTimes w (burstTry w currentFiles nextFileIndex).1).
  { unfold burstDetection in Hdet.
    destruct (burstTry w currentFiles nextFileIndex) as [run' [[]|e|]];
      [| |done]; injection Hdet as <-; exact Hinv. }
  unfold burstTry.
  destruct (currentFiles !! nextFileIndex) as [firstFile|]; [|done].
  destruct (readTimestamp w firstFile) as [[firstFileObj firstTimestamp]|e|] eqn:Hread;
    [|done|done].
  apply lookAheadLoop_times. by apply burstTimes_singleton.
Qed.

Lemma lookAheadLoop_stops fuel w currentFiles nextFileIndex :
  forall batchCandidates run r,
    batchCandidates <> [] ->
    (length batchCandidates <= MAX_BATCH_SIZE)%nat ->
    lookAheadLoop fuel w currentFiles nextFileIndex batchCandidates
      (length batchCandidates) = (run, r) ->
    r <> Hang ->
    runStops w currentFiles nextFileIndex run.
Proof.
  induction fuel as [|fuel IH]; intros batchCandidates run r Hne Hlen Hloop Hr.
  { simpl in Hloop. by injection Hloop as _ <-. }
  simpl in Hloop.
  destruct (length batchCandidates <? MAX_BATCH_SIZE)%nat eqn:Hmax.
  2:{ injection Hloop as <- _. left. apply Nat.ltb_ge in Hmax. lia. }
  destruct (nextFileIndex + length batchCandidates <? length currentFiles)%nat eqn:Hin.
  2:{ injection Hloop as <- _. right. left. apply Nat.ltb_ge in Hin. lia. }
  simpl in Hloop. apply Nat.ltb_lt in Hmax. apply Nat.ltb_lt in Hin.
  destruct (currentFiles !! (nextFileIndex + length batchCandidates)%nat)
    as [candidateFile|] eqn:Hc.
  2:{ apply lookup_ge_None in Hc. lia. }
  destruct (bool_decide (status candidateFile = pending)) eqn:Hp.
  2:{ injection Hloop as <- _. apply bool_decide_eq_false in Hp.
      right. right. exists candidateFile. auto. }
  simpl in Hloop.
  destruct (readTimestamp w candidateFile) as [[fObj ts]|e|] eqn:Hread.
  3:{ by injection Hloop as _ <-. }
  2:{ injection Hloop as <- _. right. right. exists candidateFile. eauto. }
  destruct (last batchCandidates) as [prev|] eqn:Hlast.
  2:{ apply last_None in Hlast. done. }
  destruct (head batchCandidates) as [start|] eqn:Hhead.
  2:{ apply head_None in Hhead. done. }
  destruct ((Z.abs (ts - timestamp prev) <? 2000)
            && (Z.abs (ts - timestamp start) <? 4000)) eqn:Hcrit.
  - set (c := {| index := (nextFileIndex + length batchCandidates)%nat;
                 file := candidateFile; fileObj := fObj; timestamp := ts |}) in *.
    apply (IH (batchCandidates ++ [c]) run r).
    + by destruct batchCandidates.
    + rewrite length_app. simpl. lia.
    + rewrite length_app. simpl. exact Hloop.
    + exact Hr.
  - injection Hloop as <- _. right. right. exists candidateFile.
    split; [done|]. right. right. exists fObj, ts, prev, start.
    split_conjunctions; try done.
    apply andb_false_iff in Hcrit. intros [? ?].
    destruct Hcrit as [Hcrit|Hcrit]; apply Z.ltb_ge in Hcrit; lia.
Qed.

(** X5. When the first pending item can be read, the run starts with it,
    and it ends where it does for one of these reasons only: it holds four
    members, the backlog ends behind it, or the item behind it is not
    pending, cannot be read, or was taken two seconds or more from the
    last member or four seconds or more from the first. *)
Theorem burst_run_maximal (w : World) (currentFiles : list ImageFile)
    (nextFileIndex : nat) (firstFile : ImageFile) (firstFileObj : File)
    (firstTimestamp : Z) (run : list Candidate) :
  currentFiles !! nextFileIndex = Some firstFile ->
  readTimestamp w firstFile = Done (firstFileObj, firstTimestamp) ->
  burstDetection w currentFiles nextFileIndex = Some run ->
  head run = Some {| index := nextFileIndex; file := firstFile;
                     fileObj := firstFileObj; timestamp := firstTimestamp |} /\
  runStops w currentFiles nextFileIndex run.
Proof.
  intros Hfirst Hread Hdet.
  unfold burstDetection, burstTry in Hdet. rewrite Hfirst, Hread in Hdet.
  set (c := {| index := nextFileIndex; file := firstFile;
               fileObj := firstFileObj; timestamp := firstTimestamp |}) in *.
  destruct (lookAheadLoop (length currentFiles) w currentFiles nextFileIndex [c] 1)
    as [run' r] eqn:Hloop.
  assert (Hrun : run' = run) by (destruct r as [[]|e|]; congruence).
  assert (Hr : r <> Hang) by (destruct r as [[]|e|]; congruence).
  subst run'. split.
  - pose proof (lookAheadLoop_prefix (length currentFiles) w currentFiles
                  nextFileIndex [c] 1%nat) as Hpre.
    rewrite Hloop in Hpre. destruct Hpre as [rest Hpre]. simpl in Hpre.
    by rewrite Hpre.
  - apply (lookAheadLoop_stops (length currentFiles) w currentFiles nextFileIndex
             [c] run r); try done. simpl. unfold MAX_BATCH_SIZE. lia.
Qed.
End BurstRunFacts.

Lemma burst_run_times_witness :
  Z.abs (3200 - 1500) < 2000 /\
  readTimestamp (host := utcHost) (sampleWorld burstDisk ∅ ∅) (pendingItem "C.png")
    = Done (pngFile 3200, 3200).
Proof.
  destruct (burst_run_times (host := utcHost) (sampleWorld burstDisk ∅ ∅)
              burstBacklog 0 burstRun) as (Hn & _ & Hr).
  - by_evaluation.
  - split.
    + apply (Hn 1%nat {| index := 1; file := pendingItem "B.png";
                         fileObj := pngFile 1500; timestamp := 1500 |}
                      {| index := 2; file := pendingItem "C.png";
                         fileObj := pngFile 3200; timestamp := 3200 |});
        reflexivity.
    + apply (Hr {| index := 2; file := pendingItem "C.png";
                   fileObj := pngFile 3200; timestamp := 3200 |}).
      unfold burstRun. do 2 apply list_elem_of_further. apply list_elem_of_here.
Defined.

(** In the sample backlog the run A, B, C ends because D was taken 3.8
    seconds after C. *)
Lemma burst_run_maximal_witness :
  runStops (host := utcHost) (sampleWorld burstDisk ∅ ∅) burstBacklog 0 burstRun.
Proof.
  apply (burst_run_maximal (host := utcHost) (sampleWorld burstDisk ∅ ∅)
           burstBacklog 0 (pendingItem "A.png") (pngFile 1000) 1000 burstRun).
  - reflexivity.
  - by_evaluation.
  - by_evaluation.
Defined.

(** ** Failures and setters of a batch *)

Section BatchRunFacts.
Context `{host : Host}.

Lemma prepareImage_Fail w c e :
  prepareImage w c = Fail e <-> resizeImage w (fileObj c) = Fail e.
Proof.
  unfold prepareImage. destruct (resizeImage w (fileObj c)); simpl; split; congruence.
Qed.

(** X6. In a run of more than one member, one member that cannot be
    resized, or a grading service that rejects the group, fails the whole
    batch: the error is the one of a failing resize (or of the service),
    and every item of the batch ends in [error] with its message. *)
Theorem group_failure_fails_all (w : World)
    (dirHandle : option FileSystemDirectoryHandle)
    (batchCandidates : list Candidate) :
  (1 < length batchCandidates)%nat ->
  (exists c e, c ∈ batchCandidates /\ resizeImage w (fileObj c) = Fail e) \/
  (exists preparedImages e,
     promiseAll (map (prepareImage w) batchCandidates) = Done preparedImages /\
     evaluateImageGroup w preparedImages = Fail e) ->
  exists e,
    ((exists c, c ∈ batchCandidates /\ resizeImage w (fileObj c) = Fail e) \/
     (exists preparedImages,
        promiseAll (map (prepareImage w) batchCandidates) = Done preparedImages /\
        evaluateImageGroup w preparedImages = Fail e)) /\
    batchTry w dirHandle batchCandidates = Fail e /\
    runBatch w dirHandle batchCandidates
      = Some (markError (processingIdsOf batchCandidates) e) /\
    (forall prev f,
       f ∈ prev -> id f ∈ processingIdsOf batchCandidates ->
       withError e f ∈ markError (processingIdsOf batchCandidates) e prev) /\
    (forall prev f,
       f ∈ markError (processingIdsOf batchCandidates) e prev ->
       id f ∈ processingIdsOf batchCandidates ->
       status f = error /\ errorMessage f = message e).
Proof.
  intros Hlen Hcause.
  assert (Hgroup : (1 <? length batchCandidates)%nat = true) by by apply Nat.ltb_lt.
  assert (Hfail : exists e,
    ((exists c, c ∈ batchCandidates /\ resizeImage w (fileObj c) = Fail e) \/
     (exists preparedImages,
        promiseAll (map (prepareImage w) batchCandidates) = Done preparedImages /\
        evaluateImageGroup w preparedImages = Fail e)) /\
    batchTry w dirHandle batchCandidates = Fail e).
  { unfold batchTry. rewrite Hgroup.
    destruct Hcause as [(c & e & Hc & He)|(preparedImages & e & Hprep & He)].
    - destruct (promiseAll_Fail (map (prepareImage w) batchCandidates) e)
        as (e' & Hall & Hin).
      { apply list_elem_of_In, in_map_iff. exists c.
        split; [by apply prepareImage_Fail|by apply list_elem_of_In]. }
      exists e'. split; [|by rewrite Hall].
      left. apply list_elem_of_In, in_map_iff in Hin as (c' & Hc' & Hin).
      exists c'. split; [by apply list_elem_of_In|by apply prepareImage_Fail].
    - exists e. split; [right; eauto|]. rewrite Hprep. simpl. by rewrite He. }
  destruct Hfail as (e & Hwhy & Htry). exists e.
  split; [done|]. split; [done|]. split; [unfold runBatch; by rewrite Htry|].
  split; [intros prev f; apply markError_member|intros prev f; apply markError_status].
Qed.

Lemma findIndexId_Some uid next idx :
  findIndexId uid next = Some idx -> exists f, next !! idx = Some f /\ id f = uid.
Proof.
  revert idx. induction next as [|g next IH]; intros idx; simpl; [done|].
  destruct (decide (id g = uid)) as [Hg|Hg].
  - intros [= <-]. eauto.
  - destruct (findIndexId uid next) as [i|]; [|done]. intros [= <-]. by apply IH.
Qed.

Lemma map_lookup {A B : Type} (g : A -> B) (l : list A) i :
  map g l !! i = g <$> l !! i.
Proof. revert i. induction l as [|x l IH]; intros [|i]; try done. simpl. apply IH. Qed.

Lemma alter_identity (g : ImageFile -> ImageFile) idx (next : list ImageFile) :
  (forall f, next !! idx = Some f -> identity (g f) = identity f) ->
  identity <$> alter g idx next = identity <$> next.
Proof.
  intros Hg. apply list_eq. intros i. rewrite !list_lookup_fmap.
  destruct (decide (i = idx)) as [->|Hne].
  - rewrite list_lookup_alter, decide_True by done.
    destruct (next !! idx) as [f|] eqn:Hf; [|done].
    simpl. by rewrite Hg.
  - by rewrite list_lookup_alter_ne.
Qed.

Lemma bulkUpdate_identity updates :
  forall prev, identity <$> bulkUpdate updates prev = identity <$> prev.
Proof.
  unfold bulkUpdate.
  induction updates as [|u updates IH]; intros prev; [done|].
  simpl. rewrite IH.
  destruct (findIndexId (updateId u) prev) as [idx|] eqn:Hidx; [|done].
  apply findIndexId_Some in Hidx as (f & Hf & Hid).
  apply alter_identity. intros f' Hf'. rewrite Hf in Hf'. injection Hf' as <-.
  unfold identity. simpl. by rewrite Hid.
Qed.

Lemma map_identity (g : ImageFile -> ImageFile) (prev : list ImageFile) :
  (forall f, identity (g f) = identity f) -> identity <$> map g prev = identity <$> prev.
Proof.
  intros Hg. apply list_eq. intros i.
  rewrite list_lookup_fmap, map_lookup, list_lookup_fmap. destruct (prev !! i); [|done].
  simpl. by rewrite Hg.
Qed.

Lemma markProcessing_identity processingIds (prev : list ImageFile) :
  identity <$> markProcessing processingIds prev = identity <$> prev.
Proof. apply map_identity. intros f. by destruct (bool_decide _). Qed.

Lemma runBatch_identity w dirHandle batchCandidates setter (prev : list ImageFile) :
  runBatch w dirHandle batchCandidates = Some setter ->
  identity <$> setter prev = identity <$> prev.
Proof.
  unfold runBatch. intros Hrun.
  destruct (batchTry w dirHandle batchCandidates) as [[updates|targetId ev xmp]|e|];
    [| | |done]; injection Hrun as <-.
  - apply bulkUpdate_identity.
  - apply map_identity. intros f. by destruct (decide _).
  - apply map_identity. intros f. by destruct (bool_decide _).
Qed.

Lemma bulkUpdate_lookup_other updates :
  forall (prev : list ImageFile) i f,
    prev !! i = Some f ->
    (forall u, u ∈ updates -> updateId u <> id f) ->
    bulkUpdate updates prev !! i = Some f.
Proof.
  unfold bulkUpdate.
  induction updates as [|u updates IH]; intros prev i f Hi Hne; [done|].
  simpl. apply IH; [|intros u' Hu'; apply Hne; by apply list_elem_of_further].
  destruct (findIndexId (updateId u) prev) as [idx|] eqn:Hidx; [|done].
  apply findIndexId_Some in Hidx as (g & Hg & Hid).
  rewrite list_lookup_alter_ne; [done|].
  intros <-. rewrite Hg in Hi. injection Hi as ->.
  by apply (Hne u); [apply list_elem_of_here|].
Qed.

Lemma groupUpdates_ids w dirHandle groupResults batchCandidates updates :
  promiseAll (map (memberUpdate w dirHandle groupResults) batchCandidates)
    = Done updates ->
  updateId <$> updates = map (fun c => id (file c)) batchCandidates /\
  (forall u, u ∈ updates -> updateStatus u = done).
Proof.
  revert updates. induction batchCandidates as [|c cands IH]; intros updates.
  { simpl. by intros [= <-]; split; [|intros u Hu; apply elem_of_nil in Hu]. }
  change (map (memberUpdate w dirHandle groupResults) (c :: cands))
    with (memberUpdate w dirHandle groupResults c
          :: map (memberUpdate w dirHandle groupResults) cands).
  simpl.
  destruct (memberUpdate w dirHandle groupResults c) as [u| |] eqn:Hu;
    destruct (promiseAll (map (memberUpdate w dirHandle groupResults) cands))
      as [us| |]; try done.
  intros [= <-]. apply memberUpdate_Done in Hu as [Hid Hst].
  destruct (IH us eq_refl) as [Hids Hdone].
  split.
  - rewrite fmap_cons. by rewrite Hid, Hids.
  - intros u' Hu'. apply elem_of_cons in Hu' as [->|Hu']; auto.
Qed.

Lemma batchTry_group_ids w dirHandle batchCandidates updates :
  batchTry w dirHandle batchCandidates = Done (GroupSuccess updates) ->
  updateId <$> updates = map (fun c => id (file c)) batchCandidates /\
  (forall u, u ∈ updates -> updateStatus u = done).
Proof.
  unfold batchTry. destruct (1 <? length batchCandidates)%nat.
  - destruct (promiseAll (map (prepareImage w) batchCandidates)) as [prepared| |];
      [|done|done]. simpl.
    destruct (evaluateImageGroup w prepared) as [groupResults| |]; [|done|done].
    simpl.
    destruct (promiseAll (map (memberUpdate w dirHandle groupResults) batchCandidates))
      as [us| |] eqn:Hus; [|done|done].
    simpl. intros [= <-]. by apply groupUpdates_ids in Hus.
  - destruct (head batchCandidates) as [target|]; [|done].
    destruct (resizeImage w (fileObj target)) as [resized| |]; [|done|done]. simpl.
    destruct (evaluateImage w _ _) as [ev| |]; [|done|done]. simpl.
    destruct (saveSidecar w dirHandle _ ev) as [xmp| |]; done.
Qed.

Lemma batchTry_single_id w dirHandle batchCandidates targetId ev xmp :
  batchTry w dirHandle batchCandidates = Done (SingleSuccess targetId ev xmp) ->
  exists target, head batchCandidates = Some target /\ targetId = id (file target) /\
                 (length batchCandidates <= 1)%nat.
Proof.
  unfold batchTry. destruct (1 <? length batchCandidates)%nat eqn:Hlen.
  - destruct (promiseAll (map (prepareImage w) batchCandidates)) as [prepared| |];
      [|done|done]. simpl.
    destruct (evaluateImageGroup w prepared) as [groupResults| |]; [|done|done].
    simpl.
    destruct (promiseAll (map (memberUpdate w dirHandle groupResults) batchCandidates))
      as [us| |]; done.
  - apply Nat.ltb_ge in Hlen.
    destruct (head batchCandidates) as [target|]; [|done].
    destruct (resizeImage w (fileObj target)) as [resized| |]; [|done|done]. simpl.
    destruct (evaluateImage w _ _) as [ev'| |]; [|done|done]. simpl.
    destruct (saveSidecar w dirHandle _ ev') as [xmp'| |]; [|done|done].
    simpl. intros [= <- _ _]. eauto.
Qed.

Lemma runBatch_lookup_other w dirHandle batchCandidates setter
    (prev : list ImageFile) i f :
  runBatch w dirHandle batchCandidates = Some setter ->
  prev !! i = Some f ->
  id f ∉ processingIdsOf batchCandidates ->
  setter prev !! i = Some f.
Proof.
  unfold runBatch. intros Hrun Hi Hid.
  destruct (batchTry w dirHandle batchCandidates) as [[updates|targetId ev xmp]|e|]
    eqn:Htry; [| | |done]; injection Hrun as <-.
  - apply batchTry_group_ids in Htry as [Hids _].
    apply bulkUpdate_lookup_other; [done|].
    intros u Hu Heq. apply Hid. unfold processingIdsOf.
    rewrite <- Hids, <- Heq. apply elem_of_list_to_set, list_elem_of_fmap. eauto.
  - apply batchTry_single_id in Htry as (target & Hhead & -> & _).
    unfold singleUpdate. rewrite map_lookup, Hi. simpl.
    destruct (decide (id f = id (file target))) as [Heq|]; [|done].
    exfalso. apply Hid. rewrite Heq. apply processingIdsOf_member.
    destruct batchCandidates as [|c cands]; [done|]. injection Hhead as ->.
    apply list_elem_of_here.
  - unfold markError. rewrite map_lookup, Hi. simpl.
    by rewrite bool_decide_eq_false_2.
Qed.

Lemma others_untouched w dirHandle batchCandidates setter
    (prev : list ImageFile) i f :
  runBatch w dirHandle batchCandidates = Some setter ->
  prev !! i = Some f ->
  id f ∉ processingIdsOf batchCandidates ->
  setter (markProcessing (processingIdsOf batchCandidates) prev) !! i = Some f.
Proof.
  intros Hrun Hi Hid.
  apply (runBatch_lookup_other w dirHandle batchCandidates); [done| |done].
  unfold markProcessing. rewrite map_lookup, Hi. simpl.
  by rewrite bool_decide_eq_false_2.
Qed.

(** X7. Whatever the outcome of a batch, the items outside it stay as
    they are and where they are: neither the setter that marks the batch
    nor the setter that ends it touches an item whose id is not the id of
    a member. *)
Theorem pass_leaves_others (w : World) (dirHandle : option FileSystemDirectoryHandle)
    (batchCandidates : list Candidate) (setter : list ImageFile -> list ImageFile)
    (prev : list ImageFile) (i : nat) (f : ImageFile) :
  runBatch w dirHandle batchCandidates = Some setter ->
  prev !! i = Some f ->
  id f ∉ processingIdsOf batchCandidates ->
  markProcessing (processingIdsOf batchCandidates) prev !! i = Some f /\
  setter prev !! i = Some f /\
  setter (markProcessing (processingIdsOf batchCandidates) prev) !! i = Some f.
Proof.
  intros Hrun Hi Hid.
  assert (Hmark : markProcessing (processingIdsOf batchCandidates) prev !! i = Some f).
  { unfold markProcessing. rewrite map_lookup, Hi. simpl.
    by rewrite bool_decide_eq_false_2. }
  split; [done|]. split; by apply (runBatch_lookup_other w dirHandle batchCandidates).
Qed.

Lemma step_identity s ev s' :
  gradingEvent ev -> step s ev = Some s' ->
  identity <$> files s' = identity <$> files s.
Proof.
  destruct ev as [dirHandle|k w|k w| |b| |w l1 l2|fileId|next]; try done; intros _.
  - simpl. intros [= <-]. unfold tick.
    destruct (_ || _); [done|]. by destruct (findIndexPending _).
  - simpl. unfold detected.
    destruct (inFlight s !! k) as [[d cf n|d cands]|]; try done.
    destruct (burstDetection w cf n) as [cands|]; [|done]. simpl.
    intros [= <-]. simpl. apply markProcessing_identity.
  - simpl. unfold completed.
    destruct (inFlight s !! k) as [[d cf n|d cands]|]; try done.
    destruct (runBatch w d cands) as [setter|] eqn:Hrun; [|done]. simpl.
    intros [= <-]. simpl. by apply (runBatch_identity w d cands).
  - simpl. by intros [= <-].
  - simpl. by intros [= <-].
Qed.

Lemma run_identity trace :
  forall s s',
    Forall gradingEvent trace -> run s trace = Some s' ->
    identity <$> files s' = identity <$> files s.
Proof.
  induction trace as [|ev trace IH]; intros s s' Hall Hrun.
  { simpl in Hrun. by injection Hrun as <-. }
  apply Forall_cons in Hall as [Hev Hall]. simpl in Hrun.
  destruct (step s ev) as [s1|] eqn:Hstep; [|done]. simpl in Hrun.
  rewrite (IH s1 s' Hall Hrun). by apply (step_identity s ev).
Qed.

(** X8. The scheduler, the render effect and the pause button never add,
    remove, reorder or rename an item: through any sequence of them the
    backlog keeps its length and, position by position, the id, handle,
    name and type of every item. *)
Theorem scheduler_keeps_items (s s' : AppState) (trace : list Event) :
  Forall gradingEvent trace ->
  run s trace = Some s' ->
  length (files s') = length (files s) /\
  forall i, identity <$> files s' !! i = identity <$> files s !! i.
Proof.
  intros Hall Hrun. pose proof (run_identity trace s s' Hall Hrun) as Hid.
  split.
  - by rewrite <- (length_fmap identity (files s')), Hid, length_fmap.
  - intros i. by rewrite <- !list_lookup_fmap, Hid.
Qed.

(** X9. An item deleted while its batch is being graded stays deleted:
    the setter of the batch that ends later finds no item with the id and
    puts none back. *)
Theorem deleted_item_stays_deleted (s s1 s2 : AppState) (fileId : string)
    (trace : list Event) :
  step s (DeleteFile fileId) = Some s1 ->
  Forall gradingEvent trace ->
  run s1 trace = Some s2 ->
  forall f, f ∈ files s2 -> id f <> fileId.
Proof.
  intros Hdel Hall Hrun f Hf Hid.
  pose proof (run_identity trace s1 s2 Hall Hrun) as Hsame.
  assert (Hin : identity f ∈ identity <$> files s1).
  { rewrite <- Hsame. apply list_elem_of_fmap. eauto. }
  apply list_elem_of_fmap in Hin as (g & Hg & Hin).
  simpl in Hdel. injection Hdel as <-. simpl in Hin.
  apply list_elem_of_filter in Hin as [Hne _]. apply Hne.
  unfold identity in Hg. congruence.
Qed.
End BatchRunFacts.

(** ** Progress of a pass *)

Section PassProgress.
Context `{host : Host}.

Lemma burstDetection_run w currentFiles nextFileIndex run :
  (exists f, currentFiles !! nextFileIndex = Some f /\ status f = pending) ->
  burstDetection w currentFiles nextFileIndex = Some run ->
  sliceRun currentFiles nextFileIndex run.
Proof.
  intros Hf Hdet. destruct (burstTry_run w currentFiles nextFileIndex Hf) as [Hrun _].
  unfold burstDetection in Hdet.
  destruct (burstTry w currentFiles nextFileIndex) as [run' [[]|e|]];
    [| |done]; injection Hdet as <-; exact Hrun.
Qed.

Lemma runBatch_settles w dirHandle batchCandidates setter (prev : list ImageFile) f :
  runBatch w dirHandle batchCandidates = Some setter ->
  NoDup (id <$> prev) ->
  f ∈ setter prev ->
  id f ∈ processingIdsOf batchCandidates ->
  status f = done \/ status f = error.
Proof.
  unfold runBatch. intros Hrun Hnd Hf Hid.
  destruct (batchTry w dirHandle batchCandidates) as [[updates|targetId ev xmp]|e|]
    eqn:Htry; [| | |done]; injection Hrun as <-.
  - apply batchTry_group_ids in Htry as [Hids Hdone].
    destruct (bulkUpdate_inv updates prev f Hnd Hdone Hf) as [?|[_ Hne]]; [by left|].
    exfalso. unfold processingIdsOf in Hid. rewrite <- Hids in Hid.
    apply elem_of_list_to_set, list_elem_of_fmap in Hid as (u & Hu & Hin).
    by apply (Hne u).
  - left. apply batchTry_single_id in Htry as (target & Hhead & -> & Hlen).
    destruct batchCandidates as [|c [|c' cands]]; [done| |simpl in Hlen; lia].
    injection Hhead as ->.
    unfold processingIdsOf in Hid.
    apply elem_of_list_to_set, list_elem_of_In in Hid.
    destruct Hid as [Hid|[]]. simpl in Hid.
    unfold singleUpdate in Hf. apply list_elem_of_In, in_map_iff in Hf as (g & Hg & _).
    destruct (decide (id g = id (file target))) as [|Hne]; [by subst f|].
    subst f. done.
  - right. by destruct (markError_status _ _ _ _ Hf Hid).
Qed.

Lemma NoDup_ids_eq (l : list ImageFile) f g :
  NoDup (id <$> l) -> f ∈ l -> g ∈ l -> id f = id g -> f = g.
Proof.
  intros Hnd Hf Hg Hid.
  apply list_elem_of_lookup in Hf as [i Hi]. apply list_elem_of_lookup in Hg as [j Hj].
  assert (i = j).
  { apply (NoDup_lookup (id <$> l) i j (id f)); [done| |];
      rewrite list_lookup_fmap; [by rewrite Hi|by rewrite Hj, Hid]. }
  subst j. congruence.
Qed.

Lemma pendingCount_settled (ids : gset string) (l l' : list ImageFile) :
  Forall2 (fun f f' => if decide (id f ∈ ids) then status f' <> pending else f' = f)
    l l' ->
  pendingCount l' = length (filter (fun f => status f = pending /\ id f ∉ ids) l).
Proof.
  unfold pendingCount. induction 1 as [|f f' l l' Hf _ IH]; [done|].
  rewrite !filter_cons.
  destruct (decide (id f ∈ ids)) as [Hin|Hout].
  - rewrite decide_False by done.
    rewrite (decide_False (P := status f = pending /\ id f ∉ ids)) by tauto. done.
  - subst f'. destruct (decide (status f = pending)) as [Hp|Hp].
    + rewrite (decide_True (P := status f = pending /\ id f ∉ ids)) by tauto.
      simpl. by rewrite IH.
    + rewrite (decide_False (P := status f = pending /\ id f ∉ ids)) by tauto. done.
Qed.

Lemma pendingCount_split (ids : gset string) (l : list ImageFile) :
  (forall f, f ∈ l -> id f ∈ ids -> status f = pending) ->
  (length (filter (fun f => status f = pending /\ id f ∉ ids) l)
   + length (filter (fun f => id f ∈ ids) l))%nat = pendingCount l.
Proof.
  unfold pendingCount. induction l as [|f l IH]; intros Hp; [done|].
  rewrite !filter_cons.
  assert (IH' := IH (fun g Hg => Hp g (list_elem_of_further _ _ _ Hg))).
  destruct (decide (id f ∈ ids)) as [Hin|Hout].
  - rewrite (decide_False (P := status f = pending /\ id f ∉ ids)) by tauto.
    rewrite decide_True by (apply Hp; [apply list_elem_of_here|done]).
    simpl. lia.
  - destruct (decide (status f = pending)) as [Hs|Hs].
    + rewrite (decide_True (P := status f = pending /\ id f ∉ ids)) by tauto.
      simpl. lia.
    + rewrite (decide_False (P := status f = pending /\ id f ∉ ids)) by tauto. done.
Qed.

Lemma filter_length_all {A} (P : A -> Prop) `{forall x, Decision (P x)} (l : list A) :
  (forall x, x ∈ l -> P x) -> length (filter P l) = length l.
Proof.
  induction l as [|x l IH]; intros HP; [done|].
  rewrite filter_cons, decide_True by (apply HP, list_elem_of_here).
  simpl. rewrite IH; [done|]. intros y Hy. by apply HP, list_elem_of_further.
Qed.

Lemma filter_length_none {A} (P : A -> Prop) `{forall x, Decision (P x)} (l : list A) :
  (forall x, x ∈ l -> ~ P x) -> length (filter P l) = 0%nat.
Proof.
  induction l as [|x l IH]; intros HP; [done|].
  rewrite filter_cons, decide_False by (apply HP, list_elem_of_here).
  apply IH. intros y Hy. by apply HP, list_elem_of_further.
Qed.

Lemma members_count (l : list ImageFile) nextFileIndex run :
  NoDup (id <$> l) ->
  file <$> run = take (length run) (drop nextFileIndex l) ->
  length (filter (fun f => id f ∈ processingIdsOf run) l) = length run.
Proof.
  intros Hnd Hslice.
  assert (Hl : l = take nextFileIndex l ++ (file <$> run)
                   ++ drop (length run) (drop nextFileIndex l)).
  { by rewrite Hslice, take_drop, take_drop. }
  assert (Hids : forall x, x ∈ processingIdsOf run <-> x ∈ id <$> (file <$> run)).
  { intros x. unfold processingIdsOf. rewrite elem_of_list_to_set.
    rewrite <- list_fmap_compose. done. }
  rewrite Hl in Hnd. rewrite !fmap_app in Hnd.
  apply NoDup_app in Hnd as (_ & Hleft & Hnd).
  apply NoDup_app in Hnd as (_ & Hright & _).
  rewrite Hl, !filter_app, !length_app.
  rewrite (filter_length_none _ (take nextFileIndex l)).
  2:{ intros f Hf Hin. apply Hids in Hin.
      apply (Hleft (id f)); [apply list_elem_of_fmap; eauto|].
      apply elem_of_app. by left. }
  rewrite (filter_length_all _ (file <$> run)).
  2:{ intros f Hf. apply Hids, list_elem_of_fmap. eauto. }
  rewrite (filter_length_none _ (drop (length run) (drop nextFileIndex l))).
  2:{ intros f Hf Hin. apply Hids in Hin.
      apply (Hright (id f)); [done|]. apply list_elem_of_fmap. eauto. }
  rewrite length_fmap. simpl. lia.
Qed.

(** X10. A pass over a rendered backlog with distinct ids settles its
    run: afterwards every item of the run is [done] or [error], and the
    number of pending items has gone down by exactly the length of the
    run. *)
Theorem pass_progress (w : World) (dirHandle : option FileSystemDirectoryHandle)
    (s s' : AppState) (nextFileIndex : nat) (run : list Candidate) :
  processingRef s = false ->
  isProcessingRef s = true ->
  filesRef s = files s ->
  NoDup (id <$> files s) ->
  findIndexPending (filesRef s) = Some nextFileIndex ->
  burstDetection w (filesRef s) nextFileIndex = Some run ->
  processQueue w dirHandle s = Some s' ->
  (forall f', f' ∈ files s' -> id f' ∈ processingIdsOf run ->
     status f' = done \/ status f' = error) /\
  (pendingCount (files s') + length run = pendingCount (files s))%nat.
Proof.
  intros Hguard Hplay Href Hnd Hidx Hdet Hpass.
  rewrite (processQueue_pass w dirHandle s nextFileIndex Hguard Hplay Hidx) in Hpass.
  rewrite Hdet in Hpass. simpl in Hpass.
  destruct (runBatch w dirHandle run) as [setter|] eqn:Hrun; [|done].
  simpl in Hpass. injection Hpass as <-. simpl.
  set (ids := processingIdsOf run).
  set (marked := markProcessing ids (files s)).
  assert (Hndm : NoDup (id <$> marked)) by (unfold marked; by rewrite markProcessing_ids).
  assert (Hsettle : forall f', f' ∈ setter marked -> id f' ∈ ids ->
                      status f' = done \/ status f' = error).
  { intros f' Hf' Hid. by apply (runBatch_settles w dirHandle run setter marked). }
  split; [exact Hsettle|].
  assert (Hsame : identity <$> setter marked = identity <$> files s).
  { rewrite (runBatch_identity w dirHandle run setter marked Hrun).
    apply markProcessing_identity. }
  destruct (findIndexPending_Some _ _ Hidx) as [Hfirst _].
  pose proof (burstDetection_run w (filesRef s) nextFileIndex run Hfirst Hdet) as Hslice.
  rewrite Href in Hslice.
  rewrite (pendingCount_settled ids (files s) (setter marked)).
  - rewrite <- (pendingCount_split ids (files s)).
    + unfold ids. rewrite (members_count (files s) nextFileIndex run Hnd); [lia|].
      by apply sliceRun_slice.
    + intros f Hf Hid. unfold ids, processingIdsOf in Hid.
      apply elem_of_list_to_set, list_elem_of_In, in_map_iff in Hid as (c & Hc & Hin).
      apply list_elem_of_In, list_elem_of_lookup in Hin as [i Hi].
      destruct (Hslice i c Hi) as (_ & Hfile & Hp).
      assert (f = file c) as ->; [|done].
      apply (NoDup_ids_eq (files s)); try done.
      apply list_elem_of_lookup. eauto.
  - apply Forall2_same_length_lookup. split.
    { by rewrite <- (length_fmap identity (files s)), <- Hsame, length_fmap. }
    intros i f f' Hf Hf'.
    destruct (decide (id f ∈ ids)) as [Hin|Hout].
    + assert (Hid : id f' = id f).
      { assert (Hi : (identity <$> setter marked) !! i = (identity <$> files s) !! i)
          by by rewrite Hsame.
        rewrite !list_lookup_fmap, Hf, Hf' in Hi. simpl in Hi.
        unfold identity in Hi. congruence. }
      destruct (Hsettle f') as [Hs|Hs]; [by apply list_elem_of_lookup; eauto
                                        |by rewrite Hid|by rewrite Hs|by rewrite Hs].
    + pose proof (others_untouched w dirHandle run setter (files s) i f
                    Hrun Hf Hout) as Hkeep.
      unfold marked, ids in Hf'. congruence.
Qed.
End PassProgress.

(** The sample run when B.png cannot be resized: all of A, B and C fail
    with the resizer's error. *)
Lemma group_failure_fails_all_witness :
  exists e,
    runBatch (host := utcHost) (brokenResizeWorld burstDisk fullResponse 1500)
      None burstRun
    = Some (markError (processingIdsOf burstRun) e) /\
    message e = Some "The source image could not be decoded."%string.
Proof.
  destruct (group_failure_fails_all (host := utcHost)
              (brokenResizeWorld burstDisk fullResponse 1500) None burstRun)
    as (e & Hwhy & _ & Hrun & _).
  - simpl. lia.
  - left. exists {| index := 1; file := pendingItem "B.png";
                    fileObj := pngFile 1500; timestamp := 1500 |},
                 (Thrown (Some "The source image could not be decoded."%string)).
    split; [|reflexivity].
    unfold burstRun. apply list_elem_of_further, list_elem_of_here.
  - exists e. split; [exact Hrun|].
    destruct Hwhy as [(c & Hc & He)|(preparedImages & Hprep & _)];
      [|vm_compute in Hprep; discriminate].
    apply list_elem_of_In in Hc. simpl in Hc.
    destruct Hc as [<-|[<-|[<-|[]]]]; vm_compute in He; try discriminate.
    injection He as <-. reflexivity.
Defined.

(** D.png is not in the run A, B, C: it keeps its place and its state. *)
Lemma pass_leaves_others_witness :
  bulkUpdate
    [ {| updateId := "A.png"; updateEvaluation := sampleEvaluation;
         updateStatus := done; updateXmpHandle := None |};
      {| updateId := "B.png"; updateEvaluation := sampleEvaluation;
         updateStatus := done; updateXmpHandle := None |};
      {| updateId := "C.png"; updateEvaluation := sampleEvaluation;
         updateStatus := done; updateXmpHandle := None |} ]
    (markProcessing (processingIdsOf burstRun) burstBacklog) !! 3%nat
  = Some (pendingItem "D.png").
Proof.
  apply (pass_leaves_others (host := utcHost) (sampleWorld burstDisk fullResponse ∅)
           None burstRun _ burstBacklog 3 (pendingItem "D.png")).
  - by_evaluation.
  - reflexivity.
  - unfold processingIdsOf. rewrite elem_of_list_to_set. intros Hin.
    apply list_elem_of_In in Hin. simpl in Hin.
    destruct Hin as [Hin|[Hin|[Hin|[]]]]; discriminate.
Defined.

Lemma scheduler_keeps_items_witness :
  length (files busyState) = length (files (loadedState burstBacklog)).
Proof.
  apply (scheduler_keeps_items (host := utcHost) (loadedState burstBacklog) busyState
           [Render; Tick None; Detected 0 (sampleWorld burstDisk fullResponse ∅)]).
  - repeat constructor.
  - by_evaluation.
Defined.

(** B.png is deleted while the run A, B, C is graded: the batch ends with
    A and C graded and B gone. *)
Lemma deleted_item_stays_deleted_witness :
  ~ ("B.png"%string ∈ id <$> files (settledState [gradedItem "A.png"; gradedItem "C.png";
                                                  pendingItem "D.png"])).
Proof.
  intros Hin. apply list_elem_of_fmap in Hin as (f & Hid & Hf).
  apply (deleted_item_stays_deleted (host := utcHost) busyState
           (setFiles busyState (filter (fun f => id f ≠ "B.png"%string) (files busyState)))
           (settledState [gradedItem "A.png"; gradedItem "C.png"; pendingItem "D.png"])
           "B.png"%string
           [Completed 0 (sampleWorld burstDisk fullResponse ∅)] eq_refl
           ltac:(repeat constructor) ltac:(vm_compute; reflexivity) f Hf).
  by symmetry.
Defined.

(** A pass over the sample backlog grades A, B and C: one of four pending
    items is left. *)
Lemma pass_progress_witness :
  (pendingCount [gradedItem "A.png"; gradedItem "B.png"; gradedItem "C.png";
                 pendingItem "D.png"] + 3 = pendingCount burstBacklog)%nat.
Proof.
  apply (pass_progress (host := utcHost) (sampleWorld burstDisk fullResponse ∅) None
           (loadedState burstBacklog)
           (settledState [gradedItem "A.png"; gradedItem "B.png"; gradedItem "C.png";
                          pendingItem "D.png"])
           0 burstRun).
  - reflexivity.
  - reflexivity.
  - reflexivity.
  - apply (bool_decide_unpack _). vm_compute. exact I.
  - by_evaluation.
  - by_evaluation.
  - by_evaluation.
Defined.

(** ** Sidecars at ingestion *)

Section SidecarFacts.
Context `{host : Host}.

Lemma collectXmpHandles_snoc listing entry :
  collectXmpHandles (listing ++ [entry]) =
  if isSidecarEntry entry
  then <[toLowerCase (baseNameOf (entryName entry)) := entryName entry]>
         (collectXmpHandles listing)
  else collectXmpHandles listing.
Proof.
  unfold collectXmpHandles, isSidecarEntry. rewrite foldl_app. simpl.
  by destruct (entryKind entry).
Qed.

Lemma sidecarNames_snoc listing entry :
  sidecarNames (listing ++ [entry]) =
  if isSidecarEntry entry then sidecarNames listing ++ [entryName entry]
  else sidecarNames listing.
Proof.
  unfold sidecarNames. rewrite filter_app, fmap_app, filter_cons, filter_nil.
  destruct (isSidecarEntry entry) eqn:He.
  - by rewrite decide_True.
  - rewrite decide_False by done. by rewrite app_nil_r.
Qed.

(** X11. The sidecar that ingestion finds under a key is the last sidecar
    file of the listing whose base name, lower-cased by the host's
    [toLowerCase], is the key; directories and other files play no
    part. *)
Theorem collectXmpHandles_lookup (listing : list Entry) (key : string) :
  collectXmpHandles listing !! key =
  last (filter (fun h => toLowerCase (baseNameOf h) = key) (sidecarNames listing)).
Proof.
  induction listing as [|entry listing IH] using rev_ind; [done|].
  rewrite collectXmpHandles_snoc, sidecarNames_snoc.
  destruct (isSidecarEntry entry); [|done].
  rewrite filter_app, filter_cons, filter_nil.
  destruct (decide (toLowerCase (baseNameOf (entryName entry)) = key)) as [<-|Hne].
  - by rewrite lookup_insert_eq, last_snoc.
  - by rewrite lookup_insert_ne, app_nil_r.
Qed.

Lemma collectImageFiles_ingested w xmpHandles entries :
  forall imageFiles result,
    collectImageFiles w xmpHandles entries imageFiles = Done result ->
    Forall (ingested w xmpHandles) imageFiles ->
    Forall (ingested w xmpHandles) result.
Proof.
  induction entries as [|entry entries IH]; intros imageFiles result Hres Hall.
  - by injection Hres as <-.
  - simpl in Hres.
    destruct (entryKind entry); [|by apply (IH imageFiles)].
    destruct (isImageName (entryName entry)); [|by apply (IH imageFiles)].
    destruct (xmpHandles !! toLowerCase (baseNameOf (entryName entry)))
      as [h|] eqn:Hxmp.
    + destruct (parseXMP w h) as [parsed|e|] eqn:Hparse; [|done|done].
      simpl in Hres. apply IH in Hres; [done|].
      apply Forall_app. split; [done|]. apply Forall_singleton.
      unfold ingested. simpl. rewrite Hxmp. split_conjunctions; try done.
      by exists parsed.
    + simpl in Hres. apply IH in Hres; [done|].
      apply Forall_app. split; [done|]. apply Forall_singleton.
      unfold ingested. simpl. by rewrite Hxmp.
Qed.

(** X12. Every item that ingestion hands over is built from the sidecars
    of the first listing: it refers to the sidecar found under its
    lower-cased base name, is [done] with the parsed evaluation when that
    sidecar parses and [pending] without evaluation otherwise, and it has
    no error message; so an item is [done] exactly when it is graded. *)
Theorem processDirectory_grades_from_sidecars (w : World)
    (listing1 listing2 : list Entry) (backlog : list ImageFile) (f : ImageFile) :
  processDirectory w listing1 listing2 = Done backlog ->
  f ∈ backlog ->
  ingested w (collectXmpHandles listing1) f /\
  (status f = done <-> is_Some (evaluation f)) /\
  (status f = pending <-> evaluation f = None).
Proof.
  intros Hdir Hf. unfold processDirectory in Hdir.
  destruct (collectImageFiles w (collectXmpHandles listing1) listing2 [])
    as [imageFiles|e|] eqn:Hcollect; [|done|done].
  simpl in Hdir. injection Hdir as <-.
  rewrite merge_sort_Permutation in Hf.
  apply collectImageFiles_ingested in Hcollect; [|constructor].
  rewrite Forall_forall in Hcollect. specialize (Hcollect f Hf).
  split; [done|].
  destruct Hcollect as (_ & _ & _ & _ & _ & Hgrade).
  destruct (xmpHandle f) as [h|].
  - destruct Hgrade as (parsed & _ & -> & ->).
    destruct parsed as [ev|]; split; split; intros Hx;
      try done; try (by eexists); by destruct Hx.
  - destruct Hgrade as [-> ->].
    split; split; intros Hx; try done; by destruct Hx.
Qed.

Lemma collectImageFiles_Fail w xmpHandles entries :
  forall imageFiles,
    (forall h, parseXMP w h <> Hang) ->
    (exists entry h e,
       entry ∈ entries /\ isImageEntry entry = true /\
       xmpHandles !! toLowerCase (baseNameOf (entryName entry)) = Some h /\
       parseXMP w h = Fail e) ->
    exists e, collectImageFiles w xmpHandles entries imageFiles = Fail e.
Proof.
  induction entries as [|entry entries IH]; intros imageFiles Hnh Hbad.
  { destruct Hbad as (entry & _ & _ & Hin & _). by apply elem_of_nil in Hin. }
  assert (Hrest : forall imageFiles',
    isImageEntry entry = false \/
    (forall h, xmpHandles !! toLowerCase (baseNameOf (entryName entry)) = Some h ->
               forall e, parseXMP w h <> Fail e) ->
    exists e, collectImageFiles w xmpHandles entries imageFiles' = Fail e).
  { intros imageFiles' Hgood. apply IH; [done|].
    destruct Hbad as (bad & h & e & Hin & Himg & Hxmp & Hfail).
    exists bad, h, e. split; [|done].
    apply elem_of_cons in Hin as [->|Hin]; [|done].
    destruct Hgood as [Hgood|Hgood]; [congruence|by destruct (Hgood h Hxmp e)]. }
  simpl. unfold isImageEntry in Hrest.
  destruct (entryKind entry); [|apply Hrest; by left].
  destruct (isImageName (entryName entry)); [|apply Hrest; by left].
  destruct (xmpHandles !! toLowerCase (baseNameOf (entryName entry))) as [h|] eqn:Hxmp.
  - destruct (parseXMP w h) as [parsed|e|] eqn:Hparse.
    + simpl. apply Hrest. right. intros h' [= <-] e. congruence.
    + by exists e.
    + by destruct (Hnh h).
  - simpl. apply Hrest. right. intros h' Hh'. done.
Qed.

(** X13. When the sidecar of one image cannot be read, ingestion as a
    whole fails: no backlog is handed over, and the backlog that opening
    the folder has emptied stays empty. *)
Theorem unreadable_sidecar_aborts_ingestion (w : World)
    (listing1 listing2 : list Entry) (entry : Entry) (h : FileSystemFileHandle)
    (e : Exn) (s : AppState) :
  NoDup (entryName <$> listing2) ->
  (forall h', parseXMP w h' <> Hang) ->
  entry ∈ listing2 ->
  isImageEntry entry = true ->
  collectXmpHandles listing1 !! toLowerCase (baseNameOf (entryName entry)) = Some h ->
  parseXMP w h = Fail e ->
  (exists e', processDirectory w listing1 listing2 = Fail e') /\
  run s [OpenFolder; FolderLoaded w listing1 listing2] = Some (setFiles s []).
Proof.
  intros Hnd Hnh Hin Himg Hxmp Hfail.
  destruct (collectImageFiles_Fail w (collectXmpHandles listing1) listing2 [] Hnh)
    as [e' He']; [by exists entry, h, e|].
  assert (Hdir : processDirectory w listing1 listing2 = Fail e').
  { unfold processDirectory. by rewrite He'. }
  split; [by exists e'|].
  simpl. rewrite decide_True by done. by rewrite Hdir.
Qed.

(** X14. When the comparison of names is total, the backlog that ingestion
    hands over is in the order of the names. *)
Theorem processDirectory_sorted (w : World) (listing1 listing2 : list Entry)
    (backlog : list ImageFile) :
  (forall a b : string, localeCompare a b <= 0 \/ localeCompare b a <= 0) ->
  processDirectory w listing1 listing2 = Done backlog ->
  Sorted nameLe backlog.
Proof.
  intros Htotal Hdir. unfold processDirectory in Hdir.
  destruct (collectImageFiles w (collectXmpHandles listing1) listing2 [])
    as [imageFiles|e|]; [|done|done].
  simpl in Hdir. injection Hdir as <-.
  apply Sorted_merge_sort. intros a b. apply Htotal.
Qed.
End SidecarFacts.

(** IMG_1.JPG is graded from img_1.xmp, whose name differs in case. *)
Lemma processDirectory_grades_from_sidecars_witness :
  ingested (host := utcHost) (sampleWorld ∅ ∅ ∅)
    (collectXmpHandles (host := utcHost) sidecarListing)
    {| id := "IMG_1.JPG"; handle := "IMG_1.JPG"; name := "IMG_1.JPG";
       imageType := "image"; status := done; evaluation := Some sampleEvaluation;
       xmpHandle := Some "img_1.xmp"%string; errorMessage := None |}.
Proof.
  apply (processDirectory_grades_from_sidecars (host := utcHost) (sampleWorld ∅ ∅ ∅)
           sidecarListing sidecarListing
           [ {| id := "IMG_1.JPG"; handle := "IMG_1.JPG"; name := "IMG_1.JPG";
                imageType := "image"; status := done;
                evaluation := Some sampleEvaluation;
                xmpHandle := Some "img_1.xmp"%string; errorMessage := None |};
             pendingItem "IMG_2.JPG" ]).
  - by_evaluation.
  - apply list_elem_of_here.
Defined.

Lemma unreadable_sidecar_aborts_ingestion_witness :
  run (host := utcHost) initialState
    [OpenFolder; FolderLoaded brokenSidecarWorld sidecarListing sidecarListing]
  = Some (setFiles initialState []).
Proof.
  apply (unreadable_sidecar_aborts_ingestion (host := utcHost) brokenSidecarWorld
           sidecarListing sidecarListing
           {| entryKind := kindFile; entryName := "IMG_1.JPG" |}
           "img_1.xmp"%string (Thrown (Some "NotReadableError"%string)) initialState).
  - apply (bool_decide_unpack _). vm_compute. exact I.
  - intros h'. discriminate.
  - apply list_elem_of_here.
  - by_evaluation.
  - by_evaluation.
  - reflexivity.
Defined.

Lemma utcHost_total (a b : string) :
  localeCompare (Host := utcHost) a b <= 0 \/ localeCompare (Host := utcHost) b a <= 0.
Proof.
  simpl. rewrite (String.compare_antisym a b).
  destruct (String.compare b a); simpl; lia.
Qed.

Lemma processDirectory_sorted_witness :
  Sorted (nameLe (host := utcHost)) [pendingItem "IMG.jpg"; pendingItem "IMG.png"].
Proof.
  apply (processDirectory_sorted (host := utcHost) (sampleWorld ∅ ∅ ∅)
           twinListing twinListing).
  - exact utcHost_total.
  - by_evaluation.
Defined.

(** ** The other handlers *)

Section HandlerFacts.

Lemma filter_all_elem {A} (P : A -> Prop) `{forall x, Decision (P x)} (l : list A) :
  (forall x, x ∈ l -> P x) -> filter P l = l.
Proof.
  induction l as [|x l IH]; intros HP; [done|].
  rewrite filter_cons, decide_True by (apply HP, list_elem_of_here).
  rewrite IH; [done|]. intros y Hy. by apply HP, list_elem_of_further.
Qed.

Lemma filter_none_elem {A} (P : A -> Prop) `{forall x, Decision (P x)} (l : list A) :
  (forall x, x ∈ l -> ~ P x) -> filter P l = [].
Proof.
  induction l as [|x l IH]; intros HP; [done|].
  rewrite filter_cons, decide_False by (apply HP, list_elem_of_here).
  apply IH. intros y Hy. by apply HP, list_elem_of_further.
Qed.

Lemma filter_ext_elem {A} (P Q : A -> Prop) `{forall x, Decision (P x)}
    `{forall x, Decision (Q x)} (l : list A) :
  (forall x, x ∈ l -> P x <-> Q x) -> filter P l = filter Q l.
Proof.
  induction l as [|x l IH]; intros HPQ; [done|].
  rewrite !filter_cons.
  rewrite IH by (intros y Hy; by apply HPQ, list_elem_of_further).
  pose proof (HPQ x (list_elem_of_here _ _)) as Hx.
  destruct (decide (P x)), (decide (Q x)); tauto.
Qed.



Lemma removeId_filter fileId (l : list ImageFile) :
  NoDup (id <$> l) ->
  match findIndexId fileId l with
  | Some idx => delete idx l
  | None => l
  end = filter (fun f => id f ≠ fileId) l.
Proof.
  induction l as [|f l IH]; intros Hnd; [done|].
  rewrite fmap_cons in Hnd. apply NoDup_cons in Hnd as [Hf Hnd]. simpl.
  destruct (decide (id f = fileId)) as [Heq|Hne].
  - simpl. rewrite filter_cons_False by (intros Hx; by apply Hx).
    symmetry. apply filter_all_elem. intros g Hg Hid.
    apply Hf. rewrite Heq, <- Hid. apply list_elem_of_fmap. eauto.
  - rewrite filter_cons_True by done. rewrite <- (IH Hnd).
    by destruct (findIndexId fileId l).
Qed.

Section Archive.
Variable moveFileToSubfolder :
  FileSystemDirectoryHandle -> FileSystemFileHandle -> string ->
  option FileSystemFileHandle -> Async unit.
Variable dirHandle : FileSystemDirectoryHandle.

Lemma archiveLoop_Done rejects :
  forall updatedFiles moved,
    (forall f, f ∈ rejects ->
       moveFileToSubfolder dirHandle (handle f) "_Rejected" (xmpHandle f) = Done tt) ->
    NoDup (id <$> updatedFiles) ->
    archiveLoop moveFileToSubfolder dirHandle rejects updatedFiles moved =
    (moved ++ (handle <$> rejects),
     Done (filter (fun f => id f ∉ id <$> rejects) updatedFiles)).
Proof.
  induction rejects as [|r rejects IH]; intros updatedFiles moved Hmove Hnd.
  - simpl. rewrite app_nil_r. f_equal. f_equal. symmetry.
    apply filter_all_elem. intros f _ Hf. by apply elem_of_nil in Hf.
  - simpl. rewrite (Hmove r) by apply list_elem_of_here.
    rewrite removeId_filter by done.
    rewrite IH; [| |by apply NoDup_ids_filter].
    2:{ intros f Hf. by apply Hmove, list_elem_of_further. }
    rewrite <- app_assoc. simpl. f_equal. f_equal.
    rewrite list_filter_filter. apply list_filter_iff. intros f.
    rewrite elem_of_cons. tauto.
Qed.

Lemma archiveLoop_Fail before bad after e :
  forall updatedFiles moved,
    (forall f, f ∈ before ->
       moveFileToSubfolder dirHandle (handle f) "_Rejected" (xmpHandle f) = Done tt) ->
    moveFileToSubfolder dirHandle (handle bad) "_Rejected" (xmpHandle bad) = Fail e ->
    archiveLoop moveFileToSubfolder dirHandle (before ++ bad :: after)
      updatedFiles moved =
    (moved ++ (handle <$> before), Fail e).
Proof.
  induction before as [|r before IH]; intros updatedFiles moved Hmove Hbad.
  - simpl. by rewrite Hbad, app_nil_r.
  - simpl. rewrite (Hmove r) by apply list_elem_of_here.
    rewrite IH; [|intros f Hf; by apply Hmove, list_elem_of_further|done].
    by rewrite <- app_assoc.
Qed.

(** X16. When every move succeeds, archiving moves the items of the
    reject view, in their order, hands over the backlog without them, and
    pauses processing; afterwards the reject view is empty and the keep
    view is what it was. *)
Theorem archive_moves_reject_view (files : list ImageFile) :
  NoDup (id <$> files) ->
  (forall f, f ∈ filteredFiles filter_reject files ->
     moveFileToSubfolder dirHandle (handle f) "_Rejected" (xmpHandle f) = Done tt) ->
  exists updatedFiles,
    handleArchiveRejects moveFileToSubfolder (Some dirHandle) true files =
      Some {| movedHandles := handle <$> filteredFiles filter_reject files;
              nextFiles := Some updatedFiles;
              nextIsProcessing := Some false;
              alerted := false |} /\
    updatedFiles = filter (fun f => isReject f <> true) files /\
    filteredFiles filter_reject updatedFiles = [] /\
    filteredFiles filter_keep updatedFiles = filteredFiles filter_keep files.
Proof.
  intros Hnd Hmove.
  assert (Hview : filteredFiles filter_reject files
                  = filter (fun f => isReject f = true) files) by done.
  assert (Hkept : filter (fun f => id f ∉ id <$> filter (fun f => isReject f = true) files)
                    files
                  = filter (fun f => isReject f <> true) files).
  { apply filter_ext_elem. intros f Hf. split.
    - intros Hid Hrej. apply Hid, list_elem_of_fmap. exists f.
      split; [done|]. by apply list_elem_of_filter.
    - intros Hout Hid. apply list_elem_of_fmap in Hid as (g & Hid & Hg).
      apply list_elem_of_filter in Hg as [Hrej Hg].
      assert (f = g) as ->; [|done].
      by apply (NoDup_ids_eq files). }
  eexists. split; [|split; [reflexivity|]].
  - unfold handleArchiveRejects. simpl.
    rewrite archiveLoop_Done; [|by rewrite <- Hview|done].
    rewrite Hkept. by rewrite Hview.
  - split.
    + apply filter_none_elem. intros f Hf Hrej.
      apply list_elem_of_filter in Hf as [Hout Hf]. by apply Hout.
    + unfold filteredFiles at 1 2. rewrite list_filter_filter.
      apply filter_ext_elem. intros f Hf. split; [tauto|].
      intros Hkeep. split; [done|]. unfold isReject.
      destruct (evaluation f) as [ev|]; [|done]. by destruct (isWorthKeeping ev).
Qed.

(** X17. When a move fails, archiving stops there: the items before the
    failing one have been moved but the backlog is not touched, so it still
    lists them; an alert is shown and processing stays paused. *)
Theorem archive_failure_keeps_backlog (files before after : list ImageFile)
    (bad : ImageFile) (e : Exn) :
  filteredFiles filter_reject files = before ++ bad :: after ->
  (forall f, f ∈ before ->
     moveFileToSubfolder dirHandle (handle f) "_Rejected" (xmpHandle f) = Done tt) ->
  moveFileToSubfolder dirHandle (handle bad) "_Rejected" (xmpHandle bad) = Fail e ->
  handleArchiveRejects moveFileToSubfolder (Some dirHandle) true files =
    Some {| movedHandles := handle <$> before;
            nextFiles := None;
            nextIsProcessing := Some false;
            alerted := true |}.
Proof.
  intros Hview Hmove Hbad.
  assert (Hrejects : filter (fun f => isReject f = true) files = before ++ bad :: after)
    by (by rewrite <- Hview).
  unfold handleArchiveRejects. simpl. rewrite Hrejects.
  by rewrite (archiveLoop_Fail before bad after e).
Qed.
End Archive.

(** X18. The keep view and the reject view split the graded items: an
    item is in one of them exactly when it has an evaluation, never in
    both, and the two views together are as long as the list of graded
    items. *)
Theorem filter_views_split (files : list ImageFile) :
  filteredFiles filter_all files = files /\
  (forall f, f ∈ filteredFiles filter_keep files \/ f ∈ filteredFiles filter_reject files
             <-> f ∈ files /\ is_Some (evaluation f)) /\
  (forall f, ~ (f ∈ filteredFiles filter_keep files /\
                f ∈ filteredFiles filter_reject files)) /\
  (length (filteredFiles filter_keep files) + length (filteredFiles filter_reject files)
   = length (filter (fun f => is_Some (evaluation f)) files))%nat.
Proof.
  split_conjunctions.
  - by apply filter_all_elem.
  - intros f. unfold filteredFiles. rewrite !list_elem_of_filter.
    destruct (evaluation f) as [ev|].
    + destruct (isWorthKeeping ev); split; intros Hx;
        try (split; [tauto|by eexists]); tauto.
    + split; [intros [[? _]|[? _]]; done|intros [_ [? ?]]; done].
  - intros f. unfold filteredFiles. rewrite !list_elem_of_filter.
    destruct (evaluation f) as [ev|]; [destruct (isWorthKeeping ev)|];
      intros [[? _] [? _]]; done.
  - unfold filteredFiles. induction files as [|f files IH]; [done|].
    rewrite !filter_cons.
    destruct (evaluation f) as [ev|] eqn:Hev.
    + rewrite (decide_True (P := is_Some (Some ev))) by by eexists.
      destruct (isWorthKeeping ev); repeat case_decide; try done; simpl; lia.
    + rewrite (decide_False (P := is_Some None)) by (intros [? ?]; done).
      repeat case_decide; try done.
Qed.
End HandlerFacts.

(** B.png and C.png are the rejects of the sample backlog: both are moved,
    A.png and D.png stay. *)
Lemma archive_moves_reject_view_witness :
  handleArchiveRejects (sampleMove ∅) (Some "photos"%string) true gradedBacklog =
  Some {| movedHandles := ["B.png"; "C.png"]%string;
          nextFiles := Some [gradedItem "A.png"; pendingItem "D.png"];
          nextIsProcessing := Some false;
          alerted := false |}.
Proof.
  destruct (archive_moves_reject_view (sampleMove ∅) "photos"%string gradedBacklog)
    as (updatedFiles & Hres & -> & _).
  - apply (bool_decide_unpack _). vm_compute. exact I.
  - intros f _. unfold sampleMove.
    rewrite bool_decide_eq_false_2; [done|apply not_elem_of_empty].
  - exact Hres.
Defined.

(** C.png cannot be moved: B.png has left the folder, the backlog is not
    replaced. *)
Lemma archive_failure_keeps_backlog_witness :
  handleArchiveRejects (sampleMove {["C.png"%string]}) (Some "photos"%string) true
    gradedBacklog =
  Some {| movedHandles := ["B.png"%string];
          nextFiles := None;
          nextIsProcessing := Some false;
          alerted := true |}.
Proof.
  apply (archive_failure_keeps_backlog (sampleMove {["C.png"%string]}) "photos"%string
           gradedBacklog [rejectedItem "B.png"] [] (rejectedItem "C.png")
           (Thrown (Some "NoModificationAllowedError"%string))).
  - reflexivity.
  - intros f Hf. apply list_elem_of_singleton in Hf as ->. by_evaluation.
  - by_evaluation.
Defined.

(** ** Items in [processing] *)

Section ProcessingFacts.
Context `{host : Host}.

Lemma step_boundedFlight s ev s' :
  boundedFlight s -> step s ev = Some s' -> boundedFlight s'.
Proof.
  intros Hb.
  destruct ev as [dirHandle|k w|k w| |b| |w l1 l2|fileId|next]; simpl.
  - intros [= <-]. unfold tick.
    destruct (_ || _); [done|].
    destruct (findIndexPending (filesRef s)) as [nextFileIndex|] eqn:Hidx; [|done].
    intros a Ha. simpl in Ha. apply elem_of_app in Ha as [Ha|Ha]; [by apply Hb|].
    apply list_elem_of_singleton in Ha as ->.
    by destruct (findIndexPending_Some _ _ Hidx) as [Hfirst _].
  - unfold detected.
    destruct (inFlight s !! k) as [[d cf n|d cands]|] eqn:Hk; try done.
    destruct (burstDetection w cf n) as [run|] eqn:Hdet; [|done]. simpl.
    intros [= <-] a Ha. simpl in Ha.
    apply list_elem_of_lookup in Ha as [j Hj].
    destruct (decide (j = k)) as [->|Hne].
    + rewrite list_lookup_insert_eq in Hj by (by apply lookup_lt_Some in Hk).
      injection Hj as <-.
      assert (Hpending : exists f, cf !! n = Some f /\ status f = pending).
      { apply (Hb (Detecting d cf n)). apply list_elem_of_lookup. eauto. }
      destruct (burstTry_run w cf n Hpending) as [_ Hlen].
      unfold burstDetection in Hdet.
      destruct (burstTry w cf n) as [run' [[]|e|]]; [| |done];
        injection Hdet as <-; exact Hlen.
    + rewrite list_lookup_insert_ne in Hj by done.
      apply Hb. apply list_elem_of_lookup. eauto.
  - unfold completed.
    destruct (inFlight s !! k) as [[d cf n|d cands]|] eqn:Hk; try done.
    destruct (runBatch w d cands) as [setter|]; [|done]. simpl.
    intros [= <-] a Ha. simpl in Ha. apply Hb.
    by apply list_elem_of_delete_inv in Ha.
  - by intros [= <-].
  - by intros [= <-].
  - by intros [= <-].
  - destruct (decide (NoDup (entryName <$> l2))); [|done].
    destruct (processDirectory w l1 l2); [|by intros [= <-]|done].
    by intros [= <-].
  - by intros [= <-].
  - by intros [= <-].
Qed.

Lemma run_boundedFlight trace :
  forall s s', boundedFlight s -> run s trace = Some s' -> boundedFlight s'.
Proof.
  induction trace as [|ev trace IH]; intros s s' Hb Hrun.
  { simpl in Hrun. by injection Hrun as <-. }
  simpl in Hrun. destruct (step s ev) as [s1|] eqn:Hstep; [|done].
  simpl in Hrun. apply (IH s1 s'); [|done]. by apply (step_boundedFlight s ev).
Qed.

(** X19. As long as the backlog is changed by the scheduler, ingestion and
    deletion only, the items marked [processing] are items of the one
    batch being graded: there are at most four of them, and none while no
    call is in flight. *)
Theorem at_most_four_processing (trace : list Event) (s : AppState) :
  Forall ownSetter trace ->
  run initialState trace = Some s ->
  marksOwned s /\
  (processingCount (files s) <= 4)%nat /\
  (processingRef s = false -> processingCount (files s) = 0%nat).
Proof.
  intros Hown Hrun.
  assert (Hinv : schedulerInvariant s).
  { apply (run_marksOwned trace initialState s Hown); [|done].
    split; [by left|]. split; [|constructor].
    intros f Hf. by apply elem_of_nil in Hf. }
  assert (Hb : boundedFlight s).
  { apply (run_boundedFlight trace initialState s); [|done].
    intros a Ha. by apply elem_of_nil in Ha. }
  destruct Hinv as (Hsf & Hmarks & Hnd).
  split; [done|]. unfold processingCount.
  destruct Hsf as [[Hguard Hnone]|[Hguard [a Hone]]].
  - assert (Hzero : length (filter (fun f => status f = processing) (files s)) = 0%nat).
    { apply filter_length_none. intros f Hf Hp.
      destruct (Hmarks f Hf Hp) as (d & cands & Hfl & _). congruence. }
    rewrite Hzero. split; [lia|done].
  - split; [|congruence].
    set (busy := filter (fun f => status f = processing) (files s)).
    destruct busy as [|f0 busy'] eqn:Hbusy; [simpl; lia|].
    assert (Hf0 : f0 ∈ files s /\ status f0 = processing).
    { assert (Hin : f0 ∈ busy) by (rewrite Hbusy; apply list_elem_of_here).
      apply list_elem_of_filter in Hin. tauto. }
    destruct (Hmarks f0) as (d & cands & Hfl & _); [tauto|tauto|].
    assert (Hlen : (length cands <= MAX_BATCH_SIZE)%nat).
    { apply (Hb (Grading d cands)). rewrite Hfl. apply list_elem_of_here. }
    rewrite <- Hbusy.
    assert (Hsub : id <$> busy ⊆+ map (fun c => id (file c)) cands).
    { apply NoDup_submseteq; [by apply NoDup_ids_filter|].
      intros x Hx. apply list_elem_of_fmap in Hx as (f & -> & Hf).
      apply list_elem_of_filter in Hf as [Hp Hf].
      destruct (Hmarks f Hf Hp) as (d' & cands' & Hfl' & Hid).
      rewrite Hfl in Hfl'. injection Hfl' as <- <-.
      by apply elem_of_list_to_set in Hid. }
    apply submseteq_length in Hsub. rewrite length_fmap, length_map in Hsub.
    unfold MAX_BATCH_SIZE in Hlen. lia.
Qed.
End ProcessingFacts.

(** While the run A, B, C of the sample backlog is graded, three items
    are marked. *)
Lemma at_most_four_processing_witness :
  (processingCount (files busyState) <= 4)%nat.
Proof.
  apply (at_most_four_processing (host := utcHost) busyTrace busyState).
  - repeat constructor.
  - by_evaluation.
Defined.

(** ** Release of the guard *)

Section GuardFacts.
Context `{host : Host}.

Lemma promiseAll_no_hang {A : Type} (ps : list (Async A)) :
  (forall p, p ∈ ps -> p <> Hang) -> promiseAll ps <> Hang.
Proof.
  induction ps as [|p ps IH]; intros Hps; [done|].
  simpl.
  assert (Hp : p <> Hang) by apply Hps, list_elem_of_here.
  assert (Hrest : promiseAll ps <> Hang).
  { apply IH. intros q Hq. by apply Hps, list_elem_of_further. }
  destruct p; [|done|done]. by destruct (promiseAll ps).
Qed.

Lemma batchTry_no_hang w dirHandle batchCandidates :
  settles w -> batchTry w dirHandle batchCandidates <> Hang.
Proof.
  intros (_ & Hresize & Hone & Hgroup & Hsave).
  assert (Hsidecar : forall fileName result,
            saveSidecar w dirHandle fileName result <> Hang).
  { intros fileName result. rewrite saveSidecar_sidecarRef; [done|].
    intros dir. apply Hsave. }
  unfold batchTry. destruct (1 <? length batchCandidates)%nat.
  - destruct (promiseAll (map (prepareImage w) batchCandidates))
      as [preparedImages|e|] eqn:Hprep; [|done|].
    2:{ exfalso. revert Hprep. apply promiseAll_no_hang. intros p Hp.
        apply list_elem_of_In, in_map_iff in Hp as (c & <- & _).
        unfold prepareImage. pose proof (Hresize (fileObj c)).
        by destruct (resizeImage w (fileObj c)). }
    simpl. pose proof (Hgroup preparedImages).
    destruct (evaluateImageGroup w preparedImages) as [groupResults|e|]; [|done|done].
    simpl.
    destruct (promiseAll (map (memberUpdate w dirHandle groupResults) batchCandidates))
      as [updates|e|] eqn:Hupd; [done|done|].
    exfalso. revert Hupd. apply promiseAll_no_hang. intros p Hp.
    apply list_elem_of_In, in_map_iff in Hp as (c & <- & _).
    unfold memberUpdate. destruct (groupResults !! name (file c)) as [result|]; [|done].
    pose proof (Hsidecar (name (file c)) result).
    by destruct (saveSidecar w dirHandle (name (file c)) result).
  - destruct (head batchCandidates) as [target|]; [|done].
    pose proof (Hresize (fileObj target)).
    destruct (resizeImage w (fileObj target)) as [resized|e|]; [|done|done]. simpl.
    pose proof (Hone (base64 resized) (mimeType resized)).
    destruct (evaluateImage w (base64 resized) (mimeType resized)) as [ev|e|];
      [|done|done]. simpl.
    pose proof (Hsidecar (name (file target)) ev).
    by destruct (saveSidecar w dirHandle (name (file target)) ev).
Qed.

Lemma burstDetection_total w currentFiles nextFileIndex :
  settles w ->
  is_Some (currentFiles !! nextFileIndex) ->
  is_Some (burstDetection w currentFiles nextFileIndex).
Proof.
  intros (Hget & _) [firstFile Hfirst]. unfold burstDetection.
  assert (Hnh : (burstTry w currentFiles nextFileIndex).2 <> Hang).
  { unfold burstTry. rewrite Hfirst.
    pose proof (readTimestamp_no_hang w firstFile (Hget _)) as Hts.
    destruct (readTimestamp w firstFile) as [[fObj ts]|e|]; [|done|done].
    apply lookup_lt_Some in Hfirst.
    apply lookAheadLoop_no_hang; [done|lia|lia]. }
  destruct (burstTry w currentFiles nextFileIndex) as [bc [[]|?|]]; eauto.
  by destruct Hnh.
Qed.

Lemma grading_completes w s dirHandle batchCandidates :
  settles w ->
  inFlight s = [Grading dirHandle batchCandidates] ->
  exists s', step s (Completed 0 w) = Some s' /\
             processingRef s' = false /\ inFlight s' = [] /\
             retries s' = retries s ++ [500].
Proof.
  intros Hw Hfl. simpl. unfold completed. rewrite Hfl. simpl.
  pose proof (batchTry_no_hang w dirHandle batchCandidates Hw) as Hnh.
  unfold runBatch.
  destruct (batchTry w dirHandle batchCandidates) as [[updates|targetId ev xmp]|e|];
    [| | |done]; simpl; eauto.
Qed.

(** X20. The guard cannot stay set: in a reachable state with the guard
    set, the one call in flight ends after at most two more stretches as
    soon as the collaborators settle, whatever they answer; the guard is
    clear then, no call is left in flight, and the retry after 500 ms is
    scheduled. *)
Theorem guard_is_released (w : World) (s : AppState) :
  reachable s ->
  processingRef s = true ->
  settles w ->
  exists trace s',
    (trace = [Completed 0 w] \/ trace = [Detected 0 w; Completed 0 w]) /\
    run s trace = Some s' /\
    processingRef s' = false /\ inFlight s' = [] /\
    retries s' = retries s ++ [500].
Proof.
  intros Hreach Hguard Hw.
  pose proof (reachable_singleFlight s Hreach) as [[Hclear _]|[_ [a Hone]]];
    [congruence|].
  assert (Hb : boundedFlight s).
  { destruct Hreach as [trace Hrun].
    apply (run_boundedFlight trace initialState s); [|done].
    intros a' Ha'. by apply elem_of_nil in Ha'. }
  specialize (Hb a). rewrite Hone in Hb. specialize (Hb (list_elem_of_here _ _)).
  destruct a as [dirHandle currentFiles nextFileIndex|dirHandle batchCandidates].
  - destruct Hb as (f & Hf & _).
    destruct (burstDetection_total w currentFiles nextFileIndex Hw)
      as [batchCandidates Hdet]; [by eexists|].
    set (s1 := {| files := markProcessing (processingIdsOf batchCandidates) (files s);
                  filesRef := filesRef s; isProcessingRef := isProcessingRef s;
                  processingRef := processingRef s;
                  inFlight := [Grading dirHandle batchCandidates];
                  retries := retries s |}).
    assert (Hstep : step s (Detected 0 w) = Some s1).
    { simpl. unfold detected. rewrite Hone. simpl. by rewrite Hdet. }
    destruct (grading_completes w s1 dirHandle batchCandidates Hw eq_refl)
      as (s' & Hdone & Hclear & Hnone & Hretry).
    exists [Detected 0 w; Completed 0 w], s'. split; [by right|].
    split; [|done].
    change (run s [Detected 0 w; Completed 0 w])
      with (s'' ← step s (Detected 0 w); run s'' [Completed 0 w]).
    rewrite Hstep. simpl. simpl in Hdone. by rewrite Hdone.
  - destruct (grading_completes w s dirHandle batchCandidates Hw Hone)
      as (s' & Hdone & Hclear & Hnone & Hretry).
    exists [Completed 0 w], s'. split; [by left|]. split; [|done].
    simpl. simpl in Hdone. by rewrite Hdone.
Qed.
End GuardFacts.

Lemma sampleWorld_settles disk groupResponse unwritable :
  settles (sampleWorld disk groupResponse unwritable).
Proof.
  unfold settles. split_conjunctions; simpl.
  - intros h. by destruct (disk !! h).
  - done.
  - done.
  - done.
  - intros dir fileName content. by destruct (bool_decide _).
Qed.

(** While the sample run is graded the guard is set; the batch ends and
    clears it. *)
Lemma guard_is_released_witness :
  exists trace s',
    run (host := utcHost) busyState trace = Some s' /\ processingRef s' = false.
Proof.
  destruct (guard_is_released (host := utcHost) (sampleWorld burstDisk fullResponse ∅)
              busyState) as (trace & s' & _ & Hrun & Hclear & _).
  - exists busyTrace. by_evaluation.
  - reflexivity.
  - apply sampleWorld_settles.
  - by exists trace, s'.
Defined.
